(** * TruyenFull crawler: the crawl-and-persist pipeline

    A shallow embedding of [Crawler.js], [index.js] and [utils.js]:
    the page fetcher with its bounded retry, the listing and chapter
    extraction, the orchestration loop of [crawlStory], and the persistence
    callbacks that [main] installs ([saveChapter], [updateStoryJson],
    [getExistingChapters], [saveStoryInfo], [onChapterCrawled], [onError]).

    Conventions of the model.
    - JavaScript numbers that the program only uses as integers (chapter
      numbers, positions, delays, counters) are [Z]; [NaN] and [null] are
      [None] of an [option Z] where the source can produce them.
    - Strings are [string]; the regular expressions of the source are
      written out as functions on [list ascii].
    - The network, the clock, the DOM queries of cheerio and the failures
      of file writes belong to a [World] that every run takes as input.
      Any write to a file may raise; reading a directory does not, and
      reading a chapter file back fails only on a file that cannot be
      parsed.
    - The output directory is a finite map from the path of a story
      directory to its content; two slugs that differ name two
      directories.
    - Effects are explicit: a computation takes the state (file system,
      request and write counters, the variables of [main] and of
      [crawlStory] that the loop and the callbacks update), and returns a
      result or a thrown [Error] message, the new state, and the effects it
      performed, in order: requests, waits, file writes, and the console
      lines of the chapter loop, of the search for chapters on disk and of
      the final summary (the banner, the retry notices and the progress
      notices of the crawler are left out). *)

From stdpp Require Import gmap strings list fin_maps.
From Stdlib Require Import ZArith DecimalString DecimalPos DecimalZ Ascii String
  Permutation Sorted.

Open Scope Z_scope.

(** ** JavaScript strings *)

Module Js.

Definition chars (s : string) : list ascii := list_ascii_of_string s.
Definition str (l : list ascii) : string := string_of_list_ascii l.

(** [\d] *)
Definition is_digit (c : ascii) : bool :=
  let n := nat_of_ascii c in (48 <=? n)%nat && (n <=? 57)%nat.

(** [\s], on the ASCII range: space, tab, line feed, vertical tab, form
    feed, carriage return. *)
Definition is_space (c : ascii) : bool :=
  let n := nat_of_ascii c in
  (n =? 32)%nat || ((9 <=? n)%nat && (n <=? 13)%nat).

Definition digit_val (c : ascii) : Z := Z.of_nat (nat_of_ascii c) - 48.

Fixpoint take_digits (l : list ascii) : list ascii :=
  match l with
  | c :: r => if is_digit c then c :: take_digits r else []
  | [] => []
  end.

Fixpoint strip_prefix (p l : list ascii) : option (list ascii) :=
  match p, l with
  | [], _ => Some l
  | a :: p', b :: l' => if Ascii.eqb a b then strip_prefix p' l' else None
  | _ :: _, [] => None
  end.

(** Value of a digit string read in base ten. *)
Definition digits_val (ds : list ascii) : Z :=
  fold_left (fun acc c => 10 * acc + digit_val c) ds 0.

(** [s.match(/<lit>(\d+)/)]: the digits captured by the leftmost match of
    the literal [lit] followed by one or more digits, [None] when the
    pattern does not match. *)
Fixpoint match_lit_digits (lit l : list ascii) : option (list ascii) :=
  let here :=
    match strip_prefix lit l with
    | Some rest =>
        match take_digits rest with
        | [] => None
        | ds => Some ds
        end
    | None => None
    end in
  match here with
  | Some ds => Some ds
  | None =>
      match l with
      | [] => None
      | _ :: r => match_lit_digits lit r
      end
  end.

Fixpoint drop_spaces (l : list ascii) : list ascii :=
  match l with
  | c :: r => if is_space c then drop_spaces r else l
  | [] => []
  end.

(** [parseInt(s, 10)]: leading white space, an optional sign, then the
    longest run of digits; [None] is [NaN]. *)
Definition parseInt (s : string) : option Z :=
  let l := drop_spaces (chars s) in
  let '(neg, body) :=
    match l with
    | "-"%char :: r => (true, r)
    | "+"%char :: r => (false, r)
    | _ => (false, l)
    end in
  match take_digits body with
  | [] => None
  | ds => Some (if neg : bool then - digits_val ds else digits_val ds)
  end.

(** [n.toString()] of an integer of magnitude up to [2^53 - 1]: there a
    number of the source is an exact integer, written in plain decimal. *)
Definition toString (n : Z) : string := NilZero.string_of_int (Z.to_int n).

(** [s.padStart(width, '0')] *)
Definition padStart0 (width : nat) (s : string) : string :=
  str (replicate (width - String.length s) "0"%char) +:+ s.

Definition startsWith (s p : string) : bool := String.prefix p s.

Definition endsWith (s p : string) : bool :=
  match strip_prefix (rev (chars p)) (rev (chars s)) with
  | Some _ => true
  | None => false
  end.

(** [s.replace(pat, '')] with a string pattern: the first occurrence only. *)
Fixpoint remove_first (pat l : list ascii) : list ascii :=
  match strip_prefix pat l with
  | Some rest => rest
  | None =>
      match l with
      | [] => []
      | c :: r => c :: remove_first pat r
      end
  end.

(** [s.split('/')], as the list of segments. *)
Fixpoint split_slash (cur : list ascii) (l : list ascii) : list (list ascii) :=
  match l with
  | [] => [rev cur]
  | c :: r =>
      if Ascii.eqb c "/"%char then rev cur :: split_slash [] r
      else split_slash (c :: cur) r
  end.

(** [s.replace(/\/$/, '')] *)
Definition strip_trailing_slash (s : string) : string :=
  match rev (chars s) with
  | "/"%char :: r => str (rev r)
  | _ => s
  end.

(** [a || b] on strings: the empty string is falsy. *)
Definition or_str (a b : string) : string :=
  if String.eqb a "" then b else a.

(** [n || d] on numbers: [NaN], [null], [undefined] and [0] are falsy. *)
Definition or_num (a : option Z) (d : Z) : Z :=
  match a with
  | Some n => if n =? 0 then d else n
  | None => d
  end.

Definition truthy (a : option Z) : bool :=
  match a with
  | Some n => negb (n =? 0)
  | None => false
  end.

(** [Array.prototype.sort(cmp)].  The sort is stable, and for a comparator
    that is a consistent ordering of the elements its result is determined
    by that; the model inserts the elements one by one, from the last to the
    first, each before the first element it does not exceed.  For a
    comparator that is not a consistent ordering the language leaves the
    order to the implementation. *)
Section Sort.
Context {A : Type} (cmp : A -> A -> Z).

Fixpoint insert_sorted (x : A) (l : list A) : list A :=
  match l with
  | [] => [x]
  | y :: r => if cmp x y <=? 0 then x :: y :: r else y :: insert_sorted x r
  end.

Definition sort (l : list A) : list A := foldr insert_sorted [] l.
End Sort.

End Js.

(** ** Data model *)

(** A chapter link of a listing page: [{number, title, url, order}]. *)
Record ChapterRef := {
  ref_number : option Z;
  ref_title : string;
  ref_url : string;
  ref_order : Z
}.

Record Content := { text : string; html : string }.

(** A chapter object: what [getChapterContent] builds is
    [{number, title, url, content}], with no [order] property; an object
    read back from a chapter file may carry one. *)
Record Chapter := {
  number : option Z;
  title : string;
  url : string;
  order : option Z;
  content : Content
}.

(** A chapter without its [content], as listed in [story.json]. *)
Record Meta := {
  meta_number : option Z;
  meta_title : string;
  meta_url : string;
  meta_order : option Z
}.

Record StoryInfo := {
  si_title : string;
  si_slug : string;
  si_url : string;
  si_totalPages : option Z
}.

(** The argument of the [onError] callback. *)
Record ErrorInfo := {
  err_chapter : ChapterRef;
  err_error : string;
  err_timestamp : string
}.

(** *** The output directory *)

Inductive File :=
| FChapter (c : Chapter)      (* a JSON file holding a chapter object *)
| FText (s : string)          (* a text file *)
| FCorrupt.                   (* a file that [readJSON] cannot parse *)

(** A story directory below the output directory: [info.json],
    [story.json], [errors.log] (its lines) and the [chapters]
    sub-directory (absent, or its files by name, in directory order). *)
Record StoryDir := {
  info_json : option StoryInfo;
  story_json : option (StoryInfo * list Meta);
  errors_log : list string;
  chapters_dir : option (list (string * File))
}.

Definition empty_dir : StoryDir :=
  {| info_json := None; story_json := None; errors_log := [];
     chapters_dir := None |}.

(** [path.join(a, b)], for a segment [b] that holds no separator. *)
Definition path_join (a b : string) : string := a +:+ "/" +:+ b.

(** *** The world *)

Inductive Response :=
| RespOk (body : string)
| RespStatus (status : Z)         (* [response.ok] is false *)
| RespTimeout                     (* the timer of [Promise.race] wins *)
| RespError (message : string).   (* [fetch] or [response.text()] rejects *)

(** An [a] element matched by [#list-chapter ul.list-chapter li a]. *)
Record Anchor := {
  a_href : option string;
  a_title : option string;
  a_text : string                 (* [$link.text().trim()] *)
}.

Record World := {
  (** the answer to the [n]-th HTTP request of the run, made for a URL *)
  http : nat -> string -> Response;
  (** whether the [n]-th file write of the run raises, and with what message *)
  disk_error : nat -> option string;
  (** [new Date().toISOString()] once [n] requests have been made *)
  now : nat -> string;
  (** cheerio queries, on the markup of a page *)
  dom_h1 : string -> string;               (* [$('h1').first().text().trim()] *)
  dom_title_story : string -> string;      (* [$('.title-story').text().trim()] *)
  dom_total_page : string -> option string;(* [$('#total-page').val()] *)
  dom_anchors : string -> list Anchor;
  dom_chapter_title_a : string -> string;  (* [$('h2 a.chapter-title').text().trim()] *)
  dom_chapter_title : string -> string;    (* [$('.chapter-title').text().trim()] *)
  dom_h2 : string -> string;               (* [$('h2').first().text().trim()] *)
  dom_chapter_c_id : string -> option string;    (* [$('#chapter-c').html()] *)
  dom_chapter_c_class : string -> option string; (* [$('.chapter-c').html()] *)
  (** the second parse, after [script, style, .ads, .advertisement, iframe]
      are removed *)
  dom_body_text : string -> string;        (* [$content('body').text().trim()] *)
  dom_body_html : string -> option string  (* [$content('body').html()] *)
}.

(** *** Effects *)

Inductive LogLine :=
| LCrawling (i total : Z) (t : string)    (* [i/total] Crawling: t *)
| LErrorCrawling (msg : string)           (* Error crawling chapter: msg *)
| LSkippedExisting (n : option Z) (t : string) (* Skipped (already exists) *)
| LSavedChapter (n : option Z) (t : string)    (* Saved: Chapter n - t *)
| LErrorSaving (msg : string)             (* Error saving chapter: msg *)
| LProgress (current total : Z) (t : string)
| LFoundWillSkip (n : Z)      (* Found n existing chapters. Will skip them. *)
| LFoundUseResume (n : Z)     (* Found n existing chapters. Use --resume ... *)
| LCouldNotLoad (file : string)           (* Warning: Could not load file *)
| LLoaded (n : Z)             (* Loaded n existing chapters into memory. *)
| LForceMode                  (* Force mode: Will re-crawl all chapters ... *)
| LCompleted                  (* Crawling completed! *)
| LTotalCrawled (n : Z)       (* Total chapters crawled: n *)
| LChaptersSaved (n : Z)      (* Chapters saved: n *)
| LChaptersSkipped (n : Z)    (* Chapters skipped (already existed): n *)
| LDone                       (* Done! *)
| LFatal (msg : string).      (* Error: msg, before [process.exit(1)] *)

Inductive Data :=
| DInfo (i : StoryInfo)
| DChapter (c : Chapter)
| DText (s : string)
| DManifest (i : StoryInfo) (chapters : list Meta)
| DLine (s : string).

Inductive Event :=
| EvGet (u : string)                    (* one HTTP request *)
| EvDelay (ms : Z)                      (* [await delay(ms)] *)
| EvWrite (path : string) (d : Data) (err : option string)
                                        (* a file write, and its failure *)
| EvLog (l : LogLine).                  (* a line on the console *)

(** Variables of [main] that its callbacks read and update. *)
Record MainVars := {
  savedCount : Z;
  skippedCount : Z;
  allCrawledChapters : list Chapter
}.

(** Variables of [crawlStory] that its loop updates. *)
Record CrawlVars := {
  crawledChapters : list Chapter;
  crawledCount : Z
}.

Record St := {
  fs : gmap string StoryDir;
  nreq : nat;
  nwrite : nat;
  mainv : MainVars;
  crawlv : CrawlVars
}.

Definition init_St (disk : gmap string StoryDir) : St :=
  {| fs := disk; nreq := 0; nwrite := 0;
     mainv := {| savedCount := 0; skippedCount := 0; allCrawledChapters := [] |};
     crawlv := {| crawledChapters := []; crawledCount := 0 |} |}.

(** A value, or a thrown [Error] with its message. *)
Inductive Res (A : Type) :=
| Ret (a : A)
| Throw (msg : string).
Arguments Ret {A} a.
Arguments Throw {A} msg.

(** An async function of the program: from the state to its outcome, the
    new state and the effects performed, in order.  A throw keeps the state
    reached and the effects already performed. *)
Definition M (A : Type) : Type := St -> Res A * St * list Event.

#[export] Instance M_ret : MRet M := fun A a s => (Ret a, s, []).

#[export] Instance M_bind : MBind M := fun A B f m s =>
  match m s with
  | (Ret a, s1, t1) => let '(r, s2, t2) := f a s1 in (r, s2, t1 ++ t2)
  | (Throw e, s1, t1) => (Throw e, s1, t1)
  end.

Definition throw {A} (msg : string) : M A := fun s => (Throw msg, s, []).

(** [try { m } catch (error) { h error.message }] *)
Definition try_catch {A} (m : M A) (h : string -> M A) : M A := fun s =>
  match m s with
  | (Throw e, s1, t1) => let '(r, s2, t2) := h e s1 in (r, s2, t1 ++ t2)
  | ok => ok
  end.

Definition emit (e : Event) : M unit := fun s => (Ret tt, s, [e]).
Definition log (l : LogLine) : M unit := emit (EvLog l).
Definition get_st : M St := fun s => (Ret s, s, []).
Definition modify (f : St -> St) : M unit := fun s => (Ret tt, f s, []).
Definition when (b : bool) (m : M unit) : M unit := if b then m else mret tt.

Definition res_of {A} (x : Res A * St * list Event) : Res A := x.1.1.
Definition st_of {A} (x : Res A * St * list Event) : St := x.1.2.
Definition trace_of {A} (x : Res A * St * list Event) : list Event := x.2.

Definition set_fs (f : gmap string StoryDir -> gmap string StoryDir) (s : St) : St :=
  {| fs := f (fs s); nreq := nreq s; nwrite := nwrite s;
     mainv := mainv s; crawlv := crawlv s |}.
Definition set_nreq (f : nat -> nat) (s : St) : St :=
  {| fs := fs s; nreq := f (nreq s); nwrite := nwrite s;
     mainv := mainv s; crawlv := crawlv s |}.
Definition set_nwrite (f : nat -> nat) (s : St) : St :=
  {| fs := fs s; nreq := nreq s; nwrite := f (nwrite s);
     mainv := mainv s; crawlv := crawlv s |}.
Definition set_mainv (f : MainVars -> MainVars) (s : St) : St :=
  {| fs := fs s; nreq := nreq s; nwrite := nwrite s;
     mainv := f (mainv s); crawlv := crawlv s |}.
Definition set_crawlv (f : CrawlVars -> CrawlVars) (s : St) : St :=
  {| fs := fs s; nreq := nreq s; nwrite := nwrite s;
     mainv := mainv s; crawlv := f (crawlv s) |}.

(** ** utils.js *)

Definition delay (ms : Z) : M unit := emit (EvDelay ms).

(** The characters that [sanitizeFileName] replaces: the double quote
    (character 34) and the other eight of its class. *)
Definition is_invalid_char (c : ascii) : bool :=
  existsb (Ascii.eqb c) (ascii_of_nat 34 :: Js.chars "<>:/\|?*").

(** [.replace(re, '_')] for a pattern [re] matching a maximal run of
    characters of a class. *)
Fixpoint replace_runs (p : ascii -> bool) (l : list ascii) : list ascii :=
  match l with
  | [] => []
  | c :: r =>
      if p c then
        match r with
        | c' :: _ => if p c' then replace_runs p r else "_"%char :: replace_runs p r
        | [] => ["_"%char]
        end
      else c :: replace_runs p r
  end.

Definition sanitizeFileName (fileName : string) : string :=
  let s1 := map (fun c => if is_invalid_char c then "_"%char else c)
                (Js.chars fileName) in
  let s2 := replace_runs Js.is_space s1 in
  let s3 := replace_runs (Ascii.eqb "_"%char) s2 in
  (* the final [trim()] finds no white space left *)
  Js.str s3.

(** ** Crawler.js *)

Record Crawler := {
  baseUrl : string;
  cr_delay : Z;         (* [this.delay] *)
  cr_retries : nat;     (* [this.retries] *)
  cr_timeout : Z        (* [this.timeout] *)
}.

(** [new TruyenFullCrawler({delay, retries, timeout})] *)
Definition TruyenFullCrawler (o_delay o_retries o_timeout : option Z) : Crawler :=
  {| baseUrl := "https://truyenfull.vision";
     cr_delay := Js.or_num o_delay 1000;
     cr_retries := Z.to_nat (Js.or_num o_retries 3);
     cr_timeout := Js.or_num o_timeout 30000 |}.

(** [chuong-(\d+)] read off a URL: the chapter number, or [null]. *)
Definition chapterNumberOf (u : string) : option Z :=
  match Js.match_lit_digits (Js.chars "chuong-") (Js.chars u) with
  | Some ds => Some (Js.digits_val ds)
  | None => None
  end.

Section Program.
Context (w : World).

(** What the [try] block of [fetchPage] makes of a response: the markup,
    or the message of the error it raises. *)
Definition outcomeOf (r : Response) : string + string :=
  match r with
  | RespOk body => inl body
  | RespStatus status => inr ("HTTP error! status: " +:+ Js.toString status)
  | RespTimeout => inr "Request timeout"
  | RespError message => inr message
  end.

(** One attempt: the request and its outcome. *)
Definition attempt (u : string) : M (string + string) := fun s =>
  (Ret (outcomeOf (http w (nreq s) u)), set_nreq S s, [EvGet u]).

(** [fetchPage(url, retryCount)], by recursion on the retries that are left:
    [budget] is [this.retries - retryCount], so the test
    [retryCount < this.retries] is [budget] being a successor. *)
Fixpoint fetchPage_from (cr : Crawler) (u : string) (budget : nat)
    (retryCount : Z) : M string :=
  r ← attempt u;
  match r with
  | inl html => mret html
  | inr message =>
      match budget with
      | S budget' =>
          delay (cr_delay cr * (retryCount + 1));;
          fetchPage_from cr u budget' (retryCount + 1)
      | O => throw ("Failed to fetch " +:+ u +:+ ": " +:+ message)
      end
  end.

Definition fetchPage (cr : Crawler) (u : string) : M string :=
  fetchPage_from cr u (cr_retries cr) 0.

Definition slugOf (cr : Crawler) (storyUrl : string) : string :=
  let rest := Js.remove_first (Js.chars (baseUrl cr)) (Js.chars storyUrl) in
  let urlParts :=
    filter (fun p => p ≠ []) (Js.split_slash [] rest) in
  match urlParts with
  | p :: _ => Js.str p
  | [] => "unknown"
  end.

Definition getStoryInfo (cr : Crawler) (storyUrl : string) : M StoryInfo :=
  try_catch
    (html ← fetchPage cr storyUrl;
     let storyTitle :=
       Js.or_str (dom_h1 w html)
         (Js.or_str (dom_title_story w html) "Unknown Story") in
     let totalPages :=
       Js.parseInt
         (match dom_total_page w html with
          | Some v => Js.or_str v "1"
          | None => "1"
          end) in
     mret {| si_title := storyTitle; si_slug := slugOf cr storyUrl;
             si_url := storyUrl; si_totalPages := totalPages |})
    (fun message => throw ("Failed to get story info: " +:+ message)).

Definition pageUrl (storyUrl : string) (pageNumber : Z) : string :=
  if 1 <? pageNumber then
    Js.strip_trailing_slash storyUrl +:+ "/trang-" +:+ Js.toString pageNumber
      +:+ "/#list-chapter"
  else storyUrl +:+ "#list-chapter".

(** The body of the [.each] callback, for the anchor at position [index]. *)
Definition refOfAnchor (cr : Crawler) (index : Z) (a : Anchor) : option ChapterRef :=
  match a_href a with
  | Some href =>
      if String.eqb href "" then None else
      Some {| ref_number := chapterNumberOf href;
              ref_title :=
                match a_title a with
                | Some t => Js.or_str t (a_text a)
                | None => a_text a
                end;
              ref_url :=
                if Js.startsWith href "http" then href else baseUrl cr +:+ href;
              ref_order := index |}
  | None => None
  end.

Definition refsOfAnchors (cr : Crawler) (l : list Anchor) : list ChapterRef :=
  omap (fun '(i, a) => refOfAnchor cr i a) (zip (seqZ 0 (Z.of_nat (List.length l))) l).

Definition getChaptersFromPage (cr : Crawler) (storyUrl : string)
    (pageNumber : Z) : M (list ChapterRef) :=
  try_catch
    (html ← fetchPage cr (pageUrl storyUrl pageNumber);
     mret (refsOfAnchors cr (dom_anchors w html)))
    (fun message =>
       throw ("Failed to get chapters from page " +:+ Js.toString pageNumber
              +:+ ": " +:+ message)).

(** The comparator of [getAllChapters]. *)
Definition compareRefs (a b : ChapterRef) : Z :=
  match ref_number a, ref_number b with
  | Some x, Some y => x - y
  | _, _ => ref_order a - ref_order b
  end.

(** [for (let page = 1; page <= totalPages; page++)], over the pages that
    the loop visits. *)
Fixpoint pagesLoop (cr : Crawler) (storyUrl : string) (totalPages : Z)
    (pages : list Z) (allChapters : list ChapterRef) : M (list ChapterRef) :=
  match pages with
  | [] => mret allChapters
  | page :: rest =>
      chapters ← getChaptersFromPage cr storyUrl page;
      when (page <? totalPages) (delay (cr_delay cr));;
      pagesLoop cr storyUrl totalPages rest (allChapters ++ chapters)
  end.

Definition pagesOf (totalPages : option Z) : list Z :=
  match totalPages with
  | Some n => seqZ 1 n
  | None => []
  end.

Definition getAllChapters (cr : Crawler) (storyUrl : string)
    : M (StoryInfo * list ChapterRef) :=
  try_catch
    (storyInfo ← getStoryInfo cr storyUrl;
     allChapters ←
       match si_totalPages storyInfo with
       | Some n => pagesLoop cr storyUrl n (pagesOf (Some n)) []
       | None => mret []
       end;
     mret (storyInfo, Js.sort compareRefs allChapters))
    (fun message => throw ("Failed to get all chapters: " +:+ message)).

Definition or_opt (a : option string) (b : string) : string :=
  match a with
  | Some v => Js.or_str v b
  | None => b
  end.

Definition getChapterContent (cr : Crawler) (chapterUrl : string) : M Chapter :=
  try_catch
    (html ← fetchPage cr chapterUrl;
     let chapterTitle :=
       Js.or_str (dom_chapter_title_a w html)
         (Js.or_str (dom_chapter_title w html)
            (Js.or_str (dom_h2 w html) "Unknown Chapter")) in
     let chapterContent :=
       or_opt (dom_chapter_c_id w html) (or_opt (dom_chapter_c_class w html) "") in
     let textContent := dom_body_text w chapterContent in
     let htmlContent := or_opt (dom_body_html w chapterContent) "" in
     mret {| number := chapterNumberOf chapterUrl;
             title := chapterTitle;
             url := chapterUrl;
             order := None;
             content := {| text := textContent; html := htmlContent |} |})
    (fun message =>
       throw ("Failed to get chapter content from " +:+ chapterUrl +:+ ": "
              +:+ message)).

(** The options of [crawlStory] after destructuring; [main] passes [null]
    for an absent [startChapter], so the default [1] is not applied. *)
Record CrawlOptions := {
  startChapter : option Z;
  endChapter : option Z;
  onProgress : option (Z -> Z -> Chapter -> M unit);
  onChapterCrawled : option (Chapter -> M unit);
  onError : option (ErrorInfo -> M unit);
  existingChapters : option (gset Z)
}.

(** [bound && n < bound] and [bound && n > bound] *)
Definition isBelow (bound : option Z) (n : Z) : bool :=
  Js.truthy bound && (n <? Js.or_num bound 0).
Definition isAbove (bound : option Z) (n : Z) : bool :=
  Js.truthy bound && (Js.or_num bound 0 <? n).

Definition inRange (o : CrawlOptions) (ch : ChapterRef) : bool :=
  match ref_number ch with
  | None => true
  | Some n =>
      if isBelow (startChapter o) n then false
      else if isAbove (endChapter o) n then false
      else true
  end.

Definition rangeFilter (o : CrawlOptions) (chapters : list ChapterRef)
    : list ChapterRef :=
  if Js.truthy (startChapter o) || Js.truthy (endChapter o)
  then List.filter (inRange o) chapters
  else chapters.

(** [ch => ch.number === null ? true : !existingChapters.has(ch.number)] *)
Definition notExisting (existing : gset Z) (ch : ChapterRef) : bool :=
  match ref_number ch with
  | None => true
  | Some n => negb (bool_decide (n ∈ existing))
  end.

Definition resumeFilter (o : CrawlOptions) (chaptersToCrawl : list ChapterRef)
    : list ChapterRef :=
  match existingChapters o with
  | Some existing =>
      if (0 <? size existing)%nat
      then List.filter (notExisting existing) chaptersToCrawl
      else chaptersToCrawl
  | None => chaptersToCrawl
  end.

Definition call {A} (cb : option (A -> M unit)) (a : A) : M unit :=
  match cb with
  | Some f => f a
  | None => mret tt
  end.

(** The loop of [crawlStory] from index [i], over the references still to
    visit; [total] is [chaptersToCrawl.length]. *)
Fixpoint crawlLoop (cr : Crawler) (o : CrawlOptions) (total : Z) (i : Z)
    (todo : list ChapterRef) : M unit :=
  match todo with
  | [] => mret tt
  | chapterLink :: rest =>
      log (LCrawling (i + 1) total (ref_title chapterLink));;
      try_catch
        (chapterContent ← getChapterContent cr (ref_url chapterLink);
         modify (set_crawlv (fun v =>
           {| crawledChapters := crawledChapters v ++ [chapterContent];
              crawledCount := crawledCount v + 1 |}));;
         call (onChapterCrawled o) chapterContent;;
         s ← get_st;
         match onProgress o with
         | Some f => f (crawledCount (crawlv s)) total chapterContent
         | None => mret tt
         end;;
         when (i <? total - 1) (delay (cr_delay cr)))
        (fun message =>
           log (LErrorCrawling message);;
           s ← get_st;
           call (onError o)
             {| err_chapter := chapterLink; err_error := message;
                err_timestamp := now w (nreq s) |});;
      crawlLoop cr o total (i + 1) rest
  end.

(** The references that [crawlStory] fetches, from the merged listing. *)
Definition chaptersToCrawlOf (o : CrawlOptions) (chapters : list ChapterRef)
    : list ChapterRef :=
  resumeFilter o (rangeFilter o chapters).

Definition crawlStory (cr : Crawler) (storyUrl : string) (o : CrawlOptions)
    : M (StoryInfo * list Chapter) :=
  try_catch
    ('(storyInfo, chapters) ← getAllChapters cr storyUrl;
     let chaptersToCrawl := chaptersToCrawlOf o chapters in
     modify (set_crawlv (fun _ => {| crawledChapters := []; crawledCount := 0 |}));;
     crawlLoop cr o (Z.of_nat (List.length chaptersToCrawl)) 0 chaptersToCrawl;;
     s ← get_st;
     mret (storyInfo, crawledChapters (crawlv s)))
    (fun message => throw ("Failed to crawl story: " +:+ message)).


(** ** index.js *)

Record Options := {
  opt_outputDir : string;
  opt_delay : option Z;
  opt_startChapter : option Z;
  opt_endChapter : option Z;
  opt_format : string;
  opt_resume : bool;
  opt_force : bool
}.

(** [format === 'txt' ? 'txt' : 'json'] *)
Definition extOf (format : string) : string :=
  if String.eqb format "txt" then "txt" else "json".

Definition newline : string := String (ascii_of_nat 10) EmptyString.

(** [fs.ensureDir] of a story directory and of its [chapters] directory. *)
Definition ensureStoryDir (dir : string) : M unit :=
  modify (set_fs (fun m =>
    match m !! dir with
    | Some _ => m
    | None => <[dir := empty_dir]> m
    end)).

Definition ensureChaptersDir (dir : string) : M unit :=
  modify (set_fs (fun m =>
    let d := default empty_dir (m !! dir) in
    <[dir := {| info_json := info_json d; story_json := story_json d;
                errors_log := errors_log d;
                chapters_dir := Some (default [] (chapters_dir d)) |}]> m)).

(** A write below a story directory: [ENOENT] when the directory that
    must hold the file is missing, otherwise the world decides whether the
    write raises; a write that raises leaves the files as they were. *)
Definition writeIn (dir path : string) (d : Data)
    (update : StoryDir -> option StoryDir) : M unit := fun s =>
  match fs s !! dir ≫= update with
  | None =>
      (Throw ("ENOENT: no such file or directory, open '" +:+ path +:+ "'"),
       s, [])
  | Some dir' =>
      match disk_error w (nwrite s) with
      | Some message =>
          (Throw message, set_nwrite S s, [EvWrite path d (Some message)])
      | None =>
          (Ret tt, set_nwrite S (set_fs (insert dir dir') s),
           [EvWrite path d None])
      end
  end.

(** A file of a directory, replaced in place or added at the end. *)
Fixpoint put_file (name : string) (f : File) (l : list (string * File))
    : list (string * File) :=
  match l with
  | [] => [(name, f)]
  | (n, g) :: r =>
      if String.eqb n name then (n, f) :: r else (n, g) :: put_file name f r
  end.

Fixpoint get_file (name : string) (l : list (string * File)) : option File :=
  match l with
  | [] => None
  | (n, g) :: r => if String.eqb n name then Some g else get_file name r
  end.

(** The file name of a chapter; [chapter.order.toString()] raises a
    [TypeError] when the chapter has no [order]. *)
Definition chapterFileName (chapter : Chapter) (format : string) : Res string :=
  if Js.truthy (number chapter) then
    Ret ("chapter-" +:+ Js.padStart0 5 (Js.toString (Js.or_num (number chapter) 0))
         +:+ "." +:+ extOf format)
  else
    match order chapter with
    | Some o =>
        Ret ("chapter-" +:+ Js.padStart0 5 (Js.toString o) +:+ "." +:+ extOf format)
    | None => Throw "Cannot read properties of undefined (reading 'toString')"
    end.

Definition saveChapter (chapter : Chapter) (storySlug outputDir format : string)
    : M (string * string) :=
  let sanitizedSlug := sanitizeFileName storySlug in
  let storyDir := path_join outputDir sanitizedSlug in
  let chaptersDir := path_join storyDir "chapters" in
  ensureChaptersDir storyDir;;
  match chapterFileName chapter format with
  | Throw message => throw message
  | Ret chapterFileName =>
      let chapterPath := path_join chaptersDir chapterFileName in
      let put (f : File) (d : StoryDir) :=
        files ← chapters_dir d;
        Some {| info_json := info_json d; story_json := story_json d;
                errors_log := errors_log d;
                chapters_dir := Some (put_file chapterFileName f files) |} in
      (if String.eqb format "json" then
         writeIn storyDir chapterPath (DChapter chapter) (put (FChapter chapter))
       else
         let textContent :=
           title chapter +:+ newline +:+ newline +:+ text (content chapter) in
         writeIn storyDir chapterPath (DText textContent) (put (FText textContent)));;
      mret (sanitizedSlug, chapterPath)
  end.

(** The comparator of [updateStoryJson]. *)
Definition compareChapters (a b : Chapter) : Z :=
  match number a, number b with
  | Some x, Some y => x - y
  | Some _, None => -1
  | None, Some _ => 1
  | None, None => Js.or_num (order a) 0 - Js.or_num (order b) 0
  end.

(** [const { content, ...metadata } = chapter] *)
Definition metadataOf (chapter : Chapter) : Meta :=
  {| meta_number := number chapter; meta_title := title chapter;
     meta_url := url chapter; meta_order := order chapter |}.

Definition lightweightChapters (allChapters : list Chapter) : list Meta :=
  map metadataOf (Js.sort compareChapters allChapters).

Definition updateStoryJson (storyInfo : StoryInfo) (allChapters : list Chapter)
    (outputDir : string) : M unit :=
  let storySlug := sanitizeFileName (si_slug storyInfo) in
  let storyDir := path_join outputDir storySlug in
  let jsonPath := path_join storyDir "story.json" in
  let chapters := lightweightChapters allChapters in
  writeIn storyDir jsonPath (DManifest storyInfo chapters)
    (fun d => Some {| info_json := info_json d;
                      story_json := Some (storyInfo, chapters);
                      errors_log := errors_log d;
                      chapters_dir := chapters_dir d |}).

(** The chapter numbers that [getExistingChapters] reads off file names. *)
Definition existingNumbers (files : list string) (format : string) : gset Z :=
  foldl (fun existing file =>
           if Js.endsWith file ("." +:+ extOf format) then
             match Js.match_lit_digits (Js.chars "chapter-") (Js.chars file) with
             | Some ds => {[ Js.digits_val ds ]} ∪ existing
             | None => existing
             end
           else existing)
        ∅ files.

(** The files of [path.join(outputDir, storySlug, 'chapters')], when that
    directory exists. *)
Definition readChaptersDir (disk : gmap string StoryDir)
    (storySlug outputDir : string) : option (list (string * File)) :=
  disk !! path_join outputDir storySlug ≫= chapters_dir.

(** What [getExistingChapters] returns on a given disk. *)
Definition existingOn (disk : gmap string StoryDir)
    (storySlug outputDir format : string) : gset Z :=
  match readChaptersDir disk storySlug outputDir with
  | None => ∅
  | Some files => existingNumbers (map fst files) format
  end.

Definition getExistingChapters (storySlug outputDir format : string)
    : M (gset Z) :=
  s ← get_st;
  mret (existingOn (fs s) storySlug outputDir format).

Definition saveStoryInfo (storyInfo : StoryInfo) (outputDir : string) : M unit :=
  let storySlug := sanitizeFileName (si_slug storyInfo) in
  let storyDir := path_join outputDir storySlug in
  ensureStoryDir storyDir;;
  writeIn storyDir (path_join storyDir "info.json") (DInfo storyInfo)
    (fun d => Some {| info_json := Some storyInfo;
                      story_json := story_json d;
                      errors_log := errors_log d;
                      chapters_dir := chapters_dir d |}).

(** *** The callbacks that [main] hands to [crawlStory] *)

Definition pushCrawled (chapter : Chapter) : M unit :=
  modify (set_mainv (fun v =>
    {| savedCount := savedCount v; skippedCount := skippedCount v;
       allCrawledChapters := allCrawledChapters v ++ [chapter] |})).

(** [existingChapters.has(chapter.number)] *)
Definition has (existing : gset Z) (n : option Z) : bool :=
  match n with
  | Some k => bool_decide (k ∈ existing)
  | None => false
  end.

Definition onChapterCrawled_main (options : Options) (storyInfo : StoryInfo)
    (existing : gset Z) (chapter : Chapter) : M unit :=
  if negb (opt_force options) && has existing (number chapter) then
    modify (set_mainv (fun v =>
      {| savedCount := savedCount v; skippedCount := skippedCount v + 1;
         allCrawledChapters := allCrawledChapters v |}));;
    log (LSkippedExisting (number chapter) (title chapter));;
    s ← get_st;
    when (negb (existsb (fun ch => bool_decide (number ch = number chapter))
                        (allCrawledChapters (mainv s))))
         (pushCrawled chapter);;
    s ← get_st;
    updateStoryJson storyInfo (allCrawledChapters (mainv s)) (opt_outputDir options)
  else
    try_catch
      (saveChapter chapter (si_slug storyInfo) (opt_outputDir options)
         (opt_format options);;
       modify (set_mainv (fun v =>
         {| savedCount := savedCount v + 1; skippedCount := skippedCount v;
            allCrawledChapters := allCrawledChapters v |}));;
       log (LSavedChapter (number chapter) (title chapter));;
       pushCrawled chapter;;
       s ← get_st;
       updateStoryJson storyInfo (allCrawledChapters (mainv s))
         (opt_outputDir options))
      (fun message => log (LErrorSaving message)).

Definition onProgress_main (current total : Z) (chapter : Chapter) : M unit :=
  log (LProgress current total (title chapter)).

(** The line that [onError] appends to [errors.log]. *)
Definition logEntry (errorInfo : ErrorInfo) : string :=
  "[" +:+ err_timestamp errorInfo +:+ "] Chapter "
  +:+ (if Js.truthy (ref_number (err_chapter errorInfo))
       then Js.toString (Js.or_num (ref_number (err_chapter errorInfo)) 0)
       else "N/A")
  +:+ " - " +:+ ref_title (err_chapter errorInfo) +:+ ": "
  +:+ err_error errorInfo +:+ newline.

Definition onError_main (options : Options) (storyInfo : StoryInfo)
    (errorInfo : ErrorInfo) : M unit :=
  let storyDir := path_join (opt_outputDir options) (si_slug storyInfo) in
  let errorLogPath := path_join storyDir "errors.log" in
  ensureStoryDir storyDir;;
  writeIn storyDir errorLogPath (DLine (logEntry errorInfo))
    (fun d => Some {| info_json := info_json d; story_json := story_json d;
                      errors_log := errors_log d ++ [logEntry errorInfo];
                      chapters_dir := chapters_dir d |}).


(** *** [main] *)

Definition defaultOptions : Options :=
  {| opt_outputDir := "./output"; opt_delay := Some 1000;
     opt_startChapter := None; opt_endChapter := None;
     opt_format := "json"; opt_resume := true; opt_force := false |}.

Definition with_outputDir (v : string) (o : Options) : Options :=
  {| opt_outputDir := v; opt_delay := opt_delay o;
     opt_startChapter := opt_startChapter o; opt_endChapter := opt_endChapter o;
     opt_format := opt_format o; opt_resume := opt_resume o;
     opt_force := opt_force o |}.
Definition with_delay (v : option Z) (o : Options) : Options :=
  {| opt_outputDir := opt_outputDir o; opt_delay := v;
     opt_startChapter := opt_startChapter o; opt_endChapter := opt_endChapter o;
     opt_format := opt_format o; opt_resume := opt_resume o;
     opt_force := opt_force o |}.
Definition with_startChapter (v : option Z) (o : Options) : Options :=
  {| opt_outputDir := opt_outputDir o; opt_delay := opt_delay o;
     opt_startChapter := v; opt_endChapter := opt_endChapter o;
     opt_format := opt_format o; opt_resume := opt_resume o;
     opt_force := opt_force o |}.
Definition with_endChapter (v : option Z) (o : Options) : Options :=
  {| opt_outputDir := opt_outputDir o; opt_delay := opt_delay o;
     opt_startChapter := opt_startChapter o; opt_endChapter := v;
     opt_format := opt_format o; opt_resume := opt_resume o;
     opt_force := opt_force o |}.
Definition with_format (v : string) (o : Options) : Options :=
  {| opt_outputDir := opt_outputDir o; opt_delay := opt_delay o;
     opt_startChapter := opt_startChapter o; opt_endChapter := opt_endChapter o;
     opt_format := v; opt_resume := opt_resume o; opt_force := opt_force o |}.
Definition with_resume (v : bool) (o : Options) : Options :=
  {| opt_outputDir := opt_outputDir o; opt_delay := opt_delay o;
     opt_startChapter := opt_startChapter o; opt_endChapter := opt_endChapter o;
     opt_format := opt_format o; opt_resume := v; opt_force := opt_force o |}.
Definition with_force (v : bool) (o : Options) : Options :=
  {| opt_outputDir := opt_outputDir o; opt_delay := opt_delay o;
     opt_startChapter := opt_startChapter o; opt_endChapter := opt_endChapter o;
     opt_format := opt_format o; opt_resume := opt_resume o; opt_force := v |}.

Inductive ArgStep :=
| Consumed (o : Options)     (* the option took [args[++i]] *)
| Single (o : Options)
| ExitWith (code : Z).

(** One round of the option loop: [arg] is [args[i]], [next] is
    [args[i + 1]]; an absent or empty [next] is falsy. *)
Definition parseArg (arg : string) (next : option string) (options : Options)
    : ArgStep :=
  let value := match next with
               | Some v => if String.eqb v "" then None else Some v
               | None => None
               end in
  match value with
  | Some v =>
      if String.eqb arg "--output-dir" then Consumed (with_outputDir v options)
      else if String.eqb arg "--delay" then
        Consumed (with_delay (Js.parseInt v) options)
      else if String.eqb arg "--start" then
        Consumed (with_startChapter (Js.parseInt v) options)
      else if String.eqb arg "--end" then
        Consumed (with_endChapter (Js.parseInt v) options)
      else if String.eqb arg "--format" then
        if String.eqb v "json" || String.eqb v "txt"
        then Consumed (with_format v options)
        else ExitWith 1
      else if String.eqb arg "--resume" then Single (with_resume true options)
      else if String.eqb arg "--no-resume" then Single (with_resume false options)
      else if String.eqb arg "--force" then
        Single (with_resume false (with_force true options))
      else Single options
  | None =>
      if String.eqb arg "--resume" then Single (with_resume true options)
      else if String.eqb arg "--no-resume" then Single (with_resume false options)
      else if String.eqb arg "--force" then
        Single (with_resume false (with_force true options))
      else Single options
  end.

(** [for (let i = 1; i < args.length; i++)], over [args.slice(1)]. *)
Fixpoint parseOptions (args : list string) (options : Options)
    : Options + Z :=
  match args with
  | [] => inl options
  | arg :: rest =>
      match rest with
      | next :: rest' =>
          match parseArg arg (Some next) options with
          | Consumed o => parseOptions rest' o
          | Single o => parseOptions rest o
          | ExitWith code => inr code
          end
      | [] =>
          match parseArg arg None options with
          | Consumed o | Single o => inl o
          | ExitWith code => inr code
          end
      end
  end.

(** Default comparison of [Array.prototype.sort()] on strings. *)
Definition compareStrings (a b : string) : Z :=
  match String.compare a b with
  | Lt => -1
  | Eq => 0
  | Gt => 1
  end.

(** The loop of [main] that reads the chapter files back. *)
Fixpoint loadChapterFiles (options : Options) (files : list (string * File))
    (chapterFiles : list string) : M unit :=
  match chapterFiles with
  | [] => mret tt
  | file :: rest =>
      (if String.eqb (opt_format options) "json" then
         match get_file file files with
         | Some (FChapter chapter) => pushCrawled chapter
         | _ => log (LCouldNotLoad file)
         end
       else mret tt);;
      loadChapterFiles options files rest
  end.

Definition loadExisting (options : Options) (storyInfo : StoryInfo) : M unit :=
  s ← get_st;
  match readChaptersDir (fs s) (si_slug storyInfo) (opt_outputDir options) with
  | Some files =>
      let chapterFiles :=
        Js.sort compareStrings
          (List.filter (fun f => Js.endsWith f ("." +:+ extOf (opt_format options)))
                       (map fst files)) in
      loadChapterFiles options files chapterFiles;;
      s ← get_st;
      let n := Z.of_nat (List.length (allCrawledChapters (mainv s))) in
      when (0 <? n) (log (LLoaded n))
  | None => mret tt
  end.

(** The lines that [main] prints once [crawlStory] has returned. *)
Definition summary (options : Options) (storyInfo : StoryInfo)
    (chapters : list Chapter) : M unit :=
  log LCompleted;;
  log (LTotalCrawled (Z.of_nat (List.length chapters)));;
  s ← get_st;
  log (LChaptersSaved (savedCount (mainv s)));;
  finalExistingChapters ←
    getExistingChapters (si_slug storyInfo) (opt_outputDir options)
      (opt_format options);
  let totalSkipped :=
    Z.of_nat (size finalExistingChapters) - savedCount (mainv s) in
  when (0 <? totalSkipped) (log (LChaptersSkipped totalSkipped));;
  log LDone.

(** [if (!options.force) { ... } else { ... }]: the numbers found in the
    chapter directory, after the chapters on disk were read back. *)
Definition findExisting (options : Options) (storyInfo : StoryInfo)
    : M (gset Z) :=
  if negb (opt_force options) then
    existing ← getExistingChapters (si_slug storyInfo)
                 (opt_outputDir options) (opt_format options);
    when (0 <? size existing)%nat
      ((if opt_resume options
        then log (LFoundWillSkip (Z.of_nat (size existing)))
        else log (LFoundUseResume (Z.of_nat (size existing))));;
       loadExisting options storyInfo);;
    mret existing
  else log LForceMode;; mret ∅.

(** The options that [main] passes to [crawlStory]. *)
Definition crawlOptionsOf (options : Options) (storyInfo : StoryInfo)
    (existing : gset Z) : CrawlOptions :=
  {| startChapter := opt_startChapter options;
     endChapter := opt_endChapter options;
     onProgress := Some onProgress_main;
     onChapterCrawled := Some (onChapterCrawled_main options storyInfo existing);
     onError := Some (onError_main options storyInfo);
     existingChapters :=
       if negb (opt_force options) then Some existing else None |}.

Definition crawlerOf (options : Options) : Crawler :=
  TruyenFullCrawler (opt_delay options) (Some 3) (Some 30000).

(** What [main] does once [info.json] is written. *)
Definition crawlAndReport (storyUrl : string) (options : Options)
    (storyInfo : StoryInfo) : M unit :=
  modify (set_mainv (fun _ =>
    {| savedCount := 0; skippedCount := 0; allCrawledChapters := [] |}));;
  existing ← findExisting options storyInfo;
  '(_, chapters) ←
    crawlStory (crawlerOf options) storyUrl
      (crawlOptionsOf options storyInfo existing);
  summary options storyInfo chapters.

(** The body of the [try] block of [main]. *)
Definition mainBody (storyUrl : string) (options : Options) : M unit :=
  storyInfo ← getStoryInfo (crawlerOf options) storyUrl;
  saveStoryInfo storyInfo (opt_outputDir options);;
  crawlAndReport storyUrl options storyInfo.

(** [main], from the argument vector to the exit code of the process. *)
Definition main (args : list string) : M Z :=
  match args with
  | [] => mret 0
  | storyUrl :: rest =>
      if existsb (String.eqb "--help") args then mret 0
      else if String.eqb storyUrl "" || negb (Js.startsWith storyUrl "http")
      then mret 1
      else
        match parseOptions rest defaultOptions with
        | inr code => mret code
        | inl options =>
            try_catch (mainBody storyUrl options;; mret 0)
                      (fun message => log (LFatal message);; mret 1)
        end
  end.

End Program.

(** ** Observations on runs *)

Definition countEv (p : Event -> bool) (t : list Event) : nat :=
  List.length (List.filter p t).

Definition is_get (u : string) (e : Event) : bool :=
  match e with EvGet v => String.eqb u v | _ => false end.

Definition is_net_event (e : Event) : bool :=
  match e with EvGet _ | EvDelay _ => true | _ => false end.

Definition is_info_write (e : Event) : bool :=
  match e with EvWrite _ (DInfo _) _ => true | _ => false end.

Definition is_log (e : Event) : bool :=
  match e with EvLog _ => true | _ => false end.

(** The lines that the chapter loop and its callbacks print. *)
Definition is_crawl_log (l : LogLine) : bool :=
  match l with
  | LCrawling _ _ _ | LErrorCrawling _ | LSkippedExisting _ _
  | LSavedChapter _ _ | LErrorSaving _ | LProgress _ _ _ => true
  | _ => false
  end.

(** The effects that [crawlStory] can have under the callbacks of [main]. *)
Definition is_crawl_event (e : Event) : bool :=
  match e with
  | EvGet _ | EvDelay _ => true
  | EvWrite _ (DInfo _) _ => false
  | EvWrite _ _ _ => true
  | EvLog l => is_crawl_log l
  end.

(** The lines that [main] prints while it looks for chapters on disk. *)
Definition is_setup_event (e : Event) : bool :=
  match e with
  | EvLog (LFoundWillSkip _ | LFoundUseResume _ | LCouldNotLoad _
          | LLoaded _ | LForceMode) => true
  | _ => false
  end.

Definition is_saved_line (e : Event) : bool :=
  match e with EvLog (LSavedChapter _ _) => true | _ => false end.

Definition is_error_crawling (e : Event) : bool :=
  match e with EvLog (LErrorCrawling _) => true | _ => false end.

Definition is_summary_line (e : Event) : bool :=
  match e with
  | EvLog (LCompleted | LTotalCrawled _ | LChaptersSaved _
          | LChaptersSkipped _ | LDone) => true
  | _ => false
  end.

(** The final summary, as printed. *)
Definition summaryLines (t : list Event) : list Event :=
  List.filter is_summary_line t.

(** The references recorded as failed in a run: one [onError] call each. *)
Definition failedCount (t : list Event) : nat := countEv is_error_crawling t.

(** The summary that [main] prints for [crawled] chapters returned by
    [crawlStory], [saved] chapters saved, and [existing] chapter numbers
    found on disk at the end. *)
Definition summaryOutput (crawled saved existing : Z) : list Event :=
  [EvLog LCompleted; EvLog (LTotalCrawled crawled); EvLog (LChaptersSaved saved)]
  ++ (if 0 <? existing - saved
      then [EvLog (LChaptersSkipped (existing - saved))] else [])
  ++ [EvLog LDone].

(** Requests and waits of a [fetchPage] call whose first [n + 1] attempts
    fail, entered with [retryCount = rc]. *)
Definition retrySchedule (cr : Crawler) (u : string) (rc : Z) (n : nat)
    : list Event :=
  EvGet u ::
  flat_map (fun k => [EvDelay (cr_delay cr * (rc + Z.of_nat k)); EvGet u])
           (seq 1 n).

(** The state once [onError] has appended a line to [errors.log] of a
    story directory. *)
Definition withErrorLine (dir line : string) (s : St) : St :=
  let d := default empty_dir (fs s !! dir) in
  set_nwrite S
    (set_fs (insert dir
               {| info_json := info_json d; story_json := story_json d;
                  errors_log := errors_log d ++ [line];
                  chapters_dir := chapters_dir d |}) s).

(** The manifests that a run has written, oldest first. *)
Definition manifestsWritten (t : list Event) : list (list Meta) :=
  omap (fun e => match e with
                 | EvWrite _ (DManifest _ ms) None => Some ms
                 | _ => None
                 end) t.

Definition numbersOf (ms : list Meta) : list Z := omap meta_number ms.

(** A failed write of a chapter file or of the manifest; a request or a
    successful write of one. *)
Definition is_persist_failure (e : Event) : bool :=
  match e with
  | EvWrite _ (DChapter _ | DText _ | DManifest _ _) (Some _) => true
  | _ => false
  end.

Definition is_fetch_or_persist (e : Event) : bool :=
  match e with
  | EvGet _ => true
  | EvWrite _ (DChapter _ | DText _ | DManifest _ _) None => true
  | _ => false
  end.

(** The line about chapters found on disk is the only one that depends on
    [options.resume]; this erases the difference. *)
Definition forgetResumeHint (e : Event) : Event :=
  match e with
  | EvLog (LFoundUseResume n) => EvLog (LFoundWillSkip n)
  | _ => e
  end.

(** A computation whose failed writes all carry the message it throws,
    and that has none when it returns. *)
Definition no_failed_write (e : Event) : Prop :=
  match e with EvWrite _ _ (Some _) => False | _ => True end.

Definition failed_write_says (message : string) (e : Event) : Prop :=
  match e with EvWrite _ _ (Some m) => m = message | _ => True end.

Definition fails_loudly {A} (m : M A) : Prop :=
  forall s,
    match res_of (m s) with
    | Ret _ => Forall no_failed_write (trace_of (m s))
    | Throw message => Forall (failed_write_says message) (trace_of (m s))
    end.

(** Computations that do not throw. *)
Definition returns {A} (m : M A) : Prop :=
  forall s, exists a, res_of (m s) = Ret a.

(** Computations whose first effect is a given one. *)
Definition starts_with {A} (e : Event) (m : M A) : Prop :=
  forall s, exists t, trace_of (m s) = e :: t.

(** The path of [info.json]. *)
Definition infoPath (options : Options) (storyInfo : StoryInfo) : string :=
  path_join (path_join (opt_outputDir options)
                       (sanitizeFileName (si_slug storyInfo)))
            "info.json".

(** *** Readings of the specification *)

(** After a failed write of a chapter file or of the manifest nothing more
    is fetched or persisted. *)
Definition aborts_on_persist_failure (t : list Event) : Prop :=
  forall pre e post, t = pre ++ e :: post -> is_persist_failure e = true ->
    Forall (fun e' => is_fetch_or_persist e' = false) post.

(** The root page is requested once and [info.json] is written once. *)
Definition root_fetched_once_info_saved_once (u : string) (t : list Event)
    : Prop :=
  countEv (is_get u) t = 1%nat /\ countEv is_info_write t = 1%nat.

(** The failed count can be read off the printed summary. *)
Definition summary_reports_failed (read : list Event -> nat) (t : list Event)
    : Prop :=
  read (summaryLines t) = failedCount t.

(** The manifest order: numbered entries first and ascending, the others
    after them by [order || 0]. *)
Definition manifest_le (a b : Chapter) : Prop := compareChapters a b <= 0.

(** *** The merged listing and its positions *)

Definition indexed {A} (l : list A) : list (nat * A) :=
  zip (seq 0 (List.length l)) l.

Definition compareIndexed (a b : nat * ChapterRef) : Z :=
  compareRefs a.2 b.2.

(** The sort of [getAllChapters], on references tagged with their position
    in the merged listing. *)
Definition sortedListing (m : list ChapterRef) : list (nat * ChapterRef) :=
  Js.sort compareIndexed (indexed m).

(** Ascending numbers for two numbered references, merged order for a pair
    with a numberless one. *)
Definition listing_order (out : list (nat * ChapterRef)) : Prop :=
  forall (i j : nat) a b, (i < j)%nat -> out !! i = Some a -> out !! j = Some b ->
    match ref_number a.2, ref_number b.2 with
    | Some x, Some y => x <= y
    | _, _ => (a.1 < b.1)%nat
    end.

(** Two numbered references in ascending order, in merged order when the
    numbers are equal. *)
Definition numbered_order (a b : nat * ChapterRef) : Prop :=
  exists x y, ref_number a.2 = Some x /\ ref_number b.2 = Some y /\
              (x < y \/ (x = y /\ (a.1 < b.1)%nat)).

(** *** Relations between the states and effects of a computation *)

(** A computation that only talks to the network. *)
Definition net_step (s s' : St) (t : list Event) : Prop :=
  Forall (fun e => is_net_event e = true) t /\
  fs s' = fs s /\ nwrite s' = nwrite s /\ mainv s' = mainv s /\
  crawlv s' = crawlv s.

(** A computation whose effects are of a class [Q] and that counts each
    chapter it reports as saved. *)
Definition tracked (Q : Event -> bool) (s s' : St) (t : list Event) : Prop :=
  Forall (fun e => Q e = true) t /\
  savedCount (mainv s') =
    savedCount (mainv s) + Z.of_nat (countEv is_saved_line t).

Class Stepwise (R : St -> St -> list Event -> Prop) : Prop := {
  step_refl : forall s, R s s [];
  step_trans : forall s1 s2 s3 t1 t2,
    R s1 s2 t1 -> R s2 s3 t2 -> R s1 s3 (t1 ++ t2)
}.

Definition respects (R : St -> St -> list Event -> Prop) {A} (m : M A) : Prop :=
  forall s, R s (st_of (m s)) (trace_of (m s)).

(** Two outcomes that agree up to the line that depends on
    [options.resume]. *)
Definition same_run {A} (x y : Res A * St * list Event) : Prop :=
  res_of x = res_of y /\ st_of x = st_of y /\
  map forgetResumeHint (trace_of x) = map forgetResumeHint (trace_of y).

(** ** Sample sites *)

Definition anchorTo (href : string) : Anchor :=
  {| a_href := Some href; a_title := None; a_text := href |}.

(** A site whose pages answer with their own address as markup, whose
    listing pages link to [listing url], and whose story has [pages] listing
    pages; [net] and [disk] decide the failures. *)
Definition siteWorld (pages : string) (listing : string -> list string)
    (net : nat -> string -> Response) (disk : nat -> option string) : World :=
  {| http := net;
     disk_error := disk;
     now := fun _ => "2024-01-01T00:00:00.000Z";
     dom_h1 := fun _ => "Story";
     dom_title_story := fun _ => "";
     dom_total_page := fun _ => Some pages;
     dom_anchors := fun html => map anchorTo (listing html);
     dom_chapter_title_a := fun _ => "";
     dom_chapter_title := fun _ => "Chapter";
     dom_h2 := fun _ => "";
     dom_chapter_c_id := fun html => Some html;
     dom_chapter_c_class := fun _ => None;
     dom_body_text := fun c => c;
     dom_body_html := fun c => Some c |}.

Definition online : nat -> string -> Response := fun _ u => RespOk u.
Definition reliable : nat -> option string := fun _ => None.

Definition root : string := "https://truyenfull.vision/abc".

(** Three chapters; the server refuses chapter 2. *)
Definition site123 : World :=
  siteWorld "1"
    (fun _ => ["/abc/chuong-1/"; "/abc/chuong-2/"; "/abc/chuong-3/"])
    (fun _ u => if String.eqb u "https://truyenfull.vision/abc/chuong-2/"
                then RespStatus 503 else RespOk u)
    reliable.

(** Chapters 1 and 3 only, all served. *)
Definition site13 : World :=
  siteWorld "1" (fun _ => ["/abc/chuong-1/"; "/abc/chuong-3/"]) online reliable.

(** Two volumes whose first chapters are both numbered 1. *)
Definition siteVolumes : World :=
  siteWorld "1"
    (fun _ => ["/abc/quyen-1-chuong-1/"; "/abc/quyen-2-chuong-1/"])
    online reliable.

(** A chapter whose address holds no [chuong-<n>]. *)
Definition siteEpilogue : World :=
  siteWorld "1" (fun _ => ["/abc/chuong-1/"; "/abc/ngoai-truyen/"])
    online reliable.

(** Two chapters; the second write of the run, the file of chapter 1,
    fails. *)
Definition siteDiskFull : World :=
  siteWorld "1" (fun _ => ["/abc/chuong-1/"; "/abc/chuong-2/"]) online
    (fun n => if (n =? 1)%nat then Some "ENOSPC: no space left on device"
              else None).

(** Two listing pages: chapter 5 and a numberless link, then chapter 3. *)
Definition sitePages : World :=
  siteWorld "2"
    (fun html =>
       if String.eqb html "https://truyenfull.vision/abc#list-chapter"
       then ["/abc/chuong-5/"; "/abc/gioi-thieu/"]
       else ["/abc/chuong-3/"])
    online reliable.

(** One chapter, reached through an address with a query string. *)
Definition rootQuery : string := "https://truyenfull.vision/abc?ref=home".
Definition siteQuery : World :=
  siteWorld "1" (fun _ => ["/abc/chuong-1/"]) online reliable.

(** A disk that already holds chapter 1 of [root]. *)
Definition diskWithChapter1 : gmap string StoryDir :=
  fs (st_of (main siteQuery [root] (init_St ∅))).

(** The merged listing of [sitePages], before the sort. *)
Definition mergedPages : list ChapterRef :=
  let cr := crawlerOf defaultOptions in
  refsOfAnchors cr (dom_anchors sitePages (pageUrl root 1))
  ++ refsOfAnchors cr (dom_anchors sitePages (pageUrl root 2)).

(** The link to a chapter of [root], as the listing gives it. *)
Definition refTo (n : Z) : ChapterRef :=
  let href := "/abc/chuong-" +:+ Js.toString n +:+ "/" in
  {| ref_number := Some n; ref_title := href;
     ref_url := "https://truyenfull.vision" +:+ href; ref_order := n - 1 |}.

(** ** Numbers and characters of the source *)

(** [Number.MAX_SAFE_INTEGER]: up to it a number of the source is an exact
    integer, [toString] writes it in plain decimal and [parseInt] reads the
    digits back as the same number. *)
Definition MAX_SAFE_INTEGER : Z := 2 ^ 53 - 1.

(** A string of ASCII characters.  On such strings the white space of the
    model, [Js.is_space], is all the white space that the [\s] of the
    source knows. *)
Definition ascii_only (s : string) : Prop :=
  Forall (fun c => (nat_of_ascii c < 128)%nat) (Js.chars s).

(** ** The listing pages that [getAllChapters] reads *)

(** The markup of the listing pages read by the page loop from a state:
    one [fetchPage] per page, in the order of [pages], up to the first page
    that cannot be fetched.  (The wait between two pages leaves the state
    as it is.) *)
Fixpoint pagesRead (w : World) (cr : Crawler) (storyUrl : string)
    (pages : list Z) (s : St) : list string :=
  match pages with
  | [] => []
  | page :: rest =>
      match fetchPage w cr (pageUrl storyUrl page) s with
      | (Ret html, s1, _) => html :: pagesRead w cr storyUrl rest s1
      | (Throw _, _, _) => []
      end
  end.

(** The merged listing: the links of the pages read, page after page, the
    links of a page in the order of its markup. *)
Definition mergedListing (w : World) (cr : Crawler) (storyUrl : string)
    (pages : list Z) (s : St) : list ChapterRef :=
  flat_map (fun html => refsOfAnchors cr (dom_anchors w html))
           (pagesRead w cr storyUrl pages s).

(** ** The references that the chapter loop visits *)

(** The [[i/total] Crawling: title] lines of a run, one per reference that
    the chapter loop visits. *)
Definition crawlingLines (t : list Event) : list (Z * Z * string) :=
  omap (fun e => match e with
                 | EvLog (LCrawling i total title) => Some (i, total, title)
                 | _ => None
                 end) t.

(** The lines that the loop prints when it visits the references [todo],
    the first of them at index [i] of [total]. *)
Fixpoint linesFrom (total i : Z) (todo : list ChapterRef)
    : list (Z * Z * string) :=
  match todo with
  | [] => []
  | r :: rest => (i + 1, total, ref_title r) :: linesFrom total (i + 1) rest
  end.

Definition linesOf (todo : list ChapterRef) : list (Z * Z * string) :=
  linesFrom (Z.of_nat (List.length todo)) 0 todo.

(** The requests of a run are for addresses of a class [P]. *)
Definition requests_only (P : string -> Prop) (t : list Event) : Prop :=
  Forall (fun e => match e with EvGet u => P u | _ => True end) t.

(** A computation that prints no [Crawling] line and requests addresses of
    a class [P] only. *)
Definition fetches (P : string -> Prop) (s s' : St) (t : list Event) : Prop :=
  crawlingLines t = [] /\ requests_only P t.

(** ** index.js: [chapterExists] *)

(** [chapterExists(chapter, storySlug, outputDir, format)]: whether the
    file that [saveChapter] would write is there.  The test for the
    [chapters] directory comes before the file name is built. *)
Definition chapterExists (chapter : Chapter)
    (storySlug outputDir format : string) : M bool :=
  let sanitizedSlug := sanitizeFileName storySlug in
  let storyDir := path_join outputDir sanitizedSlug in
  s ← get_st;
  match fs s !! storyDir ≫= chapters_dir with
  | None => mret false
  | Some files =>
      match chapterFileName chapter format with
      | Throw message => throw message
      | Ret chapterFileName =>
          mret (bool_decide (is_Some (get_file chapterFileName files)))
      end
  end.

(** ** retry_failed.js *)

Module Retry.

(** [saveChapter(chapter, storySlug, outputDir)]: always a JSON file named
    after [chapter.number]; [null.toString()] raises a [TypeError]. *)
Definition saveChapter (w : World) (chapter : Chapter)
    (storySlug outputDir : string) : M string :=
  let sanitizedSlug := sanitizeFileName storySlug in
  let storyDir := path_join outputDir sanitizedSlug in
  let chaptersDir := path_join storyDir "chapters" in
  ensureChaptersDir storyDir;;
  match number chapter with
  | None => throw "Cannot read properties of null (reading 'toString')"
  | Some n =>
      let chapterFileName :=
        "chapter-" +:+ Js.padStart0 5 (Js.toString n) +:+ ".json" in
      let chapterPath := path_join chaptersDir chapterFileName in
      writeIn w storyDir chapterPath (DChapter chapter)
        (fun d =>
           files ← chapters_dir d;
           Some {| info_json := info_json d; story_json := story_json d;
                   errors_log := errors_log d;
                   chapters_dir :=
                     Some (put_file chapterFileName (FChapter chapter) files) |});;
      mret chapterPath
  end.

(** [(a, b) => a.number - b.number]: [null] counts as [0]. *)
Definition compareNumbers (a b : Meta) : Z :=
  default 0 (meta_number a) - default 0 (meta_number b).

(** The chapters of [newChapters] that the merge adds: those whose number
    is not among the numbers that [story.json] listed when it was read. *)
Definition addedChapters (chapters : list Meta) (newChapters : list Chapter)
    : list Meta :=
  map metadataOf
    (List.filter
       (fun chapter =>
          negb (bool_decide (number chapter ∈ map meta_number chapters)))
       newChapters).

(** [updateStoryJson(storySlug, newChapters, outputDir)]: [readJSON]
    raises when [story.json] is not there. *)
Definition updateStoryJson (w : World) (storySlug : string)
    (newChapters : list Chapter) (outputDir : string) : M unit :=
  let sanitizedSlug := sanitizeFileName storySlug in
  let storyDir := path_join outputDir sanitizedSlug in
  let storyJsonPath := path_join storyDir "story.json" in
  s ← get_st;
  match fs s !! storyDir ≫= story_json with
  | None =>
      throw ("ENOENT: no such file or directory, open '" +:+ storyJsonPath
             +:+ "'")
  | Some (storyData, chapters) =>
      let merged :=
        Js.sort compareNumbers (chapters ++ addedChapters chapters newChapters) in
      writeIn w storyDir storyJsonPath (DManifest storyData merged)
        (fun d => Some {| info_json := info_json d;
                          story_json := Some (storyData, merged);
                          errors_log := errors_log d;
                          chapters_dir := chapters_dir d |})
  end.

(** [constructChapterUrl(storyUrl, chapterNumber)] *)
Definition constructChapterUrl (storyUrl : string) (chapterNumber : Z) : string :=
  Js.strip_trailing_slash storyUrl +:+ "/chuong-" +:+ Js.toString chapterNumber
    +:+ "/".

End Retry.
(** ** More observations *)

(** The directory of a story once a file was put among its chapters. *)
Definition withChapterFile (name : string) (f : File) (d : StoryDir) : StoryDir :=
  {| info_json := info_json d; story_json := story_json d;
     errors_log := errors_log d;
     chapters_dir := Some (put_file name f (default [] (chapters_dir d))) |}.

(** The line of the branch of [onChapterCrawled] for a chapter that is
    already on disk. *)
Definition is_skip_line (e : Event) : bool :=
  match e with EvLog (LSkippedExisting _ _) => true | _ => false end.

(** A computation that does not take that branch: it prints no such line,
    and leaves [skippedCount] as it was or at zero. *)
Definition never_skips (s s' : St) (t : list Event) : Prop :=
  Forall (fun e => is_skip_line e = false) t /\
  (skippedCount (mainv s') = skippedCount (mainv s) \/
   skippedCount (mainv s') = 0).

(** A chapter file of a story directory, and the computations that
    remove none. *)
Definition has_chapter_file (disk : gmap string StoryDir) (dir name : string)
    : Prop :=
  exists d files,
    disk !! dir = Some d /\ chapters_dir d = Some files /\
    is_Some (get_file name files).

Definition keeps_files (s s' : St) (t : list Event) : Prop :=
  forall dir name,
    has_chapter_file (fs s) dir name -> has_chapter_file (fs s') dir name.


(** The value of the [#total-page] field of a page, as [getStoryInfo]
    reads it. *)
Definition totalPagesOf (w : World) (html : string) : option Z :=
  Js.parseInt (match dom_total_page w html with
               | Some v => Js.or_str v "1"
               | None => "1"
               end).

(** Two listing pages whose links all have a number: chapters 3 and 1,
    then chapter 2 and the first chapter of a second volume. *)
Definition siteTwoPages : World :=
  siteWorld "2"
    (fun html =>
       if String.eqb html "https://truyenfull.vision/abc#list-chapter"
       then ["/abc/chuong-3/"; "/abc/chuong-1/"]
       else ["/abc/chuong-2/"; "/abc/quyen-2-chuong-1/"])
    online reliable.

(** Three chapters; the server refuses chapter 2, and the fourth write of
    the run, the append to [errors.log], fails. *)
Definition siteLogFull : World :=
  siteWorld "1"
    (fun _ => ["/abc/chuong-1/"; "/abc/chuong-2/"; "/abc/chuong-3/"])
    (fun _ u => if String.eqb u "https://truyenfull.vision/abc/chuong-2/"
                then RespStatus 503 else RespOk u)
    (fun n => if (n =? 3)%nat then Some "ENOSPC: no space left on device"
              else None).

(** A chapter as [getChapterContent] builds it, for the samples. *)
Definition sampleChapter (n : Z) : Chapter :=
  {| number := Some n; title := "Chapter"; url := ref_url (refTo n);
     order := None; content := {| text := "text"; html := "<p>text</p>" |} |}.

Definition sampleInfo : StoryInfo :=
  {| si_title := "Story"; si_slug := "abc"; si_url := root;
     si_totalPages := Some 1 |}.

(** A state whose disk holds [info.json] of the sample story, and one whose
    disk also holds a manifest that lists chapters 1 and 3. *)
Definition stateWithInfo : St :=
  st_of (saveStoryInfo site13 sampleInfo "./output" (init_St ∅)).

Definition stateWithManifest : St :=
  st_of (updateStoryJson site13 sampleInfo [sampleChapter 3; sampleChapter 1]
           "./output" stateWithInfo).

(** * Properties *)

(** ** Running computations *)

Lemma bind_run {A B} (m : M A) (f : A -> M B) s :
  (m ≫= f) s =
  match m s with
  | (Ret a, s1, t1) => let '(r, s2, t2) := f a s1 in (r, s2, t1 ++ t2)
  | (Throw e, s1, t1) => (Throw e, s1, t1)
  end.
Proof. reflexivity. Qed.

Lemma try_run {A} (m : M A) (h : string -> M A) s :
  try_catch m h s =
  match m s with
  | (Throw e, s1, t1) => let '(r, s2, t2) := h e s1 in (r, s2, t1 ++ t2)
  | ok => ok
  end.
Proof. reflexivity. Qed.

Lemma countEv_app p t1 t2 :
  countEv p (t1 ++ t2) = (countEv p t1 + countEv p t2)%nat.
Proof. unfold countEv. by rewrite List.filter_app, length_app. Qed.

Lemma countEv_none p t :
  Forall (fun e => p e = false) t -> countEv p t = 0%nat.
Proof.
  unfold countEv. induction 1 as [|e t He _ IH]; [done|].
  cbn. by rewrite He.
Qed.

(** ** Stepwise relations *)

Section Stepwise.
Context (R : St -> St -> list Event -> Prop) `{!Stepwise R}.

Lemma respects_ret {A} (a : A) : respects R (mret a).
Proof. intros s. apply step_refl. Qed.

Lemma respects_throw {A} msg : respects R (@throw A msg).
Proof. intros s. apply step_refl. Qed.

Lemma respects_get : respects R get_st.
Proof. intros s. apply step_refl. Qed.

Lemma respects_bind {A B} (m : M A) (f : A -> M B) :
  respects R m -> (forall a, respects R (f a)) -> respects R (m ≫= f).
Proof.
  intros Hm Hf s. rewrite bind_run. specialize (Hm s).
  destruct (m s) as [[[a|e] s1] t1]; cbn in *; [|exact Hm].
  specialize (Hf a s1). destruct (f a s1) as [[r s2] t2]; cbn in *.
  eapply step_trans; eauto.
Qed.

Lemma respects_try {A} (m : M A) (h : string -> M A) :
  respects R m -> (forall e, respects R (h e)) -> respects R (try_catch m h).
Proof.
  intros Hm Hh s. rewrite try_run. specialize (Hm s).
  destruct (m s) as [[[a|e] s1] t1]; cbn in *; [exact Hm|].
  specialize (Hh e s1). destruct (h e s1) as [[r s2] t2]; cbn in *.
  eapply step_trans; eauto.
Qed.

Lemma respects_when b m : respects R m -> respects R (when b m).
Proof. destruct b; cbn; auto using respects_ret. Qed.
End Stepwise.

Lemma respects_weaken (R R' : St -> St -> list Event -> Prop) {A} (m : M A) :
  (forall s s' t, R s s' t -> R' s s' t) -> respects R m -> respects R' m.
Proof. intros H Hm s. apply H, Hm. Qed.

#[export] Instance net_step_stepwise : Stepwise net_step.
Proof.
  split.
  - intros s. by repeat split.
  - intros s1 s2 s3 t1 t2 (F1 & ? & ? & ? & ?) (F2 & ? & ? & ? & ?).
    split; [by apply Forall_app|]. repeat split; congruence.
Qed.

#[export] Instance tracked_stepwise Q : Stepwise (tracked Q).
Proof.
  split.
  - intros s. split; [constructor|]. cbn. lia.
  - intros s1 s2 s3 t1 t2 [F1 E1] [F2 E2].
    split; [by apply Forall_app|]. rewrite countEv_app. lia.
Qed.

Lemma tracked_weaken (Q Q' : Event -> bool) s s' t :
  (forall e, Q e = true -> Q' e = true) -> tracked Q s s' t -> tracked Q' s s' t.
Proof. intros H [F E]. split; [|done]. eapply Forall_impl; eauto. Qed.

Lemma net_tracked (Q : Event -> bool) s s' t :
  (forall e, is_net_event e = true -> Q e = true) ->
  net_step s s' t -> tracked Q s s' t.
Proof.
  intros HQ (F & _ & _ & Hm & _). split.
  - eapply Forall_impl; eauto.
  - rewrite Hm, countEv_none; [lia|].
    eapply Forall_impl; [exact F|]. by intros [].
Qed.

Create HintDb steps.

Ltac steps :=
  repeat first
    [ solve [eauto with steps]
    | apply respects_bind; [tc_solve| |intros ?]
    | apply respects_try; [tc_solve| |intros ?]
    | apply respects_when; [tc_solve|]
    | apply respects_ret; tc_solve
    | apply respects_throw; tc_solve
    | apply respects_get; tc_solve
    | match goal with
      | |- respects _ (match ?x with _ => _ end) => destruct x
      | |- respects _ (if ?x then _ else _) => destruct x
      | |- respects _ (let '(_, _) := ?x in _) => destruct x
      end ].

(** ** The network side touches nothing but the request counter *)

Section NetSteps.
Context (w : World) (cr : Crawler).

Lemma attempt_net u : respects net_step (attempt w u).
Proof. intros s. cbn. repeat split. by repeat constructor. Qed.

Lemma delay_net ms : respects net_step (delay ms).
Proof. intros s. cbn. repeat split. by repeat constructor. Qed.
Hint Resolve attempt_net delay_net : steps.

Lemma fetchPage_from_net u budget :
  forall rc, respects net_step (fetchPage_from w cr u budget rc).
Proof. induction budget; intros rc; cbn [fetchPage_from]; steps. Qed.
Hint Resolve fetchPage_from_net : steps.

Lemma fetchPage_net u : respects net_step (fetchPage w cr u).
Proof. unfold fetchPage. steps. Qed.
Hint Resolve fetchPage_net : steps.

Lemma getStoryInfo_net u : respects net_step (getStoryInfo w cr u).
Proof. unfold getStoryInfo. steps. Qed.

Lemma getChaptersFromPage_net u p :
  respects net_step (getChaptersFromPage w cr u p).
Proof. unfold getChaptersFromPage. steps. Qed.
Hint Resolve getStoryInfo_net getChaptersFromPage_net : steps.

Lemma pagesLoop_net u n pages :
  forall acc, respects net_step (pagesLoop w cr u n pages acc).
Proof. induction pages; intros acc; cbn [pagesLoop]; steps. Qed.
Hint Resolve pagesLoop_net : steps.

Lemma getAllChapters_net u : respects net_step (getAllChapters w cr u).
Proof. unfold getAllChapters. steps. Qed.

Lemma getChapterContent_net u : respects net_step (getChapterContent w cr u).
Proof. unfold getChapterContent. steps. Qed.
End NetSteps.

(** ** The chapter loop under the callbacks of [main] *)

Section CrawlSteps.
Context (w : World).

Lemma net_crawl {A} (m : M A) :
  respects net_step m -> respects (tracked is_crawl_event) m.
Proof. apply respects_weaken. intros s s' t. apply net_tracked. by intros []. Qed.

Lemma log_tracked (Q : Event -> bool) l :
  Q (EvLog l) = true -> is_saved_line (EvLog l) = false ->
  respects (tracked Q) (log l).
Proof.
  intros H H' s. split; [by repeat constructor|].
  unfold log, emit, countEv, trace_of, st_of. cbn [fst snd List.filter].
  rewrite H'. cbn. lia.
Qed.

Lemma log_saved_crawl n t (rest : M unit) :
  respects (tracked is_crawl_event) rest ->
  respects (tracked is_crawl_event)
    (modify (set_mainv (fun v =>
       {| savedCount := savedCount v + 1; skippedCount := skippedCount v;
          allCrawledChapters := allCrawledChapters v |}));;
     log (LSavedChapter n t);; rest).
Proof.
  intros Hrest s.
  specialize (Hrest (set_mainv (fun v =>
       {| savedCount := savedCount v + 1; skippedCount := skippedCount v;
          allCrawledChapters := allCrawledChapters v |}) s)).
  unfold mbind, M_bind, modify, log, emit, st_of, trace_of in *. cbn in *.
  destruct (rest _) as [[r s2] t2]. destruct Hrest as [F E]. cbn in *.
  split; [by constructor|]. rewrite E.
  unfold countEv. cbn. lia.
Qed.

Lemma modify_tracked Q f :
  (forall s, savedCount (mainv (f s)) = savedCount (mainv s)) ->
  respects (tracked Q) (modify f).
Proof. intros H s. split; cbn; [constructor|]. rewrite H. lia. Qed.

Lemma writeIn_tracked (Q : Event -> bool) dir path d update :
  (forall err, Q (EvWrite path d err) = true) ->
  respects (tracked Q) (writeIn w dir path d update).
Proof.
  intros H s. unfold writeIn.
  destruct (fs s !! dir ≫= update); [|apply step_refl].
  destruct (disk_error w (nwrite s)); split; cbn;
    try (repeat constructor; by apply H); unfold countEv; cbn; lia.
Qed.

Hint Resolve modify_tracked : steps.
Hint Extern 1 (respects (tracked _) (log _)) =>
  apply log_tracked; reflexivity : steps.
Hint Extern 1 (respects (tracked _) (writeIn _ _ _ _ _)) =>
  apply writeIn_tracked; intros ?; reflexivity : steps.
Hint Extern 1 (respects (tracked is_crawl_event) (getChapterContent _ _ _)) =>
  apply net_crawl, getChapterContent_net : steps.
Hint Extern 1 (respects (tracked is_crawl_event) (getAllChapters _ _ _)) =>
  apply net_crawl, getAllChapters_net : steps.
Hint Extern 1 (respects (tracked is_crawl_event) (delay _)) =>
  apply net_crawl, delay_net : steps.

Lemma saveChapter_crawl chapter slug outputDir format :
  respects (tracked is_crawl_event) (saveChapter w chapter slug outputDir format).
Proof. unfold saveChapter, ensureChaptersDir. steps. Qed.

Lemma updateStoryJson_crawl storyInfo all outputDir :
  respects (tracked is_crawl_event) (updateStoryJson w storyInfo all outputDir).
Proof. unfold updateStoryJson. steps. Qed.
Hint Resolve saveChapter_crawl updateStoryJson_crawl : steps.

Lemma pushCrawled_tracked Q c : respects (tracked Q) (pushCrawled c).
Proof. unfold pushCrawled. steps. Qed.
Hint Resolve pushCrawled_tracked : steps.

Lemma onChapterCrawled_crawl options storyInfo existing chapter :
  respects (tracked is_crawl_event)
    (onChapterCrawled_main w options storyInfo existing chapter).
Proof.
  unfold onChapterCrawled_main.
  destruct (negb (opt_force options) && has existing (number chapter)).
  - steps.
  - apply respects_try; [tc_solve| |intros ?; steps].
    apply respects_bind; [tc_solve|steps|intros _].
    apply log_saved_crawl. steps.
Qed.

Lemma onError_crawl options storyInfo errorInfo :
  respects (tracked is_crawl_event) (onError_main w options storyInfo errorInfo).
Proof. unfold onError_main, ensureStoryDir. steps. Qed.

Lemma onProgress_crawl a b c :
  respects (tracked is_crawl_event) (onProgress_main a b c).
Proof. unfold onProgress_main. steps. Qed.
Hint Resolve onChapterCrawled_crawl onError_crawl onProgress_crawl : steps.

Lemma crawlLoop_crawl cr options storyInfo existing total todo : forall i,
  respects (tracked is_crawl_event)
    (crawlLoop w cr (crawlOptionsOf w options storyInfo existing) total i todo).
Proof.
  induction todo as [|r rest IH]; intros i; cbn [crawlLoop]; [steps|].
  unfold call. cbn [crawlOptionsOf onChapterCrawled onError onProgress].
  steps.
Qed.
Hint Resolve crawlLoop_crawl : steps.

Lemma crawlStory_crawl cr storyUrl options storyInfo existing :
  respects (tracked is_crawl_event)
    (crawlStory w cr storyUrl (crawlOptionsOf w options storyInfo existing)).
Proof. unfold crawlStory. steps. Qed.

(** Looking for chapters on disk only prints. *)
Lemma loadChapterFiles_setup options files chapterFiles :
  respects (tracked is_setup_event) (loadChapterFiles options files chapterFiles).
Proof. induction chapterFiles; cbn [loadChapterFiles]; steps. Qed.
Hint Resolve loadChapterFiles_setup : steps.

Lemma findExisting_setup options storyInfo :
  respects (tracked is_setup_event) (findExisting options storyInfo).
Proof. unfold findExisting, getExistingChapters, loadExisting. steps. Qed.
End CrawlSteps.

(** ** The string layer on examples *)

Example match_chuong_790 :
  chapterNumberOf "https://truyenfull.vision/pham-nhan-tu-tien/chuong-790/"
  = Some 790.
Proof. reflexivity. Qed.

Example match_first_chuong :
  chapterNumberOf "/abc/quyen-2-chuong-1/" = Some 1 /\
  chapterNumberOf "/abc/ngoai-truyen/" = None.
Proof. by split. Qed.

Example parseInt_examples :
  Js.parseInt "00042" = Some 42 /\ Js.parseInt " -7x" = Some (-7) /\
  Js.parseInt "abc" = None.
Proof. by repeat split. Qed.

Example padStart_examples :
  Js.padStart0 5 (Js.toString 7) = "00007" /\
  Js.padStart0 5 (Js.toString 123456) = "123456".
Proof. by split. Qed.

Example sanitizeFileName_examples :
  sanitizeFileName "pham-nhan-tu-tien" = "pham-nhan-tu-tien" /\
  sanitizeFileName "a  b__c?d" = "a_b_c_d" /\
  sanitizeFileName "https:" = "https_".
Proof. by repeat split. Qed.

Example slugOf_examples :
  slugOf (TruyenFullCrawler None None None)
    "https://truyenfull.vision/pham-nhan-tu-tien/" = "pham-nhan-tu-tien" /\
  slugOf (TruyenFullCrawler None None None)
    "https://www.truyenfull.vision/abc" = "https:".
Proof. by split. Qed.

(** ** The page fetcher *)

Lemma set_nreq_S_add s k :
  set_nreq (fun n => (n + k)%nat) (set_nreq S s) = set_nreq (fun n => (n + S k)%nat) s.
Proof. destruct s; unfold set_nreq; cbn. f_equal. lia. Qed.

Lemma set_nreq_one s : set_nreq S s = set_nreq (fun n => (n + 1)%nat) s.
Proof. destruct s; unfold set_nreq; cbn. f_equal. lia. Qed.

Lemma retrySchedule_S cr u rc n :
  retrySchedule cr u rc (S n) =
  EvGet u :: EvDelay (cr_delay cr * (rc + 1)) :: retrySchedule cr u (rc + 1) n.
Proof.
  unfold retrySchedule. cbn [seq flat_map app]. do 3 f_equal.
  rewrite <- seq_shift, flat_map_concat_map, map_map, <- flat_map_concat_map.
  apply flat_map_ext. intros k. do 3 f_equal. lia.
Qed.

(** The equation of [fetchPage]: one attempt, then a retry while any is
    left, or the final error. *)
Lemma fetchPage_from_unfold w cr u budget rc s :
  fetchPage_from w cr u budget rc s =
  match outcomeOf (http w (nreq s) u) with
  | inl html => (Ret html, set_nreq S s, [EvGet u])
  | inr message =>
      match budget with
      | S budget' =>
          let '(r, s', t) :=
            fetchPage_from w cr u budget' (rc + 1) (set_nreq S s) in
          (r, s', EvGet u :: EvDelay (cr_delay cr * (rc + 1)) :: t)
      | O => (Throw ("Failed to fetch " +:+ u +:+ ": " +:+ message),
              set_nreq S s, [EvGet u])
      end
  end.
Proof.
  destruct budget; cbn [fetchPage_from]; rewrite bind_run; unfold attempt;
    destruct (outcomeOf _); try reflexivity.
  rewrite bind_run. unfold delay, emit.
  destruct (fetchPage_from _ _ _ _ _ _) as [[r s'] t]. reflexivity.
Qed.

(** The same equation with the test of the source: [fetchPage(url,
    retryCount)] retries while [retryCount < this.retries]. *)
Lemma fetchPage_source_equation w cr u (retryCount : nat) s :
  (retryCount <= cr_retries cr)%nat ->
  fetchPage_from w cr u (cr_retries cr - retryCount) (Z.of_nat retryCount) s =
  match outcomeOf (http w (nreq s) u) with
  | inl html => (Ret html, set_nreq S s, [EvGet u])
  | inr message =>
      if (retryCount <? cr_retries cr)%nat then
        let '(r, s', t) :=
          fetchPage_from w cr u (cr_retries cr - S retryCount)
            (Z.of_nat (S retryCount)) (set_nreq S s) in
        (r, s',
         EvGet u :: EvDelay (cr_delay cr * (Z.of_nat retryCount + 1)) :: t)
      else (Throw ("Failed to fetch " +:+ u +:+ ": " +:+ message),
            set_nreq S s, [EvGet u])
  end.
Proof.
  intros Hle. rewrite fetchPage_from_unfold.
  destruct (outcomeOf _) as [html|message]; [done|].
  destruct (Nat.ltb_spec retryCount (cr_retries cr)) as [Hlt|Hge].
  - replace (cr_retries cr - retryCount)%nat
      with (S (cr_retries cr - S retryCount)) by lia.
    by rewrite Nat2Z.inj_succ.
  - by replace (cr_retries cr - retryCount)%nat with 0%nat by lia.
Qed.

Lemma fetchPage_from_exhausts w cr u (msg : nat -> string) budget : forall rc s,
  (forall k, (k <= budget)%nat ->
     outcomeOf (http w (nreq s + k) u) = inr (msg k)) ->
  fetchPage_from w cr u budget rc s =
    (Throw ("Failed to fetch " +:+ u +:+ ": " +:+ msg budget),
     set_nreq (fun n => (n + S budget)%nat) s,
     retrySchedule cr u rc budget).
Proof.
  revert msg. induction budget as [|b IH]; intros msg rc s H;
    rewrite fetchPage_from_unfold;
    pose proof (H 0%nat ltac:(lia)) as H0; rewrite Nat.add_0_r in H0; rewrite H0.
  - by rewrite set_nreq_one.
  - rewrite (IH (fun k => msg (S k))).
    + by rewrite set_nreq_S_add, retrySchedule_S.
    + intros k Hk. cbn. rewrite <- (H (S k)) by lia. do 2 f_equal. lia.
Qed.

(** A page that answers at last is returned, after the same waits. *)
Lemma fetchPage_from_succeeds w cr u body (j : nat) : forall budget rc s,
  (j <= budget)%nat ->
  (forall k, (k < j)%nat ->
     exists m, outcomeOf (http w (nreq s + k) u) = inr m) ->
  outcomeOf (http w (nreq s + j) u) = inl body ->
  fetchPage_from w cr u budget rc s =
    (Ret body, set_nreq (fun n => (n + S j)%nat) s, retrySchedule cr u rc j).
Proof.
  induction j as [|j IH]; intros budget rc s Hj Hfail Hok;
    rewrite fetchPage_from_unfold.
  - rewrite Nat.add_0_r in Hok. rewrite Hok. by rewrite set_nreq_one.
  - destruct (Hfail 0%nat ltac:(lia)) as [m Hm].
    rewrite Nat.add_0_r in Hm. rewrite Hm.
    destruct budget as [|b]; [lia|].
    rewrite (IH b).
    + by rewrite set_nreq_S_add, retrySchedule_S.
    + lia.
    + intros k Hk. destruct (Hfail (S k) ltac:(lia)) as [m' Hm']. exists m'.
      rewrite <- Hm'. cbn. do 2 f_equal. lia.
    + rewrite <- Hok. cbn. do 2 f_equal. lia.
Qed.

(** C4.  When every attempt at a URL fails, [fetchPage] makes
    [this.retries + 1] requests, waits [this.delay * k] before the [k]-th
    retry, and then throws an error whose message holds the URL and the
    message of the last failure. *)
Theorem fetchPage_retries_then_throws w cr u (msg : nat -> string) s :
  (forall k, (k <= cr_retries cr)%nat ->
     outcomeOf (http w (nreq s + k) u) = inr (msg k)) ->
  fetchPage w cr u s =
    (Throw ("Failed to fetch " +:+ u +:+ ": " +:+ msg (cr_retries cr)),
     set_nreq (fun n => (n + S (cr_retries cr))%nat) s,
     EvGet u ::
     flat_map (fun k => [EvDelay (cr_delay cr * (0 + Z.of_nat k)); EvGet u])
              (seq 1 (cr_retries cr))).
Proof. intros H. unfold fetchPage. by apply fetchPage_from_exhausts. Qed.

Lemma getChapterContent_exhausts w cr u (msg : nat -> string) s :
  (forall k, (k <= cr_retries cr)%nat ->
     outcomeOf (http w (nreq s + k) u) = inr (msg k)) ->
  getChapterContent w cr u s =
    (Throw ("Failed to get chapter content from " +:+ u +:+ ": "
            +:+ "Failed to fetch " +:+ u +:+ ": " +:+ msg (cr_retries cr)),
     set_nreq (fun n => (n + S (cr_retries cr))%nat) s,
     retrySchedule cr u 0 (cr_retries cr)).
Proof.
  intros H. unfold getChapterContent, fetchPage.
  rewrite try_run, bind_run, (fetchPage_from_exhausts _ _ _ msg) by done.
  cbn. by rewrite app_nil_r.
Qed.

(** ** The error sink *)

Lemma onError_main_run w options storyInfo errorInfo s :
  disk_error w (nwrite s) = None ->
  let dir := path_join (opt_outputDir options) (si_slug storyInfo) in
  onError_main w options storyInfo errorInfo s =
    (Ret tt, withErrorLine dir (logEntry errorInfo) s,
     [EvWrite (path_join dir "errors.log") (DLine (logEntry errorInfo)) None]).
Proof.
  intros Hdisk dir. unfold onError_main, ensureStoryDir, writeIn, withErrorLine.
  fold dir. rewrite bind_run. cbn.
  destruct (fs s !! dir) as [d|] eqn:E; cbn.
  - rewrite E. cbn. rewrite Hdisk.
    unfold set_nwrite, set_fs. cbn. by rewrite E.
  - rewrite lookup_insert_eq. cbn. rewrite Hdisk.
    unfold set_nwrite, set_fs. cbn. by rewrite E, insert_insert_eq.
Qed.

Lemma withErrorLine_log dir line s :
  errors_log <$> (fs (withErrorLine dir line s) !! dir)
  = Some (errors_log (default empty_dir (fs s !! dir)) ++ [line]).
Proof. unfold withErrorLine. cbn. by rewrite lookup_insert_eq. Qed.

(** When the fetch of a reference exhausts its retries and the append to
    [errors.log] does not itself raise, the loop prints the failure,
    [onError] appends the line [[timestamp] Chapter <number or N/A> -
    <title>: <message>] to the error log, and the loop goes on with the
    next reference: the run of [r :: rest] is the run of [rest] from
    there. *)
Lemma crawlLoop_records_exhaustion_and_continues
    w cr options storyInfo existing total i r rest s (msg : nat -> string) :
  let o := crawlOptionsOf w options storyInfo existing in
  let u := ref_url r in
  let s1 := set_nreq (fun n => (n + S (cr_retries cr))%nat) s in
  let message :=
    "Failed to get chapter content from " +:+ u +:+ ": "
    +:+ "Failed to fetch " +:+ u +:+ ": " +:+ msg (cr_retries cr) in
  let record :=
    {| err_chapter := r; err_error := message;
       err_timestamp := now w (nreq s1) |} in
  let dir := path_join (opt_outputDir options) (si_slug storyInfo) in
  (forall k, (k <= cr_retries cr)%nat ->
     outcomeOf (http w (nreq s + k) u) = inr (msg k)) ->
  disk_error w (nwrite s) = None ->
  logEntry record =
    "[" +:+ now w (nreq s1) +:+ "] Chapter "
    +:+ (match ref_number r with
         | Some n => if n =? 0 then "N/A" else Js.toString n
         | None => "N/A"
         end)
    +:+ " - " +:+ ref_title r +:+ ": " +:+ message +:+ newline /\
  errors_log <$> (fs (withErrorLine dir (logEntry record) s1) !! dir)
    = Some (errors_log (default empty_dir (fs s !! dir)) ++ [logEntry record]) /\
  crawlLoop w cr o total i (r :: rest) s =
    let '(res, s3, t3) :=
      crawlLoop w cr o total (i + 1) rest
        (withErrorLine dir (logEntry record) s1) in
    (res, s3,
     EvLog (LCrawling (i + 1) total (ref_title r))
     :: retrySchedule cr u 0 (cr_retries cr)
     ++ EvLog (LErrorCrawling message)
     :: EvWrite (path_join dir "errors.log") (DLine (logEntry record)) None
     :: t3).
Proof.
  intros o u s1 message record dir Hfail Hdisk. split.
  { unfold logEntry, record. cbn [err_chapter err_error err_timestamp].
    destruct (ref_number r) as [n|]; [|done]. cbn [Js.truthy Js.or_num].
    by destruct (n =? 0). }
  split.
  { by rewrite withErrorLine_log. }
  cbn [crawlLoop]. rewrite bind_run. cbn [log emit].
  rewrite bind_run, try_run, bind_run.
  fold u. rewrite (getChapterContent_exhausts _ _ _ msg) by done.
  fold s1 message. rewrite !bind_run. cbn [log emit get_st].
  unfold call. cbn [o crawlOptionsOf onError].
  rewrite bind_run. unfold get_st at 1.
  rewrite onError_main_run by done. fold dir record.
  destruct (crawlLoop _ _ _ _ _ _ _) as [[res s3] t3].
  cbn. by rewrite <- !app_assoc.
Qed.

(** ** Persistence failures *)

Lemma no_failed_write_says message e :
  no_failed_write e -> failed_write_says message e.
Proof. by destruct e as [| | ? ? []|]. Qed.

Section FailsLoudly.
Context (w : World).

Lemma loud_ret {A} (a : A) : fails_loudly (mret a).
Proof. intros s. cbn. constructor. Qed.

Lemma loud_throw {A} message : fails_loudly (@throw A message).
Proof. intros s. cbn. constructor. Qed.

Lemma loud_modify f : fails_loudly (modify f).
Proof. intros s. cbn. constructor. Qed.

Lemma loud_log l : fails_loudly (log l).
Proof. intros s. cbn. by repeat constructor. Qed.

Lemma loud_get : fails_loudly get_st.
Proof. intros s. cbn. constructor. Qed.

Lemma loud_bind {A B} (m : M A) (f : A -> M B) :
  fails_loudly m -> (forall a, fails_loudly (f a)) -> fails_loudly (m ≫= f).
Proof.
  intros Hm Hf s. rewrite bind_run. specialize (Hm s).
  destruct (m s) as [[[a|e] s1] t1]; cbn in *; [|exact Hm].
  specialize (Hf a s1). destruct (f a s1) as [[[b|e] s2] t2]; cbn in *.
  - by apply Forall_app.
  - apply Forall_app. split; [|done].
    eapply Forall_impl; [exact Hm|]. apply no_failed_write_says.
Qed.

Lemma loud_writeIn dir path d update :
  fails_loudly (writeIn w dir path d update).
Proof.
  intros s. unfold writeIn.
  destruct (fs s !! dir ≫= update); [|cbn; constructor].
  destruct (disk_error w (nwrite s)); cbn; by repeat constructor.
Qed.

Lemma loud_saveChapter chapter slug outputDir format :
  fails_loudly (saveChapter w chapter slug outputDir format).
Proof.
  unfold saveChapter, ensureChaptersDir.
  apply loud_bind; [apply loud_modify|intros _].
  destruct (chapterFileName chapter format); [|apply loud_throw].
  apply loud_bind; [|intros _; apply loud_ret].
  destruct (String.eqb format "json"); apply loud_writeIn.
Qed.

Lemma loud_updateStoryJson storyInfo all outputDir :
  fails_loudly (updateStoryJson w storyInfo all outputDir).
Proof. apply loud_writeIn. Qed.

(** In the saving branch [onChapterCrawled] never throws, and each write
    that failed is reported by its [Error saving chapter] line. *)
Lemma onChapterCrawled_catches options storyInfo existing chapter s :
  negb (opt_force options) && has existing (number chapter) = false ->
  exists s' t,
    onChapterCrawled_main w options storyInfo existing chapter s = (Ret tt, s', t) /\
    forall path d message,
      EvWrite path d (Some message) ∈ t -> EvLog (LErrorSaving message) ∈ t.
Proof.
  intros Hsave. unfold onChapterCrawled_main. rewrite Hsave, try_run.
  match goal with |- context [match ?body s with _ => _ end] =>
    assert (Hloud : fails_loudly body) end.
  { repeat first [apply loud_saveChapter | apply loud_updateStoryJson
                 | apply loud_modify | apply loud_log | apply loud_get
                 | apply loud_bind; [|intros ?] ]. }
  specialize (Hloud s).
  match goal with |- context [match ?body s with _ => _ end] =>
    destruct (body s) as [[[[]|message] s1] t1] end; cbn in *.
  - exists s1, t1. split; [done|]. intros path d m Hin.
    rewrite Forall_forall in Hloud. by destruct (Hloud _ Hin).
  - exists s1, (t1 ++ [EvLog (LErrorSaving message)]). split; [done|].
    intros path d m Hin. apply elem_of_app in Hin as [Hin|Hin].
    + rewrite Forall_forall in Hloud. specialize (Hloud _ Hin). cbn in Hloud.
      subst m. apply elem_of_app. right. by constructor.
    + apply list_elem_of_singleton in Hin. discriminate.
Qed.
End FailsLoudly.

(** C3 (amended).  When [onChapterCrawled] saves a fetched chapter (force
    mode, or its number is not in the resume set), an error raised by the
    write of the chapter file or by the rewrite of the manifest is caught
    and printed by [onChapterCrawled]; it does not leave the loop, which goes
    on with the next reference. *)
Theorem crawlLoop_survives_persist_failure
    w cr options storyInfo existing total i r rest s chapter s1 t1 :
  let o := crawlOptionsOf w options storyInfo existing in
  getChapterContent w cr (ref_url r) s = (Ret chapter, s1, t1) ->
  negb (opt_force options) && has existing (number chapter) = false ->
  exists s2 t2,
    crawlLoop w cr o total i (r :: rest) s =
      (let '(res, s3, t3) := crawlLoop w cr o total (i + 1) rest s2 in
       (res, s3,
        EvLog (LCrawling (i + 1) total (ref_title r)) :: t1 ++ t2 ++ t3)) /\
    forall path d message,
      EvWrite path d (Some message) ∈ t2 -> EvLog (LErrorSaving message) ∈ t2.
Proof.
  intros o Hfetch Hsave.
  destruct (onChapterCrawled_catches w options storyInfo existing chapter
              (set_crawlv (fun v =>
                 {| crawledChapters := crawledChapters v ++ [chapter];
                    crawledCount := crawledCount v + 1 |}) s1) Hsave)
    as (s' & t & Hrun & Hlog).
  cbn [crawlLoop]. rewrite bind_run. cbn [log emit].
  rewrite bind_run, try_run, bind_run, Hfetch.
  rewrite bind_run. cbn [modify]. rewrite bind_run.
  unfold call. cbn [o crawlOptionsOf onChapterCrawled onProgress]. rewrite Hrun.
  rewrite bind_run. unfold get_st at 1. rewrite bind_run.
  unfold onProgress_main. cbn [log emit].
  destruct (i <? total - 1); cbn [when delay emit M_ret mret].
  - exists s', (t ++ [EvLog (LProgress (crawledCount (crawlv s')) total (title chapter));
                      EvDelay (cr_delay cr)]).
    split.
    + destruct (crawlLoop _ _ _ _ _ _ _) as [[res s3] t3]. cbn.
      by rewrite <- !app_assoc.
    + intros path d m Hin. apply elem_of_app in Hin as [Hin|Hin].
      * apply elem_of_app. left. eauto.
      * repeat (apply elem_of_cons in Hin as [Hin|Hin]; [discriminate|]).
        by apply elem_of_nil in Hin.
  - exists s', (t ++ [EvLog (LProgress (crawledCount (crawlv s')) total (title chapter))]).
    split.
    + destruct (crawlLoop _ _ _ _ _ _ _) as [[res s3] t3]. cbn.
      by rewrite <- !app_assoc.
    + intros path d m Hin. apply elem_of_app in Hin as [Hin|Hin].
      * apply elem_of_app. left. eauto.
      * repeat (apply elem_of_cons in Hin as [Hin|Hin]; [discriminate|]).
        by apply elem_of_nil in Hin.
Qed.

(** ** The shape of a run of [main] *)

Lemma returns_bind {A B} (m : M A) (f : A -> M B) :
  returns m -> (forall a, returns (f a)) -> returns (m ≫= f).
Proof.
  intros Hm Hf s. rewrite bind_run. destruct (Hm s) as [a Ha].
  destruct (m s) as [[r s1] t1]. cbn in Ha. subst r.
  destruct (Hf a s1) as [b Hb]. destruct (f a s1) as [[r s2] t2].
  cbn in *. eauto.
Qed.

Lemma returns_ret {A} (a : A) : returns (mret a).
Proof. intros s. by exists a. Qed.

Lemma returns_log l : returns (log l).
Proof. intros s. by exists tt. Qed.

Lemma returns_modify f : returns (modify f).
Proof. intros s. by exists tt. Qed.

Lemma returns_get : returns get_st.
Proof. intros s. by exists s. Qed.

Lemma returns_when b m : returns m -> returns (when b m).
Proof. destruct b; cbn; auto using returns_ret. Qed.

Ltac returns_tac :=
  repeat first
    [ apply returns_ret | apply returns_log | apply returns_get
    | apply returns_modify
    | apply returns_when
    | apply returns_bind; [|intros ?]
    | match goal with
      | |- returns (match ?x with _ => _ end) => destruct x
      | |- returns (if ?x then _ else _) => destruct x
      end ].

Lemma loadChapterFiles_returns options files chapterFiles :
  returns (loadChapterFiles options files chapterFiles).
Proof.
  induction chapterFiles; cbn [loadChapterFiles]; [apply returns_ret|].
  apply returns_bind; [|by intros _].
  unfold pushCrawled. returns_tac.
Qed.

Lemma findExisting_returns options storyInfo :
  returns (findExisting options storyInfo).
Proof.
  unfold findExisting, getExistingChapters, loadExisting.
  destruct (negb (opt_force options)); returns_tac.
  apply loadChapterFiles_returns.
Qed.

Lemma starts_with_bind {A B} e (m : M A) (f : A -> M B) :
  starts_with e m -> starts_with e (m ≫= f).
Proof.
  intros Hm s. rewrite bind_run. destruct (Hm s) as [t Ht].
  destruct (m s) as [[[a|msg] s1] t1]; cbn in *; subst t1; [|eauto].
  destruct (f a s1) as [[r s2] t2]. cbn. eauto.
Qed.

Lemma starts_with_try {A} e (m : M A) h :
  starts_with e m -> starts_with e (try_catch m h).
Proof.
  intros Hm s. rewrite try_run. destruct (Hm s) as [t Ht].
  destruct (m s) as [[[a|msg] s1] t1]; cbn in *; subst t1; [eauto|].
  destruct (h msg s1) as [[r s2] t2]. cbn. eauto.
Qed.

Lemma getStoryInfo_starts w cr u : starts_with (EvGet u) (getStoryInfo w cr u).
Proof.
  unfold getStoryInfo, fetchPage. apply starts_with_try, starts_with_bind.
  destruct (cr_retries cr); cbn [fetchPage_from]; apply starts_with_bind;
    intros s; by eexists.
Qed.

Lemma crawlStory_starts w cr u o : starts_with (EvGet u) (crawlStory w cr u o).
Proof.
  unfold crawlStory, getAllChapters.
  apply starts_with_try, starts_with_bind, starts_with_try, starts_with_bind.
  apply getStoryInfo_starts.
Qed.

(** [saveStoryInfo] attempts one write, of [info.json]. *)
Lemma saveStoryInfo_run w options storyInfo s :
  exists r s' err,
    saveStoryInfo w storyInfo (opt_outputDir options) s =
      (r, s', [EvWrite (infoPath options storyInfo) (DInfo storyInfo) err]) /\
    (err = None -> r = Ret tt) /\ (err <> None -> exists msg, r = Throw msg).
Proof.
  unfold saveStoryInfo, ensureStoryDir, writeIn, infoPath.
  rewrite bind_run. cbn [modify].
  set (dir := path_join _ _).
  assert (is_Some (fs (set_fs (fun m => match m !! dir with
                                        | Some _ => m
                                        | None => <[dir:=empty_dir]> m
                                        end) s) !! dir)) as [d Hd].
  { cbn. destruct (fs s !! dir) eqn:E; [by rewrite E|]. by rewrite lookup_insert_eq. }
  rewrite Hd. cbn.
  destruct (disk_error w _) as [msg|]; do 3 eexists.
  - split; [reflexivity|]. split; [intros H; discriminate H|]. intros _. by exists msg.
  - split; [reflexivity|]. split; [done|]. by intros [].
Qed.

Lemma summary_run options storyInfo chapters s :
  summary options storyInfo chapters s =
    (Ret tt, s,
     summaryOutput (Z.of_nat (List.length chapters)) (savedCount (mainv s))
       (Z.of_nat (size (existingOn (fs s) (si_slug storyInfo)
                          (opt_outputDir options) (opt_format options))))).
Proof.
  unfold summary, summaryOutput, getExistingChapters.
  unfold mbind, M_bind, log, emit, get_st, mret, M_ret.
  by destruct (0 <? _).
Qed.

Lemma crawlStory_result w cr u o s info chapters s' t :
  crawlStory w cr u o s = (Ret (info, chapters), s', t) ->
  chapters = crawledChapters (crawlv s').
Proof.
  unfold crawlStory, try_catch, mbind, M_bind, modify, get_st, mret, M_ret, throw.
  intros H. repeat case_match; by simplify_eq.
Qed.

(** What [main] does after [info.json]: the lines about the chapters
    found, the effects of [crawlStory], and the summary when [crawlStory]
    returns. *)
Lemma crawlAndReport_run w u options storyInfo s :
  exists s3 s4 s5 t4 t5 r,
    tracked is_setup_event s3 s4 t4 /\ savedCount (mainv s3) = 0 /\
    tracked is_crawl_event s4 s5 t5 /\
    (exists t5', t5 = EvGet u :: t5') /\
    crawlAndReport w u options storyInfo s =
      (r, s5,
       t4 ++ t5 ++
       match r with
       | Ret _ =>
           summaryOutput (Z.of_nat (List.length (crawledChapters (crawlv s5))))
             (savedCount (mainv s5))
             (Z.of_nat (size (existingOn (fs s5) (si_slug storyInfo)
                                (opt_outputDir options) (opt_format options))))
       | Throw _ => []
       end).
Proof.
  unfold crawlAndReport. rewrite bind_run. cbn [modify].
  set (s3 := set_mainv _ s). rewrite bind_run.
  pose proof (findExisting_setup options storyInfo s3) as H4.
  destruct (findExisting_returns options storyInfo s3) as [existing Hex].
  destruct (findExisting options storyInfo s3) as [[r4 s4] t4].
  cbn in Hex, H4. subst r4. rewrite bind_run.
  pose proof (crawlStory_crawl w (crawlerOf options) u options storyInfo existing s4) as H5.
  destruct (crawlStory_starts w (crawlerOf options) u
              (crawlOptionsOf w options storyInfo existing) s4) as [t5' Ht5].
  destruct (crawlStory w _ u _ s4) as [[[[si chapters]|e] s5] t5] eqn:Hrun;
    cbn in H5, Ht5.
  - rewrite summary_run. apply crawlStory_result in Hrun. subst chapters.
    exists s3, s4, s5, t4, t5, (Ret tt). cbn. by eauto 10.
  - exists s3, s4, s5, t4, t5, (Throw e). cbn. rewrite !app_nil_r. by eauto 10.
Qed.

Ltac by_event_cases :=
  let e := fresh "e" in
  intros e; destruct e as [| | ? [] ?|[]]; cbn; congruence.

Lemma tracked_none (Q p : Event -> bool) s s' t :
  (forall e, Q e = true -> p e = false) -> tracked Q s s' t -> countEv p t = 0%nat.
Proof.
  intros H [F _]. apply countEv_none. eapply Forall_impl; eauto.
Qed.

(** C9 (amended).  [main] requests the story root page through
    [getStoryInfo]; when that succeeds the very next effect is the write of
    [info.json], and no later effect of the run writes it again; when that
    write succeeds, [crawlStory] requests the root page a second time (its
    own [getStoryInfo]), after nothing but console lines. *)
Theorem storyInfo_persisted_once_root_fetched_again w u options s :
  match getStoryInfo w (crawlerOf options) u s with
  | (Throw _, _, t1) => trace_of (mainBody w u options s) = t1
  | (Ret storyInfo, _, t1) =>
      exists t1' err rest,
        t1 = EvGet u :: t1' /\
        trace_of (mainBody w u options s) =
          t1 ++ EvWrite (infoPath options storyInfo) (DInfo storyInfo) err :: rest /\
        countEv is_info_write rest = 0%nat /\
        (err <> None -> rest = []) /\
        (err = None ->
         exists logs rest',
           Forall (fun e => is_log e = true) logs /\
           rest = logs ++ EvGet u :: rest')
  end.
Proof.
  unfold mainBody. rewrite bind_run.
  destruct (getStoryInfo_starts w (crawlerOf options) u s) as [t1' Ht1].
  destruct (getStoryInfo w (crawlerOf options) u s) as [[[storyInfo|e] s1] t1];
    cbn in Ht1; [|done].
  exists t1'.
  destruct (saveStoryInfo_run w options storyInfo s1) as (r2 & s2 & err & Hsave & Hok & Hko).
  rewrite bind_run, Hsave.
  destruct err as [msg|].
  - destruct Hko as [e ->]; [done|]. exists (Some msg), []. cbn. repeat split; done.
  - rewrite Hok by done.
    destruct (crawlAndReport_run w u options storyInfo s2)
      as (s3 & s4 & s5 & t4 & t5 & r & H4 & _ & H5 & [t5' Ht5] & ->).
    exists None. eexists. split; [done|]. split; [reflexivity|].
    split; [|split; [done|]].
    + rewrite !countEv_app.
      rewrite (tracked_none is_setup_event is_info_write _ _ _ ltac:(by_event_cases) H4).
      rewrite (tracked_none is_crawl_event is_info_write _ _ _ ltac:(by_event_cases) H5).
      destruct r; [|done]. unfold summaryOutput. by destruct (0 <? _).
    + intros _. exists t4. eexists. split; [|by rewrite Ht5, <- app_comm_cons].
      destruct H4 as [F _]. eapply Forall_impl; [exact F|]. by_event_cases.
Qed.

(** C2 (amended).  When [main] reaches the end, what it prints last is the
    summary: the number of chapters that [crawlStory] returned, the number of
    chapters saved (one per [Saved] line of the run) and, only when it is
    positive, the number of chapter numbers found on disk minus the chapters
    saved; no line reports failed chapters. *)
Theorem final_summary w u options s s' t :
  mainBody w u options s = (Ret tt, s', t) ->
  exists before storyInfo,
    res_of (getStoryInfo w (crawlerOf options) u s) = Ret storyInfo /\
    t = before ++
        summaryOutput
          (Z.of_nat (List.length (crawledChapters (crawlv s'))))
          (Z.of_nat (countEv is_saved_line before))
          (Z.of_nat (size (existingOn (fs s') (si_slug storyInfo)
                             (opt_outputDir options) (opt_format options)))) /\
    countEv is_summary_line before = 0%nat.
Proof.
  unfold mainBody. rewrite bind_run.
  pose proof (getStoryInfo_net w (crawlerOf options) u s) as H1.
  destruct (getStoryInfo w (crawlerOf options) u s) as [[[storyInfo|e] s1] t1];
    [|discriminate].
  cbn in H1.
  destruct (saveStoryInfo_run w options storyInfo s1) as (r2 & s2 & err & Hsave & Hok & Hko).
  rewrite bind_run, Hsave.
  destruct err as [msg|]; [destruct Hko as [e ->]; [done|discriminate]|].
  rewrite Hok by done.
  destruct (crawlAndReport_run w u options storyInfo s2)
    as (s3 & s4 & s5 & t4 & t5 & r & H4 & H3 & H5 & _ & ->).
  intros [= -> <- <-]. cbn [app].
  exists (t1 ++ EvWrite (infoPath options storyInfo) (DInfo storyInfo) None :: t4 ++ t5),
         storyInfo.
  assert (Hsaved : savedCount (mainv s5) =
            Z.of_nat (countEv is_saved_line
              (t1 ++ EvWrite (infoPath options storyInfo) (DInfo storyInfo) None
                  :: t4 ++ t5))).
  { rewrite countEv_app.
    change (EvWrite (infoPath options storyInfo) (DInfo storyInfo) None :: t4 ++ t5)
      with ([EvWrite (infoPath options storyInfo) (DInfo storyInfo) None] ++ t4 ++ t5).
    rewrite !countEv_app.
    rewrite (countEv_none is_saved_line t1)
      by (destruct H1 as [F _]; eapply Forall_impl; [exact F|]; by intros []).
    destruct H4 as [_ E4], H5 as [_ E5]. cbn. lia. }
  split; [done|]. split.
  - rewrite Hsaved. by rewrite <- app_assoc, <- app_comm_cons, <- app_assoc.
  - change (EvWrite (infoPath options storyInfo) (DInfo storyInfo) None :: t4 ++ t5)
      with ([EvWrite (infoPath options storyInfo) (DInfo storyInfo) None] ++ t4 ++ t5).
    rewrite !countEv_app.
    rewrite (countEv_none is_summary_line t1)
      by (destruct H1 as [F _]; eapply Forall_impl; [exact F|]; by intros []).
    rewrite (tracked_none is_setup_event is_summary_line _ _ _ ltac:(by_event_cases) H4).
    rewrite (tracked_none is_crawl_event is_summary_line _ _ _ ltac:(by_event_cases) H5).
    done.
Qed.

(** ** The resume option *)

Lemma same_run_refl {A} (x : Res A * St * list Event) : same_run x x.
Proof. by repeat split. Qed.

Lemma same_run_bind {A B} (m1 m2 : M A) (f : A -> M B) s :
  same_run (m1 s) (m2 s) -> same_run ((m1 ≫= f) s) ((m2 ≫= f) s).
Proof.
  rewrite !bind_run. intros (Hr & Hs & Ht).
  destruct (m1 s) as [[r1 s1] t1], (m2 s) as [[r2 s2] t2]. cbn in *. subst r2 s2.
  destruct r1 as [a|e]; [|by repeat split].
  destruct (f a s1) as [[r s'] t]. repeat split. cbn.
  by rewrite !map_app, Ht.
Qed.

Lemma same_run_bind_r {A B} (m : M A) (f1 f2 : A -> M B) s :
  (forall a s', same_run (f1 a s') (f2 a s')) ->
  same_run ((m ≫= f1) s) ((m ≫= f2) s).
Proof.
  intros H. rewrite !bind_run. destruct (m s) as [[[a|e] s1] t1]; [|by repeat split].
  destruct (H a s1) as (Hr & Hs & Ht).
  destruct (f1 a s1) as [[r1 s1'] t1'], (f2 a s1) as [[r2 s2'] t2'].
  cbn in *. subst. repeat split. cbn. by rewrite !map_app, Ht.
Qed.

Lemma same_run_try {A} (m1 m2 : M A) h s :
  same_run (m1 s) (m2 s) -> same_run (try_catch m1 h s) (try_catch m2 h s).
Proof.
  rewrite !try_run. intros (Hr & Hs & Ht).
  destruct (m1 s) as [[r1 s1] t1], (m2 s) as [[r2 s2] t2]. cbn in *. subst r2 s2.
  destruct r1 as [a|e]; [by repeat split|].
  destruct (h e s1) as [[r s'] t]. repeat split. cbn.
  by rewrite !map_app, Ht.
Qed.

(** The three flags touch nothing but [options.resume] and, for
    [--force], [options.force]. *)
Lemma parseArg_resume_flags next options :
  parseArg "--resume" next options = Single (with_resume true options) /\
  parseArg "--no-resume" next options = Single (with_resume false options) /\
  parseArg "--force" next options
    = Single (with_resume false (with_force true options)).
Proof.
  unfold parseArg. destruct next as [v|]; [destruct (String.eqb v "")|]; done.
Qed.

Lemma loadChapterFiles_resume options b files chapterFiles s :
  loadChapterFiles (with_resume b options) files chapterFiles s
  = loadChapterFiles options files chapterFiles s.
Proof.
  revert s. induction chapterFiles as [|file rest IH]; intros s; [done|].
  cbn [loadChapterFiles]. rewrite !bind_run.
  cbn [opt_format with_resume].
  destruct (if String.eqb (opt_format options) "json" then _ else _) as [[[[]|e] s1] t1];
    [|done].
  by rewrite IH.
Qed.

Lemma loadExisting_resume options b storyInfo s :
  loadExisting (with_resume b options) storyInfo s
  = loadExisting options storyInfo s.
Proof.
  unfold loadExisting. rewrite !bind_run. cbn [get_st].
  cbn [opt_format opt_outputDir with_resume].
  destruct (readChaptersDir _ _ _) as [files|]; [|done].
  rewrite !bind_run. by rewrite loadChapterFiles_resume.
Qed.

Lemma findExisting_resume options b storyInfo s :
  opt_force options = false ->
  same_run (findExisting (with_resume b options) storyInfo s)
           (findExisting options storyInfo s).
Proof.
  intros Hforce. unfold findExisting.
  cbn [opt_force opt_resume opt_outputDir opt_format with_resume].
  rewrite Hforce. cbn [negb].
  apply same_run_bind_r. intros existing s'.
  apply same_run_bind. unfold when.
  destruct (0 <? size existing)%nat; [|apply same_run_refl].
  rewrite !bind_run.
  destruct b, (opt_resume options); unfold log, emit;
    rewrite loadExisting_resume;
    destruct (loadExisting options storyInfo s') as [[r s2] t2];
    by repeat split.
Qed.

Lemma mainBody_resume w u options b s :
  opt_force options = false ->
  same_run (mainBody w u (with_resume b options) s) (mainBody w u options s).
Proof.
  intros Hforce. unfold mainBody.
  change (crawlerOf (with_resume b options)) with (crawlerOf options).
  apply same_run_bind_r. intros storyInfo s1.
  change (opt_outputDir (with_resume b options)) with (opt_outputDir options).
  apply same_run_bind_r. intros [] s2.
  unfold crawlAndReport. apply same_run_bind_r. intros [] s3.
  change (crawlerOf (with_resume b options)) with (crawlerOf options).
  change (fun existing => crawlOptionsOf w (with_resume b options) storyInfo existing)
    with (fun existing => crawlOptionsOf w options storyInfo existing).
  change (summary (with_resume b options)) with (summary options).
  apply same_run_bind. by apply findExisting_resume.
Qed.

Lemma options_agree o1 o2 :
  with_resume true o1 = with_resume true o2 ->
  o1 = with_resume (opt_resume o1) o2.
Proof. destruct o1, o2. unfold with_resume. cbn. by intros [= -> -> -> -> -> ->]. Qed.

(** C10.  Two command lines without [--force] whose parsed options differ
    at most in [resume] give the same run: the same exit code, the same
    final state (files, requests made, chapters saved and loaded), and the
    same effects in the same order, up to the wording of the line that
    announces the chapters found on disk. *)
Theorem resume_option_never_consulted w u args1 args2 o1 o2 s :
  parseOptions args1 defaultOptions = inl o1 ->
  parseOptions args2 defaultOptions = inl o2 ->
  with_resume true o1 = with_resume true o2 ->
  opt_force o1 = false ->
  existsb (String.eqb "--help") args1 = existsb (String.eqb "--help") args2 ->
  same_run (main w (u :: args1) s) (main w (u :: args2) s).
Proof.
  intros H1 H2 Hagree Hforce Hhelp. unfold main. cbn [existsb].
  rewrite Hhelp, H1, H2.
  destruct (_ || _); [apply same_run_refl|].
  destruct (_ || _); [apply same_run_refl|].
  apply same_run_try, same_run_bind.
  rewrite (options_agree _ _ Hagree). apply mainBody_resume.
  apply (f_equal opt_force) in Hagree. cbn in Hagree. congruence.
Qed.

(** ** Sorting *)

Section SortFacts.
Context {A : Type} (cmp : A -> A -> Z).

Lemma insert_sorted_perm x l : Permutation (Js.insert_sorted cmp x l) (x :: l).
Proof.
  induction l as [|y r IH]; cbn; [done|].
  destruct (cmp x y <=? 0); [done|].
  rewrite IH. apply perm_swap.
Qed.

Lemma sort_perm l : Permutation (Js.sort cmp l) l.
Proof.
  induction l as [|x r IH]; [done|].
  change (Js.sort cmp (x :: r)) with (Js.insert_sorted cmp x (Js.sort cmp r)).
  rewrite insert_sorted_perm. by constructor.
Qed.

Lemma sort_cons x l : Js.sort cmp (x :: l) = Js.insert_sorted cmp x (Js.sort cmp l).
Proof. reflexivity. Qed.

Lemma insert_sorted_map {B} (f : B -> A) x l :
  map f (Js.insert_sorted (fun a b => cmp (f a) (f b)) x l)
  = Js.insert_sorted cmp (f x) (map f l).
Proof.
  induction l as [|y r IH]; cbn; [done|].
  destruct (cmp (f x) (f y) <=? 0); cbn; [done|]. by rewrite IH.
Qed.

Lemma sort_map {B} (f : B -> A) l :
  map f (Js.sort (fun a b => cmp (f a) (f b)) l) = Js.sort cmp (map f l).
Proof.
  induction l as [|x r IH]; [done|].
  cbn [map]. rewrite (sort_cons (f x)).
  change (Js.sort (fun a b => cmp (f a) (f b)) (x :: r))
    with (Js.insert_sorted (fun a b => cmp (f a) (f b)) x
            (Js.sort (fun a b => cmp (f a) (f b)) r)).
  rewrite insert_sorted_map. by rewrite IH.
Qed.
End SortFacts.

Lemma StronglySorted_lookup {A} (R : A -> A -> Prop) l (i j : nat) a b :
  StronglySorted R l -> (i < j)%nat -> l !! i = Some a -> l !! j = Some b -> R a b.
Proof.
  intros Hs. revert i j. induction Hs as [|x r Hs IH Hx]; intros i j Hij Hi Hj; [done|].
  destruct j as [|j]; [lia|]. destruct i as [|i]; cbn in *.
  - injection Hi as ->. rewrite Forall_forall in Hx. apply Hx.
    by eapply list_elem_of_lookup_2.
  - apply (IH i j); [lia|done|done].
Qed.

Lemma map_snd_indexed_from {A} (l : list A) k : map snd (zip (seq k (List.length l)) l) = l.
Proof. revert k. induction l; intros k; cbn; [done|]. by rewrite IHl. Qed.

Lemma indexed_increasing {A} (l : list A) k :
  StronglySorted (fun a b : nat * A => (a.1 < b.1)%nat) (zip (seq k (List.length l)) l).
Proof.
  revert k. induction l as [|x r IH]; intros k; cbn; constructor; [apply IH|].
  apply Forall_forall. intros [i y] Hin. cbn.
  apply elem_of_zip_l in Hin. cbn in Hin.
  apply elem_of_seq in Hin. lia.
Qed.

Lemma insert_numbered x l :
  is_Some (ref_number x.2) -> Forall (fun y => is_Some (ref_number y.2)) l ->
  StronglySorted numbered_order l -> Forall (fun y => (x.1 < y.1)%nat) l ->
  StronglySorted numbered_order (Js.insert_sorted compareIndexed x l).
Proof.
  intros [nx Hx] Hnum Hs Hidx. induction Hs as [|y r Hs IH Hy]; cbn.
  - repeat constructor.
  - apply Forall_cons in Hnum as [[ny Hy'] Hnum]. apply Forall_cons in Hidx as [Hxy Hidx].
    unfold compareIndexed at 1, compareRefs. rewrite Hx, Hy'.
    destruct (Z.leb_spec (nx - ny) 0) as [Hle|Hgt].
    + constructor; [by constructor|]. constructor.
      * exists nx, ny. repeat split; auto. lia.
      * rewrite Forall_forall in Hy, Hidx |- *. intros z Hz.
        destruct (Hy z Hz) as (ny' & nz & Ey & Ez & Hord). exists nx, nz.
        rewrite Hy' in Ey. injection Ey as <-.
        repeat split; auto. specialize (Hidx z Hz). lia.
    + constructor; [by apply IH|].
      rewrite (insert_sorted_perm compareIndexed x r). constructor; [|done].
      exists ny, nx. repeat split; auto. lia.
Qed.

Lemma sort_numbered l :
  Forall (fun y => is_Some (ref_number y.2)) l ->
  StronglySorted (fun a b : nat * ChapterRef => (a.1 < b.1)%nat) l ->
  StronglySorted numbered_order (Js.sort compareIndexed l).
Proof.
  intros Hnum Hs. induction Hs as [|x r Hs IH Hx]; cbn; [constructor|].
  apply Forall_cons in Hnum as [Hnx Hnum].
  apply insert_numbered; auto.
  - by rewrite (sort_perm compareIndexed r).
  - by rewrite (sort_perm compareIndexed r).
Qed.

(** The sort of a listing whose references all have a number: ascending
    numbers, equal numbers in the order of the listing. *)
Lemma sortedListing_when_numbered (m : list ChapterRef) :
  Forall (fun r => is_Some (ref_number r)) m ->
  map snd (sortedListing m) = Js.sort compareRefs m /\
  Permutation (sortedListing m) (indexed m) /\
  (forall (i j : nat) a b, (i < j)%nat ->
     sortedListing m !! i = Some a -> sortedListing m !! j = Some b ->
     numbered_order a b) /\
  listing_order (sortedListing m).
Proof.
  intros Hnum.
  assert (Hs : StronglySorted numbered_order (sortedListing m)).
  { apply sort_numbered; [|apply indexed_increasing].
    unfold indexed. apply Forall_forall. intros [i r] Hin. cbn.
    apply elem_of_zip_r in Hin. cbn in Hin.
    rewrite Forall_forall in Hnum. by apply Hnum. }
  split; [|split; [|split]].
  - unfold sortedListing, compareIndexed.
    rewrite (sort_map compareRefs snd). unfold indexed. by rewrite map_snd_indexed_from.
  - apply sort_perm.
  - intros i j a b Hij Hi Hj. eapply StronglySorted_lookup; eauto.
  - intros i j a b Hij Hi Hj.
    destruct (StronglySorted_lookup _ _ _ _ _ _ Hs Hij Hi Hj) as (x & y & -> & -> & H).
    lia.
Qed.

(** The result of [getAllChapters] is the sort of the pages read. *)
Lemma getAllChapters_sorts w cr u s info chapters s' t :
  getAllChapters w cr u s = (Ret (info, chapters), s', t) ->
  exists merged, chapters = Js.sort compareRefs merged.
Proof.
  unfold getAllChapters, try_catch, mbind, M_bind, mret, M_ret, throw.
  intros H. repeat case_match; simplify_eq; eauto.
Qed.

(** The page loop returns the links of the pages it has read, after those
    it was given, and it has read every page. *)
Lemma pagesLoop_reads w cr u n pages : forall acc s refs s' t,
  pagesLoop w cr u n pages acc s = (Ret refs, s', t) ->
  refs = acc ++ mergedListing w cr u pages s /\
  List.length (pagesRead w cr u pages s) = List.length pages.
Proof.
  unfold mergedListing.
  induction pages as [|page rest IH]; intros acc s refs s' t H;
    cbn [pagesLoop pagesRead] in *.
  - injection H as <- _ _. by rewrite app_nil_r.
  - rewrite bind_run in H. unfold getChaptersFromPage in H.
    rewrite try_run, bind_run in H.
    destruct (fetchPage w cr (pageUrl u page) s) as [[[html|e] s1] t1]; [|done].
    cbn [mret M_ret] in H. rewrite bind_run in H.
    assert (Hwait : exists tw, when (page <? n) (delay (cr_delay cr)) s1
                               = (Ret tt, s1, tw))
      by (destruct (page <? n); by eexists).
    destruct Hwait as [tw Hwait]. rewrite Hwait in H.
    destruct (pagesLoop w cr u n rest _ s1) as [[r2 s2] t2] eqn:E.
    injection H as -> _ _. apply IH in E as [-> Hlen].
    cbn [flat_map List.length]. rewrite <- app_assoc. by rewrite Hlen.
Qed.

(** C5 (amended).  When [getAllChapters] returns, it has read every
    listing page of the story, in order, and when every link of the merged
    listing (the links of page 1, then those of page 2, and so on) has a
    number, the chapters it returns are the merged listing in ascending
    number order, links with equal numbers in their order in the merged
    listing. *)
Theorem getAllChapters_order_when_numbered w cr u s info chapters s' t :
  getAllChapters w cr u s = (Ret (info, chapters), s', t) ->
  let pages := pagesOf (si_totalPages info) in
  let read := pagesRead w cr u pages (st_of (getStoryInfo w cr u s)) in
  let merged := mergedListing w cr u pages (st_of (getStoryInfo w cr u s)) in
  Forall (fun r => is_Some (ref_number r)) merged ->
  res_of (getStoryInfo w cr u s) = Ret info /\
  List.length read = List.length pages /\
  chapters = map snd (sortedListing merged) /\
  Permutation (sortedListing merged) (indexed merged) /\
  (forall (i j : nat) a b, (i < j)%nat ->
     sortedListing merged !! i = Some a -> sortedListing merged !! j = Some b ->
     numbered_order a b) /\
  listing_order (sortedListing merged).
Proof.
  intros H pages read merged Hnum.
  assert (Hrun : res_of (getStoryInfo w cr u s) = Ret info /\
                 List.length read = List.length pages /\
                 chapters = Js.sort compareRefs merged).
  { subst pages read merged. unfold getAllChapters in H.
    rewrite try_run, bind_run in H.
    destruct (getStoryInfo w cr u s) as [[[info'|e] s1] t1]; [|done].
    cbn [st_of res_of fst snd]. rewrite bind_run in H.
    destruct (si_totalPages info') as [n|] eqn:En.
    - destruct (pagesLoop w cr u n (pagesOf (Some n)) [] s1)
        as [[[refs|e] s2] t2] eqn:E; [|done].
      cbn in H. injection H as <- <- _ _. rewrite En.
      apply pagesLoop_reads in E as [-> Hlen]. by rewrite app_nil_l.
    - cbn in H. injection H as <- <- _ _. by rewrite En. }
  destruct Hrun as (Hinfo & Hlen & ->).
  destruct (sortedListing_when_numbered merged Hnum) as (Hs & Hp & Ho & Hl).
  by rewrite Hs.
Qed.

(** ** The manifest *)

Section SortedByPreorder.
Context {A : Type} (cmp : A -> A -> Z).
Context (cmp_total : forall a b, cmp a b <= 0 \/ cmp b a <= 0).
Context (cmp_trans : forall a b c, cmp a b <= 0 -> cmp b c <= 0 -> cmp a c <= 0).

Lemma insert_sorted_sorted x l :
  StronglySorted (fun a b => cmp a b <= 0) l ->
  StronglySorted (fun a b => cmp a b <= 0) (Js.insert_sorted cmp x l).
Proof.
  induction 1 as [|y r Hs IH Hy]; cbn; [repeat constructor|].
  destruct (Z.leb_spec (cmp x y) 0) as [Hle|Hgt].
  - constructor; [by constructor|]. constructor; [done|].
    eapply Forall_impl; [exact Hy|]. intros z Hz. by eapply cmp_trans.
  - constructor; [done|].
    rewrite insert_sorted_perm. constructor; [|done].
    destruct (cmp_total x y); [lia|done].
Qed.

Lemma sort_sorted l : StronglySorted (fun a b => cmp a b <= 0) (Js.sort cmp l).
Proof.
  induction l as [|x r IH]; [constructor|].
  rewrite sort_cons. by apply insert_sorted_sorted.
Qed.
End SortedByPreorder.

(** The manifest lists every chapter of the accumulator, once each. *)
Lemma lightweightChapters_perm allChapters :
  Permutation (lightweightChapters allChapters) (map metadataOf allChapters).
Proof. unfold lightweightChapters. apply Permutation_map, sort_perm. Qed.

(** The manifest is sorted: numbered entries ascending and before the
    others. *)
Lemma lightweightChapters_sorted allChapters :
  StronglySorted manifest_le (Js.sort compareChapters allChapters).
Proof.
  apply (sort_sorted compareChapters); unfold compareChapters.
  - intros a b. destruct (number a), (number b); lia.
  - intros a b c. destruct (number a), (number b), (number c); lia.
Qed.

(** What every successful rewrite of the manifest puts on disk. *)
Lemma updateStoryJson_writes w storyInfo allChapters outputDir s s' t :
  updateStoryJson w storyInfo allChapters outputDir s = (Ret tt, s', t) ->
  manifestsWritten t = [lightweightChapters allChapters].
Proof.
  unfold updateStoryJson, writeIn.
  destruct (_ ≫= _); [|done]. destruct (disk_error _ _); [done|].
  by intros [= <- <-].
Qed.

(** ** The resume filter *)

(** A reference passes the filter iff it has no number or its number is
    not in the set. *)
Lemma resumeFilter_spec o existing refs r :
  existingChapters o = Some existing ->
  r ∈ resumeFilter o refs <->
  r ∈ refs /\ (forall n, ref_number r = Some n -> n ∉ existing).
Proof.
  intros He. unfold resumeFilter. rewrite He.
  destruct (0 <? size existing)%nat eqn:Hsize.
  - rewrite !list_elem_of_In, List.filter_In.
    unfold notExisting. destruct (ref_number r) as [n|].
    + rewrite negb_true_iff, bool_decide_eq_false.
      split; [intros [? ?]; split; [done|congruence]|intros [? Hn]; eauto].
    + split; [intros [? _]; split; [done|congruence]|intros [? _]; eauto].
  - apply Nat.ltb_ge in Hsize.
    assert (existing = ∅) as -> by (apply leibniz_equiv, size_empty_iff; lia).
    split; [intros ?; split; [done|intros n _; apply not_elem_of_empty]
          |by intros [? _]].
Qed.

(** ** Chapter files *)

(** A chapter with a number other than zero goes to
    [chapter-<number, five digits>.<ext>]. *)
Lemma chapterFileName_numbered chapter format n :
  number chapter = Some n -> n <> 0 ->
  chapterFileName chapter format =
    Ret ("chapter-" +:+ Js.padStart0 5 (Js.toString n) +:+ "." +:+ extOf format).
Proof.
  intros Hn Hnz. unfold chapterFileName. rewrite Hn. cbn.
  by destruct (Z.eqb_spec n 0).
Qed.

(** What [getChapterContent] returns has no [order]. *)
Lemma getChapterContent_order w cr u s chapter s' t :
  getChapterContent w cr u s = (Ret chapter, s', t) ->
  order chapter = None /\ number chapter = chapterNumberOf u.
Proof.
  unfold getChapterContent, try_catch, mbind, M_bind, mret, M_ret, throw.
  intros H. repeat case_match; by simplify_eq.
Qed.

(** Saving a chapter without a number and without an [order] throws, and
    writes no file. *)
Lemma saveChapter_numberless w chapter slug outputDir format s :
  Js.truthy (number chapter) = false -> order chapter = None ->
  res_of (saveChapter w chapter slug outputDir format s)
    = Throw "Cannot read properties of undefined (reading 'toString')" /\
  trace_of (saveChapter w chapter slug outputDir format s) = [].
Proof.
  intros Hn Ho. unfold saveChapter, chapterFileName. rewrite Hn, Ho.
  by rewrite bind_run.
Qed.

(** ** Sample runs *)

Lemma run_eta {A} (x : Res A * St * list Event) :
  x = (res_of x, st_of x, trace_of x).
Proof. by destruct x as [[r s] t]. Qed.

Ltac by_run :=
  repeat lazymatch goal with
         | |- _ /\ _ => split
         | |- _ = _ => vm_compute; reflexivity
         end.

Lemma Forall_false_existsb (p : Event -> bool) t :
  Forall (fun e => p e = false) t -> existsb p t = false.
Proof. induction 1 as [|e t He _ IH]; [done|]. cbn. by rewrite He. Qed.

(** C1.  Two links whose addresses carry the same chapter number are both
    fetched, both saved (to the same file) and both pushed: the manifest
    written after the second persist lists number 1 twice. *)
Theorem duplicate_numbers_reach_the_manifest :
  let run := main siteVolumes [root] (init_St ∅) in
  res_of run = Ret 0 /\
  countEv is_saved_line (trace_of run) = 2%nat /\
  (map fst <$> readChaptersDir (fs (st_of run)) "abc" "./output")
    = Some ["chapter-00001.json"] /\
  (numbersOf <$> last (manifestsWritten (trace_of run))) = Some [1; 1] /\
  ~ NoDup [1; 1].
Proof.
  intros run. by_run.
  intros H. apply NoDup_cons_1_1 in H. apply H. by left.
Qed.

(** C6.  A chapter whose address has no [chuong-<n>] has neither a number
    nor an [order]: [saveChapter] throws on [chapter.order.toString()], the
    error is printed, and no file is written for the chapter. *)
Theorem numberless_chapter_is_not_saved :
  let run := main siteEpilogue [root] (init_St ∅) in
  res_of run = Ret 0 /\
  existsb (is_get "https://truyenfull.vision/abc/ngoai-truyen/") (trace_of run)
    = true /\
  List.filter (fun e => match e with EvLog (LErrorSaving _) => true | _ => false end)
    (trace_of run)
    = [EvLog (LErrorSaving "Cannot read properties of undefined (reading 'toString')")] /\
  (map fst <$> readChaptersDir (fs (st_of run)) "abc" "./output")
    = Some ["chapter-00001.json"].
Proof. cbv zeta. by_run. Qed.

(** C7.  For an address whose slug [sanitizeFileName] changes, the chapter
    saved by a first run lies below the sanitized directory, while
    [getExistingChapters] looks below the raw one: the second run finds no
    chapter on disk and fetches chapter 1 again.  (For the plain address the
    second run does not fetch it.) *)
Theorem persisted_chapter_is_fetched_again :
  let disk := fs (st_of (main siteQuery [rootQuery] (init_St ∅))) in
  let again := main siteQuery [rootQuery] (init_St disk) in
  slugOf (crawlerOf defaultOptions) rootQuery = "abc?ref=home" /\
  sanitizeFileName "abc?ref=home" = "abc_ref=home" /\
  (map fst <$> readChaptersDir disk "abc_ref=home" "./output")
    = Some ["chapter-00001.json"] /\
  elements (existingOn disk "abc?ref=home" "./output" "json") = [] /\
  countEv (is_get "https://truyenfull.vision/abc/chuong-1/") (trace_of again)
    = 1%nat /\
  countEv (is_get "https://truyenfull.vision/abc/chuong-1/")
    (trace_of (main siteQuery [root] (init_St diskWithChapter1))) = 0%nat.
Proof. cbv zeta. by_run. Qed.

(** C2, as stated, fails: a run with one failed chapter and a run with none
    print the same summary. *)
Lemma summary_hides_failures :
  ~ exists read,
      summary_reports_failed read (trace_of (main site123 [root] (init_St ∅))) /\
      summary_reports_failed read (trace_of (main site13 [root] (init_St ∅))).
Proof.
  intros (read & Ha & Hb). unfold summary_reports_failed in Ha, Hb.
  set (ta := trace_of (main site123 [root] (init_St ∅))) in *.
  set (tb := trace_of (main site13 [root] (init_St ∅))) in *.
  assert (E : summaryLines ta = summaryLines tb) by (vm_compute; reflexivity).
  assert (Fa : failedCount ta = 1%nat) by (vm_compute; reflexivity).
  assert (Fb : failedCount tb = 0%nat) by (vm_compute; reflexivity).
  rewrite E, Fa in Ha. rewrite Fb in Hb. congruence.
Qed.

(** C3, as stated, fails: the write of the first chapter file fails, and
    the next chapter is fetched and saved all the same. *)
Lemma persist_failure_does_not_abort :
  ~ aborts_on_persist_failure (trace_of (main siteDiskFull [root] (init_St ∅))).
Proof.
  intros H.
  set (t := trace_of (main siteDiskFull [root] (init_St ∅))) in *.
  specialize (H (firstn 6 t) (nth 6 t (EvDelay 0)) (skipn 7 t)).
  apply Forall_false_existsb in H; [|vm_compute; reflexivity..].
  vm_compute in H. discriminate.
Qed.

(** C8.  On [siteLogFull] the server refuses chapter 2 at every attempt and
    the append to [errors.log] that [onError] then makes fails: the error
    of the append leaves the loop through its [catch], [crawlStory] throws,
    and [main] ends with exit code 1.  Chapter 2 was requested four times,
    chapter 3 is never requested, and [errors.log] holds no record. *)
Theorem failed_log_append_ends_the_run :
  let run := main siteLogFull [root] (init_St ∅) in
  let u2 := "https://truyenfull.vision/abc/chuong-2/" in
  let message :=
    "Failed to get chapter content from " +:+ u2 +:+ ": Failed to fetch "
    +:+ u2 +:+ ": HTTP error! status: 503" in
  res_of run = Ret 1 /\
  countEv (is_get u2) (trace_of run) = 4%nat /\
  countEv (is_get "https://truyenfull.vision/abc/chuong-3/") (trace_of run)
    = 0%nat /\
  skipn 19 (trace_of run) =
    [EvLog (LErrorCrawling message);
     EvWrite "./output/abc/errors.log"
       (DLine ("[2024-01-01T00:00:00.000Z] Chapter 2 - /abc/chuong-2/: "
               +:+ message +:+ newline))
       (Some "ENOSPC: no space left on device");
     EvLog (LFatal "Failed to crawl story: ENOSPC: no space left on device")] /\
  errors_log <$> (fs (st_of run) !! "./output/abc") = Some [].
Proof. intros run u2 message. subst run u2 message. by_run. Qed.

(** C9, as stated, fails: the root page is requested twice. *)
Lemma root_page_fetched_twice :
  ~ root_fetched_once_info_saved_once root
      (trace_of (main site13 [root] (init_St ∅))).
Proof. intros [H _]. vm_compute in H. discriminate. Qed.

(** C5, as stated, fails: on two pages that list chapter 5 and a
    numberless link, then chapter 3, the sort puts chapter 3 before the
    numberless link that preceded it. *)
Lemma mixed_listing_breaks_order :
  (res_of (getAllChapters sitePages (crawlerOf defaultOptions) root (init_St ∅))
   = Ret ({| si_title := "Story"; si_slug := "abc"; si_url := root;
             si_totalPages := Some 2 |},
          map snd (sortedListing mergedPages))) /\
  ~ listing_order (sortedListing mergedPages).
Proof.
  split; [vm_compute; reflexivity|].
  intros H.
  assert (E : exists a b, sortedListing mergedPages !! 0%nat = Some a /\
                          sortedListing mergedPages !! 2%nat = Some b /\
                          ref_number a.2 = Some 3 /\ ref_number b.2 = None /\
                          a.1 = 2%nat /\ b.1 = 1%nat).
  { do 2 eexists. by_run. }
  destruct E as (a & b & Ha & Hb & Hna & Hnb & Hia & Hib).
  specialize (H 0%nat 2%nat a b ltac:(lia) Ha Hb).
  rewrite Hna, Hnb in H. lia.
Qed.

(** No arrangement of that listing has the order the claim asks for:
    chapter 5 must precede the numberless link, that link must precede
    chapter 3, and chapter 3 must precede chapter 5. *)
Lemma mixed_listing_has_no_such_order out :
  Permutation out (indexed mergedPages) -> ~ listing_order out.
Proof.
  intros Hp H.
  assert (E : exists a b c, indexed mergedPages = [a; b; c] /\
            a.1 = 0%nat /\ b.1 = 1%nat /\ c.1 = 2%nat /\
            ref_number a.2 = Some 5 /\ ref_number b.2 = None /\
            ref_number c.2 = Some 3).
  { do 3 eexists. by_run. }
  destruct E as (a & b & c & E & Ia & Ib & Ic & Na & Nb & Nc).
  rewrite E in Hp.
  assert (Ha : a ∈ out) by (rewrite Hp; set_solver).
  assert (Hb : b ∈ out) by (rewrite Hp; set_solver).
  assert (Hc : c ∈ out) by (rewrite Hp; set_solver).
  apply list_elem_of_lookup_1 in Ha as [pa Ha], Hb as [pb Hb], Hc as [pc Hc].
  assert (pa < pb)%nat.
  { destruct (Nat.lt_trichotomy pa pb) as [?|[->|Hlt]]; [done|..].
    - rewrite Ha in Hb. injection Hb as ->. lia.
    - specialize (H pb pa b a Hlt Hb Ha). rewrite Nb in H. lia. }
  assert (pb < pc)%nat.
  { destruct (Nat.lt_trichotomy pb pc) as [?|[->|Hlt]]; [done|..].
    - rewrite Hb in Hc. injection Hc as ->. lia.
    - specialize (H pc pb c b Hlt Hc Hb). rewrite Nc, Nb in H. lia. }
  specialize (H pa pc a c ltac:(lia) Ha Hc). rewrite Na, Nc in H. lia.
Qed.

(** ** The theorems at work on the sample sites *)

(** Chapter 2 of [site123] is refused four times: three retries, after
    one, two and three seconds. *)
Lemma fetchPage_retries_then_throws_witness :
  let cr := crawlerOf defaultOptions in
  let u := "https://truyenfull.vision/abc/chuong-2/" in
  (forall k, (k <= cr_retries cr)%nat ->
     outcomeOf (http site123 (nreq (init_St ∅) + k) u)
     = inr "HTTP error! status: 503") /\
  fetchPage site123 cr u (init_St ∅) =
    (Throw ("Failed to fetch " +:+ u +:+ ": HTTP error! status: 503"),
     set_nreq (fun n => (n + 4)%nat) (init_St ∅),
     [EvGet u; EvDelay 1000; EvGet u; EvDelay 2000; EvGet u; EvDelay 3000;
      EvGet u]).
Proof.
  intros cr u.
  assert (H : forall k, (k <= cr_retries cr)%nat ->
            outcomeOf (http site123 (nreq (init_St ∅) + k) u)
            = inr "HTTP error! status: 503") by (intros k _; reflexivity).
  split; [exact H|].
  exact (fetchPage_retries_then_throws site123 cr u
           (fun _ => "HTTP error! status: 503") (init_St ∅) H).
Defined.

(** The two pages of [siteTwoPages] list chapters 3 and 1, then chapter 2
    and the first chapter of a second volume: [getAllChapters] returns
    chapter 1, the first chapter of the second volume, chapter 2 and
    chapter 3. *)
Lemma getAllChapters_order_when_numbered_witness :
  let cr := crawlerOf defaultOptions in
  let run := getAllChapters siteTwoPages cr root (init_St ∅) in
  let info := {| si_title := "Story"; si_slug := "abc"; si_url := root;
                 si_totalPages := Some 2 |} in
  let link (href : string) (number order : Z) :=
    {| ref_number := Some number; ref_title := href;
       ref_url := "https://truyenfull.vision" +:+ href; ref_order := order |} in
  let chapters :=
    [link "/abc/chuong-1/" 1 1; link "/abc/quyen-2-chuong-1/" 1 1;
     link "/abc/chuong-2/" 2 0; link "/abc/chuong-3/" 3 0] in
  let pages := pagesOf (si_totalPages info) in
  let read := pagesRead siteTwoPages cr root pages
                (st_of (getStoryInfo siteTwoPages cr root (init_St ∅))) in
  let merged := mergedListing siteTwoPages cr root pages
                  (st_of (getStoryInfo siteTwoPages cr root (init_St ∅))) in
  res_of run = Ret (info, chapters) /\
  merged = [link "/abc/chuong-3/" 3 0; link "/abc/chuong-1/" 1 1;
            link "/abc/chuong-2/" 2 0; link "/abc/quyen-2-chuong-1/" 1 1] /\
  res_of (getStoryInfo siteTwoPages cr root (init_St ∅)) = Ret info /\
  List.length read = List.length pages /\
  chapters = map snd (sortedListing merged) /\
  Permutation (sortedListing merged) (indexed merged) /\
  (forall (i j : nat) a b, (i < j)%nat ->
     sortedListing merged !! i = Some a -> sortedListing merged !! j = Some b ->
     numbered_order a b) /\
  listing_order (sortedListing merged).
Proof.
  intros cr run info link chapters pages read merged.
  split; [vm_compute; reflexivity|]. split; [vm_compute; reflexivity|].
  refine (getAllChapters_order_when_numbered siteTwoPages cr root (init_St ∅)
            info chapters (st_of run) (trace_of run) _ _).
  - vm_compute. reflexivity.
  - vm_compute. repeat (constructor; [by eexists|]). constructor.
Defined.

(** The loop of [site123] at chapter 2, with chapter 3 still to come. *)
Lemma crawlLoop_records_exhaustion_and_continues_witness :
  let w := site123 in
  let options := defaultOptions in
  let cr := crawlerOf options in
  let storyInfo :=
    {| si_title := "Story"; si_slug := "abc"; si_url := root;
       si_totalPages := Some 1 |} in
  let o := crawlOptionsOf w options storyInfo ∅ in
  let s := init_St ∅ in
  let u := ref_url (refTo 2) in
  let s1 := set_nreq (fun n => (n + S (cr_retries cr))%nat) s in
  let message :=
    "Failed to get chapter content from " +:+ u +:+ ": "
    +:+ "Failed to fetch " +:+ u +:+ ": " +:+ "HTTP error! status: 503" in
  let record :=
    {| err_chapter := refTo 2; err_error := message;
       err_timestamp := now w (nreq s1) |} in
  let dir := path_join (opt_outputDir options) (si_slug storyInfo) in
  (forall k, (k <= cr_retries cr)%nat ->
     outcomeOf (http w (nreq s + k) u) = inr "HTTP error! status: 503") /\
  disk_error w (nwrite s) = None /\
  logEntry record =
    "[2024-01-01T00:00:00.000Z] Chapter 2 - /abc/chuong-2/: "
    +:+ "Failed to get chapter content from "
    +:+ "https://truyenfull.vision/abc/chuong-2/: Failed to fetch "
    +:+ "https://truyenfull.vision/abc/chuong-2/: HTTP error! status: 503"
    +:+ newline /\
  errors_log <$> (fs (withErrorLine dir (logEntry record) s1) !! dir)
    = Some (errors_log (default empty_dir (fs s !! dir)) ++ [logEntry record]) /\
  crawlLoop w cr o 3 1 [refTo 2; refTo 3] s =
    let '(res, s3, t3) :=
      crawlLoop w cr o 3 (1 + 1) [refTo 3]
        (withErrorLine dir (logEntry record) s1) in
    (res, s3,
     EvLog (LCrawling (1 + 1) 3 (ref_title (refTo 2)))
     :: retrySchedule cr u 0 (cr_retries cr)
     ++ EvLog (LErrorCrawling message)
     :: EvWrite (path_join dir "errors.log") (DLine (logEntry record)) None
     :: t3).
Proof.
  intros w options cr storyInfo o s u s1 message record dir.
  assert (H1 : forall k, (k <= cr_retries cr)%nat ->
            outcomeOf (http w (nreq s + k) u) = inr "HTTP error! status: 503")
    by (intros k _; reflexivity).
  assert (H2 : disk_error w (nwrite s) = None) by reflexivity.
  split; [exact H1|]. split; [exact H2|].
  exact (crawlLoop_records_exhaustion_and_continues w cr options storyInfo ∅
           3 1 (refTo 2) [refTo 3] s (fun _ => "HTTP error! status: 503") H1 H2).
Defined.

(** The loop of [siteDiskFull] at chapter 1, whose file cannot be
    written. *)
Lemma crawlLoop_survives_persist_failure_witness :
  let w := siteDiskFull in
  let options := defaultOptions in
  let cr := crawlerOf options in
  let storyInfo :=
    {| si_title := "Story"; si_slug := "abc"; si_url := root;
       si_totalPages := Some 1 |} in
  let o := crawlOptionsOf w options storyInfo ∅ in
  let s := st_of (saveStoryInfo w storyInfo "./output" (init_St ∅)) in
  let u := ref_url (refTo 1) in
  let chapter :=
    {| number := Some 1; title := "Chapter"; url := u; order := None;
       content := {| text := u; html := u |} |} in
  let x := getChapterContent w cr u s in
  disk_error w (nwrite s) = Some "ENOSPC: no space left on device" /\
  x = (Ret chapter, st_of x, trace_of x) /\
  negb (opt_force options) && has ∅ (number chapter) = false /\
  exists s2 t2,
    crawlLoop w cr o 2 0 [refTo 1; refTo 2] s =
      (let '(res, s3, t3) := crawlLoop w cr o 2 (0 + 1) [refTo 2] s2 in
       (res, s3,
        EvLog (LCrawling (0 + 1) 2 (ref_title (refTo 1)))
        :: trace_of x ++ t2 ++ t3)) /\
    forall path d message,
      EvWrite path d (Some message) ∈ t2 -> EvLog (LErrorSaving message) ∈ t2.
Proof.
  intros w options cr storyInfo o s u chapter x.
  assert (H1 : x = (Ret chapter, st_of x, trace_of x))
    by (vm_compute; reflexivity).
  assert (H2 : negb (opt_force options) && has ∅ (number chapter) = false)
    by reflexivity.
  split; [vm_compute; reflexivity|]. split; [exact H1|]. split; [exact H2|].
  exact (crawlLoop_survives_persist_failure w cr options storyInfo ∅
           2 0 (refTo 1) [refTo 2] s chapter (st_of x) (trace_of x) H1 H2).
Defined.

(** The run of [site123] from an empty disk reaches its summary. *)
Lemma final_summary_witness :
  let x := mainBody site123 root defaultOptions (init_St ∅) in
  x = (Ret tt, st_of x, trace_of x) /\
  exists before storyInfo,
    res_of (getStoryInfo site123 (crawlerOf defaultOptions) root (init_St ∅))
    = Ret storyInfo /\
    trace_of x = before ++
        summaryOutput
          (Z.of_nat (List.length (crawledChapters (crawlv (st_of x)))))
          (Z.of_nat (countEv is_saved_line before))
          (Z.of_nat (size (existingOn (fs (st_of x)) (si_slug storyInfo)
                             (opt_outputDir defaultOptions)
                             (opt_format defaultOptions)))) /\
    countEv is_summary_line before = 0%nat.
Proof.
  intros x.
  assert (H : x = (Ret tt, st_of x, trace_of x)) by (vm_compute; reflexivity).
  split; [exact H|].
  exact (final_summary site123 root defaultOptions (init_St ∅)
           (st_of x) (trace_of x) H).
Defined.

(** With chapter 1 on disk, [--no-resume] changes nothing but the wording
    of one line: chapter 3 alone is fetched either way. *)
Lemma resume_option_never_consulted_witness :
  let o1 := with_resume false defaultOptions in
  let s := init_St diskWithChapter1 in
  parseOptions ["--no-resume"] defaultOptions = inl o1 /\
  parseOptions [] defaultOptions = inl defaultOptions /\
  with_resume true o1 = with_resume true defaultOptions /\
  opt_force o1 = false /\
  countEv (is_get "https://truyenfull.vision/abc/chuong-1/")
    (trace_of (main site13 [root; "--no-resume"] s)) = 0%nat /\
  same_run (main site13 [root; "--no-resume"] s) (main site13 [root] s).
Proof.
  intros o1 s.
  assert (H1 : parseOptions ["--no-resume"] defaultOptions = inl o1) by reflexivity.
  assert (H2 : parseOptions [] defaultOptions = inl defaultOptions) by reflexivity.
  assert (H3 : with_resume true o1 = with_resume true defaultOptions) by reflexivity.
  assert (H4 : opt_force o1 = false) by reflexivity.
  split; [exact H1|]. split; [exact H2|]. split; [exact H3|]. split; [exact H4|].
  split; [vm_compute; reflexivity|].
  exact (resume_option_never_consulted site13 root ["--no-resume"] []
           o1 defaultOptions s H1 H2 H3 H4 eq_refl).
Defined.

(** * Further properties *)

(** ** Numbers and their decimal writing *)

Lemma chars_app a b : Js.chars (a +:+ b) = Js.chars a ++ Js.chars b.
Proof.
  unfold Js.chars. induction a as [|c a IH]; [done|].
  simpl. by rewrite IH.
Qed.

Lemma chars_str l : Js.chars (Js.str l) = l.
Proof. apply list_ascii_of_string_of_list_ascii. Qed.

Lemma str_chars s : Js.str (Js.chars s) = s.
Proof. apply string_of_list_ascii_of_string. Qed.

Lemma uint_digits d : Forall (fun c => Js.is_digit c = true)
                             (Js.chars (NilEmpty.string_of_uint d)).
Proof. induction d; cbn; constructor; done. Qed.

Lemma fold_uint_acc d : forall p,
  fold_left (fun acc c => 10 * acc + Js.digit_val c)
            (Js.chars (NilEmpty.string_of_uint d)) (Z.pos p)
  = Z.pos (Pos.of_uint_acc d p).
Proof.
  induction d; intros p; cbn [NilEmpty.string_of_uint Js.chars
    list_ascii_of_string fold_left Pos.of_uint_acc]; [done|..];
    unfold Js.chars in IHd; rewrite <- IHd; f_equal;
    match goal with
    | |- context [Js.digit_val ?c] =>
        let v := eval vm_compute in (Js.digit_val c) in
        change (Js.digit_val c) with v
    end; lia.
Qed.

Lemma fold_uint d :
  Js.digits_val (Js.chars (NilEmpty.string_of_uint d)) = Z.of_N (Pos.of_uint d).
Proof.
  unfold Js.digits_val.
  induction d; cbn [NilEmpty.string_of_uint Js.chars list_ascii_of_string
    fold_left Pos.of_uint]; [done|exact IHd|..];
    apply (fold_uint_acc d).
Qed.

Lemma toString_pos p :
  Js.toString (Z.pos p) = NilEmpty.string_of_uint (Pos.to_uint p).
Proof.
  unfold Js.toString. cbn.
  pose proof (Unsigned.to_uint_nonnil p). by destruct (Pos.to_uint p).
Qed.

Lemma toString_neg p :
  Js.toString (Z.neg p) = String "-" (NilEmpty.string_of_uint (Pos.to_uint p)).
Proof.
  unfold Js.toString. cbn.
  pose proof (Unsigned.to_uint_nonnil p). by destruct (Pos.to_uint p).
Qed.

(** The decimal writing of a natural number is made of digits, is not
    empty, and reads back as the number. *)
Lemma toString_digits n :
  0 <= n ->
  Forall (fun c => Js.is_digit c = true) (Js.chars (Js.toString n)) /\
  Js.chars (Js.toString n) <> [] /\
  Js.digits_val (Js.chars (Js.toString n)) = n.
Proof.
  intros Hn. destruct n as [|p|p]; [by repeat constructor| |lia].
  rewrite toString_pos. split; [apply uint_digits|]. split.
  - pose proof (Unsigned.to_uint_nonnil p). by destruct (Pos.to_uint p).
  - by rewrite fold_uint, Unsigned.of_to.
Qed.

Lemma take_digits_app ds rest :
  Forall (fun c => Js.is_digit c = true) ds ->
  match rest with [] => True | c :: _ => Js.is_digit c = false end ->
  Js.take_digits (ds ++ rest) = ds.
Proof.
  intros Hds Hrest. induction Hds as [|c ds Hc _ IH]; cbn [Js.take_digits app].
  - destruct rest as [|c r]; [done|]. cbn [Js.take_digits]. by rewrite Hrest.
  - by rewrite Hc, IH.
Qed.

Lemma take_digits_all ds :
  Forall (fun c => Js.is_digit c = true) ds -> Js.take_digits ds = ds.
Proof.
  intros H. rewrite <- (app_nil_r ds) at 1. by apply take_digits_app.
Qed.

(** ** Chapter files on disk *)

Lemma strip_prefix_app p l : Js.strip_prefix p (p ++ l) = Some l.
Proof. induction p as [|c p IH]; [done|]. cbn. by rewrite Ascii.eqb_refl. Qed.

Lemma endsWith_chars s p a :
  Js.chars s = a ++ Js.chars p -> Js.endsWith s p = true.
Proof.
  intros E. unfold Js.endsWith. rewrite E, rev_app_distr.
  by rewrite strip_prefix_app.
Qed.

(** The leftmost match is at the start when the literal is there, followed
    by digits. *)
Lemma match_lit_digits_here lit ds rest :
  Forall (fun c => Js.is_digit c = true) ds -> ds <> [] ->
  match rest with [] => True | c :: _ => Js.is_digit c = false end ->
  Js.match_lit_digits lit (lit ++ ds ++ rest) = Some ds.
Proof.
  intros Hds Hne Hrest.
  destruct (lit ++ ds ++ rest) as [|c l] eqn:E.
  - destruct lit, ds; done.
  - cbn [Js.match_lit_digits]. rewrite <- E, strip_prefix_app.
    rewrite take_digits_app by done. by destruct ds.
Qed.

Lemma digits_val_zeros k ds :
  Js.digits_val (replicate k "0"%char ++ ds) = Js.digits_val ds.
Proof.
  unfold Js.digits_val. rewrite fold_left_app.
  replace (fold_left _ (replicate k "0"%char) 0) with 0; [done|].
  induction k as [|k IH]; [done|]. cbn [replicate fold_left].
  by change (10 * 0 + Js.digit_val "0") with 0.
Qed.

Lemma zeros_digits k :
  Forall (fun c => Js.is_digit c = true) (replicate k "0"%char).
Proof. induction k; by constructor. Qed.

(** The name of a chapter file, read back the way [getExistingChapters]
    reads it. *)
Lemma chapter_name_read_back n ext :
  0 <= n <= MAX_SAFE_INTEGER ->
  let name := "chapter-" +:+ Js.padStart0 5 (Js.toString n) +:+ "." +:+ ext in
  Js.endsWith name ("." +:+ ext) = true /\
  exists ds, Js.match_lit_digits (Js.chars "chapter-") (Js.chars name) = Some ds /\
             Js.digits_val ds = n.
Proof.
  intros [Hn _] name. destruct (toString_digits n Hn) as (Hd & Hne & Hv). split.
  - apply (endsWith_chars _ _
             (Js.chars "chapter-" ++ Js.chars (Js.padStart0 5 (Js.toString n)))).
    unfold name. by rewrite !chars_app, <- !app_assoc.
  - set (k := (5 - String.length (Js.toString n))%nat).
    exists (replicate k "0"%char ++ Js.chars (Js.toString n)). split.
    + unfold name, Js.padStart0. fold k.
      rewrite !chars_app, chars_str, <- !app_assoc.
      rewrite (app_assoc (replicate k _)).
      apply match_lit_digits_here.
      * apply Forall_app. split; [apply zeros_digits|done].
      * intros H. apply app_eq_nil in H as [_ H]. done.
      * done.
    + by rewrite digits_val_zeros.
Qed.

Lemma existingNumbers_from files format : forall acc,
  let f := fun (existing : gset Z) file =>
    if Js.endsWith file ("." +:+ extOf format) then
      match Js.match_lit_digits (Js.chars "chapter-") (Js.chars file) with
      | Some ds => {[ Js.digits_val ds ]} ∪ existing
      | None => existing
      end
    else existing in
  forall n, n ∈ foldl f acc files <->
    n ∈ acc \/
    exists file ds, file ∈ files /\
      Js.endsWith file ("." +:+ extOf format) = true /\
      Js.match_lit_digits (Js.chars "chapter-") (Js.chars file) = Some ds /\
      Js.digits_val ds = n.
Proof.
  induction files as [|file files IH]; intros acc f n; cbn [foldl].
  - split; [auto|]. intros [H|(? & ? & H & _)]; [done|]. by apply elem_of_nil in H.
  - subst f. rewrite IH. clear IH. split.
    + intros [H|(file' & ds & Hin & He & Hm & Hv)].
      * destruct (Js.endsWith file _) eqn:He; [|auto].
        destruct (Js.match_lit_digits _ (Js.chars file)) as [ds|] eqn:Hm; [|auto].
        apply elem_of_union in H as [H|H]; [|auto].
        apply elem_of_singleton in H. right. exists file, ds.
        repeat split; auto. apply elem_of_cons; auto.
      * right. exists file', ds. repeat split; auto. apply elem_of_cons; auto.
    + intros [H|(file' & ds & Hin & He & Hm & Hv)].
      * left. destruct (Js.endsWith file _); [|done].
        destruct (Js.match_lit_digits _ (Js.chars file)); [|done].
        apply elem_of_union; auto.
      * apply elem_of_cons in Hin as [->|Hin].
        -- left. rewrite He, Hm. apply elem_of_union. left.
           by apply elem_of_singleton.
        -- right. exists file', ds. repeat split; auto.
Qed.

(** The numbers that [getExistingChapters] finds are those of the files
    with the extension of the format whose name holds [chapter-<digits>]. *)
Lemma existingNumbers_spec files format n :
  n ∈ existingNumbers files format <->
  exists file ds, file ∈ files /\
    Js.endsWith file ("." +:+ extOf format) = true /\
    Js.match_lit_digits (Js.chars "chapter-") (Js.chars file) = Some ds /\
    Js.digits_val ds = n.
Proof.
  unfold existingNumbers. rewrite existingNumbers_from.
  split; [intros [H|H]; [by apply not_elem_of_empty in H|done]|auto].
Qed.

Lemma get_put_file name f l : get_file name (put_file name f l) = Some f.
Proof.
  induction l as [|[n g] r IH]; cbn.
  - by rewrite String.eqb_refl.
  - destruct (String.eqb n name) eqn:E; cbn; by rewrite E.
Qed.

Lemma get_put_file_other name name' f l :
  name' <> name -> get_file name' (put_file name f l) = get_file name' l.
Proof.
  intros Hne. induction l as [|[n g] r IH]; cbn.
  - destruct (String.eqb_spec name name'); [congruence|done].
  - destruct (String.eqb_spec n name) as [->|Hn]; cbn.
    + destruct (String.eqb_spec name name'); [congruence|done].
    + by rewrite IH.
Qed.

Lemma get_file_listed name l f :
  get_file name l = Some f -> name ∈ map fst l.
Proof.
  induction l as [|[n g] r IH]; cbn; [done|].
  destruct (String.eqb_spec n name) as [->|Hn]; intros H.
  - apply elem_of_cons. auto.
  - apply elem_of_cons. auto.
Qed.

(** What a call of [saveChapter] that returns has done. *)
Lemma saveChapter_success w chapter slug outputDir format s p s' t :
  saveChapter w chapter slug outputDir format s = (Ret p, s', t) ->
  let dir := path_join outputDir (sanitizeFileName slug) in
  exists name,
    chapterFileName chapter format = Ret name /\
    p = (sanitizeFileName slug, path_join (path_join dir "chapters") name) /\
    fs s' =
      <[dir := withChapterFile name
                 (if String.eqb format "json" then FChapter chapter
                  else FText (title chapter +:+ newline +:+ newline
                              +:+ text (content chapter)))
                 (default empty_dir (fs s !! dir))]> (fs s).
Proof.
  intros H dir. unfold saveChapter in H. fold dir in H.
  rewrite bind_run in H. unfold ensureChaptersDir, modify in H. cbn [fst snd] in H.
  destruct (chapterFileName chapter format) as [name|msg]; [|done].
  exists name. split; [done|].
  rewrite bind_run in H.
  set (d := default empty_dir (fs s !! dir)) in *.
  destruct (String.eqb format "json");
    unfold writeIn in H; cbn [fs set_fs] in H;
    rewrite lookup_insert_eq in H; cbn in H;
    destruct (disk_error w (nwrite s)); try done;
    injection H as <- <- <-; cbn; by rewrite insert_insert_eq.
Qed.

(** The number of a saved chapter can be read off the chapter directory
    of the sanitized slug. *)
Lemma saveChapter_number_on_disk w chapter slug outputDir format n s p s' t :
  number chapter = Some n -> 0 < n <= MAX_SAFE_INTEGER ->
  saveChapter w chapter slug outputDir format s = (Ret p, s', t) ->
  n ∈ existingOn (fs s') (sanitizeFileName slug) outputDir format.
Proof.
  intros Hn Hpos Hsave.
  destruct (saveChapter_success _ _ _ _ _ _ _ _ _ Hsave) as (name & Hname & _ & Hfs).
  rewrite (chapterFileName_numbered _ _ n) in Hname by (done || lia).
  injection Hname as <-.
  unfold existingOn, readChaptersDir. rewrite Hfs, lookup_insert_eq. cbn.
  apply existingNumbers_spec.
  destruct (chapter_name_read_back n (extOf format) ltac:(lia))
    as (He & ds & Hm & Hv).
  eexists _, ds. repeat split; eauto.
  eapply get_file_listed, get_put_file.
Qed.

(** X1.  A chapter with a positive number, no more than
    [Number.MAX_SAFE_INTEGER], that [saveChapter] has saved is found by
    [getExistingChapters] under the sanitized slug: its number is in the
    set read off the file names. *)
Theorem saved_chapter_is_found w chapter slug outputDir format n s p s' t :
  number chapter = Some n -> 0 < n <= MAX_SAFE_INTEGER ->
  saveChapter w chapter slug outputDir format s = (Ret p, s', t) ->
  exists existing,
    getExistingChapters (sanitizeFileName slug) outputDir format s'
      = (Ret existing, s', []) /\
    n ∈ existing.
Proof.
  intros Hn Hpos Hsave. eexists. split; [reflexivity|].
  by eapply saveChapter_number_on_disk.
Qed.

(** X2.  A call of [saveChapter] that returns has put the chapter in its
    file and has left everything else as it was: the other chapter files
    of the story, its [info.json], [story.json] and [errors.log], and the
    other story directories. *)
Theorem saveChapter_writes_one_file w chapter slug outputDir format s p s' t :
  saveChapter w chapter slug outputDir format s = (Ret p, s', t) ->
  let dir := path_join outputDir (sanitizeFileName slug) in
  let before := default empty_dir (fs s !! dir) in
  exists name after,
    chapterFileName chapter format = Ret name /\
    p.2 = path_join (path_join dir "chapters") name /\
    fs s' !! dir = Some after /\
    (chapters_dir after ≫= get_file name) =
      Some (if String.eqb format "json" then FChapter chapter
            else FText (title chapter +:+ newline +:+ newline
                        +:+ text (content chapter))) /\
    (forall other, other <> name ->
       chapters_dir after ≫= get_file other =
       get_file other (default [] (chapters_dir before))) /\
    info_json after = info_json before /\
    story_json after = story_json before /\
    errors_log after = errors_log before /\
    (forall dir', dir' <> dir -> fs s' !! dir' = fs s !! dir').
Proof.
  intros Hsave dir before.
  destruct (saveChapter_success _ _ _ _ _ _ _ _ _ Hsave) as (name & Hname & -> & Hfs).
  fold dir before in Hfs.
  exists name, (withChapterFile name
                  (if String.eqb format "json" then FChapter chapter
                   else FText (title chapter +:+ newline +:+ newline
                               +:+ text (content chapter))) before).
  rewrite Hfs. repeat split; try done.
  - by rewrite lookup_insert_eq.
  - cbn. apply get_put_file.
  - intros other Hne. cbn. by apply get_put_file_other.
  - intros dir' Hne. by rewrite lookup_insert_ne.
Qed.

(** X3.  Once [saveChapter] has returned, [chapterExists] answers [true]
    for the same chapter, slug, directory and format. *)
Theorem chapterExists_after_saveChapter w chapter slug outputDir format s p s' t :
  saveChapter w chapter slug outputDir format s = (Ret p, s', t) ->
  chapterExists chapter slug outputDir format s' = (Ret true, s', []).
Proof.
  intros Hsave.
  destruct (saveChapter_success _ _ _ _ _ _ _ _ _ Hsave) as (name & Hname & _ & Hfs).
  unfold chapterExists. rewrite bind_run. cbn [get_st].
  rewrite Hfs, lookup_insert_eq. cbn [mbind option_bind withChapterFile chapters_dir].
  rewrite Hname, get_put_file.
  by rewrite bool_decide_eq_true_2 by eauto.
Qed.

Lemma saved_chapter_is_found_witness :
  let run := saveChapter site13 (sampleChapter 7) "abc" "./output" "json" (init_St ∅) in
  exists existing,
    getExistingChapters (sanitizeFileName "abc") "./output" "json" (st_of run)
      = (Ret existing, st_of run, []) /\
    7 ∈ existing.
Proof.
  intros run.
  apply (saved_chapter_is_found site13 (sampleChapter 7) "abc" "./output" "json" 7
           (init_St ∅) ("abc", "./output/abc/chapters/chapter-00007.json")
           (st_of run) (trace_of run)).
  - reflexivity.
  - by vm_compute.
  - vm_compute. reflexivity.
Defined.

Lemma saveChapter_writes_one_file_witness :
  let run := saveChapter site13 (sampleChapter 7) "abc" "./output" "json" (init_St ∅) in
  exists name after,
    chapterFileName (sampleChapter 7) "json" = Ret name /\
    "./output/abc/chapters/chapter-00007.json"
      = path_join (path_join (path_join "./output" (sanitizeFileName "abc")) "chapters") name /\
    fs (st_of run) !! path_join "./output" (sanitizeFileName "abc") = Some after /\
    (chapters_dir after ≫= get_file name) = Some (FChapter (sampleChapter 7)) /\
    (forall other, other <> name ->
       chapters_dir after ≫= get_file other = None) /\
    info_json after = None /\ story_json after = None /\ errors_log after = [] /\
    (forall dir', dir' <> path_join "./output" (sanitizeFileName "abc") ->
       fs (st_of run) !! dir' = None).
Proof.
  intros run.
  refine (saveChapter_writes_one_file site13 (sampleChapter 7) "abc" "./output" "json"
            (init_St ∅) ("abc", "./output/abc/chapters/chapter-00007.json")
            (st_of run) (trace_of run) _).
  vm_compute. reflexivity.
Defined.

Lemma chapterExists_after_saveChapter_witness :
  let run := saveChapter site13 (sampleChapter 7) "abc" "./output" "json" (init_St ∅) in
  chapterExists (sampleChapter 7) "abc" "./output" "json" (st_of run)
    = (Ret true, st_of run, []).
Proof.
  intros run.
  apply (chapterExists_after_saveChapter site13 (sampleChapter 7) "abc" "./output"
           "json" (init_St ∅) ("abc", "./output/abc/chapters/chapter-00007.json")
           (st_of run) (trace_of run)).
  vm_compute. reflexivity.
Defined.

(** ** Chapter numbers in addresses *)

Ltac not_listed :=
  let H := fresh in
  vm_compute; intros H;
  repeat (apply elem_of_cons in H as [H|H]; [discriminate H|]);
  by apply elem_of_nil in H.

Lemma slash_not_in_chuong : "/"%char ∉ Js.chars "chuong-".
Proof. not_listed. Qed.

Lemma match_lit_digits_skip p lit c l :
  Ascii.eqb p c = false ->
  Js.match_lit_digits (p :: lit) (c :: l) = Js.match_lit_digits (p :: lit) l.
Proof. intros H. cbn [Js.match_lit_digits Js.strip_prefix]. by rewrite H. Qed.

Lemma strip_prefix_sep lit c rest : forall a,
  c ∉ lit ->
  Js.strip_prefix lit (a ++ c :: rest)
  = (fun r => r ++ c :: rest) <$> Js.strip_prefix lit a.
Proof.
  induction lit as [|p lit IH]; intros a Hc; [done|].
  apply not_elem_of_cons in Hc as [Hpc Hc].
  destruct a as [|x a]; cbn.
  - destruct (Ascii.eqb_spec p c); [congruence|done].
  - destruct (Ascii.eqb p x); [by apply IH|done].
Qed.

Lemma take_digits_sep ds c rest :
  Js.is_digit c = false -> Js.take_digits (ds ++ c :: rest) = Js.take_digits ds.
Proof.
  intros Hc. induction ds as [|d ds IH]; cbn [app Js.take_digits].
  - by rewrite Hc.
  - destruct (Js.is_digit d); [by rewrite IH|done].
Qed.

(** A character that is neither a digit nor in the literal separates the
    matches before it from those after it. *)
Lemma match_lit_digits_sep lit a c rest :
  lit <> [] -> c ∉ lit -> Js.is_digit c = false ->
  Js.match_lit_digits lit (a ++ c :: rest) =
    match Js.match_lit_digits lit a with
    | Some ds => Some ds
    | None => Js.match_lit_digits lit (c :: rest)
    end.
Proof.
  intros Hlit Hc Hdig. induction a as [|x a IH].
  - destruct lit; done.
  - cbn [app Js.match_lit_digits].
    change (x :: a ++ c :: rest) with ((x :: a) ++ c :: rest).
    rewrite strip_prefix_sep by done.
    destruct (Js.strip_prefix lit (x :: a)) as [r|]; cbn [fmap option_fmap option_map].
    + rewrite take_digits_sep by done.
      destruct (Js.take_digits r); [exact IH|done].
    + exact IH.
Qed.

Lemma match_lit_digits_pre p lit pre l :
  Forall (fun c => Ascii.eqb p c = false) pre ->
  Js.match_lit_digits (p :: lit) (pre ++ l) = Js.match_lit_digits (p :: lit) l.
Proof.
  induction 1 as [|c pre Hc _ IH]; [done|].
  cbn [app]. by rewrite match_lit_digits_skip.
Qed.

Lemma chapterNumberOf_baseUrl href :
  chapterNumberOf ("https://truyenfull.vision" +:+ href) = chapterNumberOf href.
Proof.
  unfold chapterNumberOf. rewrite chars_app.
  change (Js.chars "chuong-") with ("c"%char :: Js.chars "huong-").
  rewrite match_lit_digits_pre; [done|].
  repeat (constructor; [reflexivity|]). constructor.
Qed.

(** X4.  The number that a listing gives a chapter link is the number that
    [getChapterContent] reads off the address it fetches for that link. *)
Theorem listing_number_is_chapter_number o_delay o_retries o_timeout index a r :
  let cr := TruyenFullCrawler o_delay o_retries o_timeout in
  refOfAnchor cr index a = Some r ->
  chapterNumberOf (ref_url r) = ref_number r /\
  forall w s chapter s' t,
    getChapterContent w cr (ref_url r) s = (Ret chapter, s', t) ->
    number chapter = ref_number r.
Proof.
  intros cr Hr.
  assert (E : chapterNumberOf (ref_url r) = ref_number r).
  { unfold refOfAnchor in Hr. destruct (a_href a) as [href|]; [|done].
    destruct (String.eqb href ""); [done|]. injection Hr as <-. cbn.
    destruct (Js.startsWith href "http"); [done|].
    apply chapterNumberOf_baseUrl. }
  split; [done|]. intros w s chapter s' t H.
  apply getChapterContent_order in H as [_ ->]. done.
Qed.

Lemma listing_number_is_chapter_number_witness :
  let r := refTo 1 in
  chapterNumberOf (ref_url r) = ref_number r /\
  forall w s chapter s' t,
    getChapterContent w (TruyenFullCrawler None None None) (ref_url r) s
      = (Ret chapter, s', t) ->
    number chapter = ref_number r.
Proof.
  intros r.
  apply (listing_number_is_chapter_number None None None 0 (anchorTo "/abc/chuong-1/")).
  reflexivity.
Defined.

Lemma match_lit_digits_strip lit s :
  lit <> [] -> "/"%char ∉ lit ->
  Js.match_lit_digits lit (Js.chars s) = None ->
  Js.match_lit_digits lit (Js.chars (Js.strip_trailing_slash s)) = None.
Proof.
  intros Hlit Hc H. unfold Js.strip_trailing_slash.
  destruct (rev (Js.chars s)) as [|c r] eqn:E; [done|].
  destruct (Ascii.eqb_spec c "/") as [->|Hne].
  - rewrite chars_str.
    assert (E' : Js.chars s = rev r ++ ["/"%char]).
    { by rewrite <- (rev_involutive (Js.chars s)), E. }
    rewrite E', match_lit_digits_sep in H by done.
    by destruct (Js.match_lit_digits lit (rev r)).
  - destruct c as [[] [] [] [] [] [] [] []]; try done.
Qed.

(** X5.  The address that the retry script builds for chapter [n] of a
    story, for [n] from [0] to [Number.MAX_SAFE_INTEGER], carries the
    number [n], so the chapter fetched from it is chapter [n]; the address
    of the story must not itself hold [chuong-<digits>]. *)
Theorem constructChapterUrl_number storyUrl n :
  chapterNumberOf storyUrl = None -> 0 <= n <= MAX_SAFE_INTEGER ->
  chapterNumberOf (Retry.constructChapterUrl storyUrl n) = Some n /\
  forall w cr s chapter s' t,
    getChapterContent w cr (Retry.constructChapterUrl storyUrl n) s
      = (Ret chapter, s', t) ->
    number chapter = Some n.
Proof.
  intros Hurl [Hn _].
  assert (E : chapterNumberOf (Retry.constructChapterUrl storyUrl n) = Some n).
  { unfold chapterNumberOf in *. unfold Retry.constructChapterUrl.
    destruct (toString_digits n Hn) as (Hd & Hne & Hv).
    rewrite !chars_app.
    change (Js.chars "/chuong-") with ("/"%char :: Js.chars "chuong-").
    rewrite <- ?app_assoc. cbn [app].
    rewrite match_lit_digits_sep by (done || apply slash_not_in_chuong).
    rewrite match_lit_digits_strip; [|done|apply slash_not_in_chuong|].
    - change (Js.chars "chuong-") with ("c"%char :: Js.chars "huong-") at 1.
      rewrite match_lit_digits_skip by reflexivity.
      change ("c"%char :: Js.chars "huong-") with (Js.chars "chuong-").
      rewrite match_lit_digits_here by done. by rewrite Hv.
    - by destruct (Js.match_lit_digits _ (Js.chars storyUrl)). }
  split; [done|]. intros w cr s chapter s' t H.
  apply getChapterContent_order in H as [_ ->]. done.
Qed.

Lemma constructChapterUrl_number_witness :
  chapterNumberOf (Retry.constructChapterUrl "https://truyenfull.vision/abc/" 12)
    = Some 12 /\
  forall w cr s chapter s' t,
    getChapterContent w cr
      (Retry.constructChapterUrl "https://truyenfull.vision/abc/" 12) s
      = (Ret chapter, s', t) ->
    number chapter = Some 12.
Proof.
  apply (constructChapterUrl_number "https://truyenfull.vision/abc/" 12);
    [reflexivity|by vm_compute].
Defined.

(** ** The slug of a story *)

Lemma remove_first_app pat rest : Js.remove_first pat (pat ++ rest) = rest.
Proof.
  destruct (pat ++ rest) as [|c l] eqn:E.
  - by destruct pat, rest.
  - cbn [Js.remove_first]. by rewrite <- E, strip_prefix_app.
Qed.

Lemma split_slash_segment seg rest : forall cur,
  "/"%char ∉ seg ->
  Js.split_slash cur (seg ++ rest) = Js.split_slash (rev seg ++ cur) rest.
Proof.
  induction seg as [|c seg IH]; intros cur Hs; [done|].
  apply not_elem_of_cons in Hs as [Hc Hs].
  cbn [app Js.split_slash]. destruct (Ascii.eqb_spec c "/"); [congruence|].
  rewrite IH by done. cbn [rev]. by rewrite <- app_assoc.
Qed.

(** X6.  The slug of [<baseUrl>/<name>], with or without more path after
    the name, is [name]. *)
Theorem slugOf_canonical cr name tail :
  name <> "" -> "/"%char ∉ Js.chars name ->
  tail = "" \/ (exists rest, tail = "/" +:+ rest) ->
  slugOf cr (baseUrl cr +:+ "/" +:+ name +:+ tail) = name.
Proof.
  intros Hne Hs Htail. unfold slugOf.
  rewrite !chars_app, remove_first_app.
  change (Js.chars "/") with ["/"%char]. cbn [app Js.split_slash].
  change (Ascii.eqb "/" "/") with true. cbv iota.
  rewrite split_slash_segment by done. rewrite app_nil_r.
  assert (Hname : Js.chars name <> []).
  { intros E. apply Hne. by rewrite <- (str_chars name), E. }
  assert (Hhead : exists l, Js.split_slash (rev (Js.chars name)) (Js.chars tail)
                            = Js.chars name :: l).
  { destruct Htail as [->|[rest ->]].
    - exists []. cbn. by rewrite rev_involutive.
    - eexists. rewrite chars_app. change (Js.chars "/") with ["/"%char].
      cbn [app Js.split_slash].
      change (Ascii.eqb "/" "/") with true. cbv iota.
      by rewrite rev_involutive. }
  destruct Hhead as [l ->]. cbn [rev].
  rewrite filter_cons_False by (intros H; by apply H).
  rewrite filter_cons_True by done. apply str_chars.
Qed.

Lemma slugOf_canonical_witness :
  slugOf (TruyenFullCrawler None None None)
    ("https://truyenfull.vision" +:+ "/" +:+ "pham-nhan-tu-tien" +:+ "/trang-2/")
  = "pham-nhan-tu-tien".
Proof.
  apply (slugOf_canonical (TruyenFullCrawler None None None) "pham-nhan-tu-tien"
           "/trang-2/").
  - discriminate.
  - not_listed.
  - right. by exists "trang-2/".
Defined.

(** ** File names *)

(** What [replace_runs] puts out is a character of the input or an
    underscore. *)
Lemma replace_runs_Forall (P : ascii -> Prop) p l :
  P "_"%char -> Forall P l -> Forall P (replace_runs p l).
Proof.
  intros Hu. induction 1 as [|c r Hc Hr IH]; cbn [replace_runs]; [constructor|].
  destruct (p c).
  - destruct r as [|c' r']; [by repeat constructor|].
    destruct (p c'); [exact IH|by constructor].
  - by constructor.
Qed.

(** No character of the class is left, when the underscore is not one. *)
Lemma replace_runs_none p l :
  p "_"%char = false -> Forall (fun c => p c = false) (replace_runs p l).
Proof.
  intros Hu. induction l as [|c r IH]; cbn [replace_runs]; [constructor|].
  destruct (p c) eqn:Hc.
  - destruct r as [|c' r']; [by repeat constructor|].
    destruct (p c'); [exact IH|by constructor].
  - by constructor.
Qed.

Lemma replace_runs_id p l :
  Forall (fun c => p c = false) l -> replace_runs p l = l.
Proof.
  induction 1 as [|c r Hc _ IH]; cbn [replace_runs]; [done|].
  by rewrite Hc, IH.
Qed.

(** After [.replace(/_+/g, '_')] no underscore follows an underscore. *)
Lemma replace_runs_underscores l a b :
  replace_runs (Ascii.eqb "_"%char) l <> a ++ "_"%char :: "_"%char :: b.
Proof.
  revert a. induction l as [|c r IH]; intros a; cbn [replace_runs].
  - by destruct a.
  - destruct (Ascii.eqb_spec "_"%char c) as [<-|Hc].
    + destruct r as [|c' r']; [destruct a as [|? [|? ?]]; done|].
      destruct (Ascii.eqb_spec "_"%char c') as [<-|Hc']; [apply IH|].
      destruct a as [|x a]; cbn [app].
      * cbn [replace_runs] in *.
        destruct (Ascii.eqb_spec "_"%char c'); [done|]. congruence.
      * intros [= <- H]. by apply IH in H.
    + destruct a as [|x a]; cbn [app]; [congruence|].
      intros [= <- H]. by apply IH in H.
Qed.

Lemma replace_runs_underscores_id l :
  (forall a b, l <> a ++ "_"%char :: "_"%char :: b) ->
  replace_runs (Ascii.eqb "_"%char) l = l.
Proof.
  induction l as [|c r IH]; intros H; cbn [replace_runs]; [done|].
  assert (Hr : forall a b, r <> a ++ "_"%char :: "_"%char :: b).
  { intros a b E. apply (H (c :: a) b). by rewrite E. }
  destruct (Ascii.eqb_spec "_"%char c) as [<-|Hc].
  - destruct r as [|c' r']; [done|].
    destruct (Ascii.eqb_spec "_"%char c') as [<-|Hc'].
    + by destruct (H [] r').
    + by rewrite IH.
  - by rewrite IH.
Qed.

Lemma replaced_chars_valid s :
  Forall (fun c => is_invalid_char c = false)
    (map (fun c => if is_invalid_char c then "_"%char else c) (Js.chars s)).
Proof.
  apply Forall_map, Forall_forall. intros c _. cbn beta.
  by destruct (is_invalid_char c) eqn:E.
Qed.

Lemma sanitizeFileName_chars s :
  let out := Js.chars (sanitizeFileName s) in
  Forall (fun c => is_invalid_char c = false) out /\
  Forall (fun c => Js.is_space c = false) out /\
  forall a b, out <> a ++ "_"%char :: "_"%char :: b.
Proof.
  unfold sanitizeFileName. rewrite chars_str. repeat split.
  - do 2 (apply replace_runs_Forall; [done|]). apply replaced_chars_valid.
  - apply replace_runs_Forall; [done|]. by apply replace_runs_none.
  - apply replace_runs_underscores.
Qed.

Lemma sanitizeFileName_ascii s :
  ascii_only s -> ascii_only (sanitizeFileName s).
Proof.
  unfold ascii_only, sanitizeFileName. intros H. rewrite chars_str.
  do 2 (apply replace_runs_Forall; [vm_compute; lia|]).
  apply Forall_map. eapply Forall_impl; [exact H|].
  intros c Hc. cbn beta. destruct (is_invalid_char c); [vm_compute; lia|done].
Qed.

(** X7.  For a name of ASCII characters, the sanitized name is made of
    ASCII characters too and holds none of the nine characters that
    [sanitizeFileName] replaces, no white space, and no two underscores in
    a row. *)
Theorem sanitizeFileName_clean s :
  ascii_only s ->
  Forall (fun c => (nat_of_ascii c < 128)%nat /\
                   is_invalid_char c = false /\ Js.is_space c = false)
    (Js.chars (sanitizeFileName s)) /\
  forall a b, Js.chars (sanitizeFileName s) <> a ++ "_"%char :: "_"%char :: b.
Proof.
  intros Hs. destruct (sanitizeFileName_chars s) as (H1 & H2 & H3).
  pose proof (sanitizeFileName_ascii s Hs) as H0. unfold ascii_only in H0.
  split; [|done].
  rewrite Forall_forall in H0, H1, H2. apply Forall_forall. auto.
Qed.

Lemma sanitizeFileName_clean_witness :
  sanitizeFileName "a  b__c?d" = "a_b_c_d" /\
  Forall (fun c => (nat_of_ascii c < 128)%nat /\
                   is_invalid_char c = false /\ Js.is_space c = false)
    (Js.chars (sanitizeFileName "a  b__c?d")) /\
  forall a b,
    Js.chars (sanitizeFileName "a  b__c?d") <> a ++ "_"%char :: "_"%char :: b.
Proof.
  split; [reflexivity|].
  apply (sanitizeFileName_clean "a  b__c?d").
  unfold ascii_only. vm_compute. repeat (constructor; [lia|]). constructor.
Defined.

Lemma replaced_chars_id l :
  Forall (fun c => is_invalid_char c = false) l ->
  map (fun c => if is_invalid_char c then "_"%char else c) l = l.
Proof. induction 1 as [|c r Hc _ IH]; cbn [map]; [done|]. by rewrite Hc, IH. Qed.

(** X8.  Sanitizing a sanitized name changes nothing, so the directory of
    a story is the same whether its slug is sanitized once or twice. *)
Theorem sanitizeFileName_idempotent s :
  sanitizeFileName (sanitizeFileName s) = sanitizeFileName s.
Proof.
  destruct (sanitizeFileName_chars s) as (H1 & H2 & H3). cbn zeta in *.
  unfold sanitizeFileName at 1.
  rewrite (replaced_chars_id _ H1), (replace_runs_id _ _ H2).
  rewrite (replace_runs_underscores_id _ H3).
  apply str_chars.
Qed.

(** ** The chapters that a crawl visits *)

Lemma inRange_spec o r :
  inRange o r = true <->
  forall n, ref_number r = Some n ->
    (forall a, startChapter o = Some a -> a <> 0 -> a <= n) /\
    (forall b, endChapter o = Some b -> b <> 0 -> n <= b).
Proof.
  unfold inRange, isBelow, isAbove, Js.truthy, Js.or_num.
  destruct (ref_number r) as [n|]; [|by split].
  split.
  - intros H n' [= <-].
    destruct (startChapter o) as [a|], (endChapter o) as [b|]; cbn in H;
      repeat match type of H with
             | context [?x =? 0] => destruct (Z.eqb_spec x 0); cbn in H
             | context [?x <? ?y] => destruct (Z.ltb_spec x y); cbn in H
             end; try discriminate;
      split; intros ? [= <-] ?; lia || congruence.
  - intros H. destruct (H n eq_refl) as [Ha Hb].
    destruct (startChapter o) as [a|], (endChapter o) as [b|]; cbn;
      repeat match goal with
             | |- context [?x =? 0] => destruct (Z.eqb_spec x 0); cbn
             | |- context [?x <? ?y] => destruct (Z.ltb_spec x y); cbn
             end; try done;
      try (specialize (Ha _ eq_refl)); try (specialize (Hb _ eq_refl)); lia.
Qed.

Lemma rangeFilter_spec o refs r :
  r ∈ rangeFilter o refs <-> r ∈ refs /\ inRange o r = true.
Proof.
  unfold rangeFilter.
  destruct (Js.truthy (startChapter o) || Js.truthy (endChapter o)) eqn:E.
  - by rewrite !list_elem_of_In, List.filter_In.
  - apply orb_false_elim in E as [Ea Eb].
    split; [|by intros [? _]]. intros H. split; [done|].
    unfold inRange, isBelow, isAbove. rewrite Ea, Eb. by destruct (ref_number r).
Qed.

(** The references that pass both filters are those of the listing that
    have no number, or whose number is within the bounds given (a bound of
    [0] is no bound) and is not among the existing chapters. *)
Lemma chaptersToCrawlOf_spec o refs r :
  r ∈ chaptersToCrawlOf o refs <->
  r ∈ refs /\
  forall n, ref_number r = Some n ->
    (forall a, startChapter o = Some a -> a <> 0 -> a <= n) /\
    (forall b, endChapter o = Some b -> b <> 0 -> n <= b) /\
    (forall existing, existingChapters o = Some existing -> n ∉ existing).
Proof.
  unfold chaptersToCrawlOf.
  assert (Hrange : r ∈ rangeFilter o refs <->
            r ∈ refs /\ forall n, ref_number r = Some n ->
              (forall a, startChapter o = Some a -> a <> 0 -> a <= n) /\
              (forall b, endChapter o = Some b -> b <> 0 -> n <= b)).
  { by rewrite rangeFilter_spec, inRange_spec. }
  destruct (existingChapters o) as [existing|] eqn:He.
  - rewrite (resumeFilter_spec _ existing) by done. rewrite Hrange. split.
    + intros [[Hin Hr] Hex]. split; [done|]. intros n Hn.
      destruct (Hr n Hn). split; [done|]. split; [done|].
      intros ? [= <-]. auto.
    + intros [Hin H]. split; [split; [done|]|].
      * intros n Hn. destruct (H n Hn) as (? & ? & ?). split; auto.
      * intros n Hn. destruct (H n Hn) as (? & ? & Hex). eauto.
  - unfold resumeFilter. rewrite He, Hrange. split.
    + intros [Hin Hr]. split; [done|]. intros n Hn.
      destruct (Hr n Hn). split; [done|]. split; [done|]. done.
    + intros [Hin H]. split; [done|]. intros n Hn.
      destruct (H n Hn) as (? & ? & ?). auto.
Qed.

(** Both filters keep the order of the listing. *)
Lemma chaptersToCrawlOf_sublist o refs :
  sublist (chaptersToCrawlOf o refs) refs.
Proof.
  assert (Hf : forall (p : ChapterRef -> bool) l, sublist (List.filter p l) l).
  { intros p l. induction l as [|x l IH]; cbn; [done|].
    destruct (p x); by constructor. }
  unfold chaptersToCrawlOf, resumeFilter, rangeFilter.
  destruct (existingChapters o) as [existing|];
    [destruct (0 <? size existing)%nat|];
    destruct (Js.truthy (startChapter o) || Js.truthy (endChapter o));
    try done; try apply Hf.
  etrans; apply Hf.
Qed.

(** *** What the chapter loop prints and requests *)

Lemma crawlingLines_app t1 t2 :
  crawlingLines (t1 ++ t2) = crawlingLines t1 ++ crawlingLines t2.
Proof. apply omap_app. Qed.

Lemma crawlingLines_line i total title t :
  crawlingLines (EvLog (LCrawling i total title) :: t)
  = (i, total, title) :: crawlingLines t.
Proof. reflexivity. Qed.

#[export] Instance fetches_stepwise P : Stepwise (fetches P).
Proof.
  split.
  - intros s. split; [done|constructor].
  - intros s1 s2 s3 t1 t2 [L1 R1] [L2 R2]. split.
    + by rewrite crawlingLines_app, L1, L2.
    + by apply Forall_app.
Qed.

Lemma fetches_weaken (P Q : string -> Prop) {A} (m : M A) :
  (forall u, P u -> Q u) -> respects (fetches P) m -> respects (fetches Q) m.
Proof.
  intros HPQ. apply respects_weaken. intros s s' t [L R]. split; [done|].
  eapply Forall_impl; [exact R|]. intros []; auto.
Qed.

Lemma linesFrom_titles total todo : forall i,
  map (fun l : Z * Z * string => l.2) (linesFrom total i todo) = map ref_title todo.
Proof. induction todo as [|r rest IH]; intros i; cbn; [done|]. by rewrite IH. Qed.

Lemma linesFrom_indices total todo : forall i,
  map (fun l : Z * Z * string => l.1.1) (linesFrom total i todo)
  = seqZ (i + 1) (Z.of_nat (List.length todo)).
Proof.
  induction todo as [|r rest IH]; intros i; [done|].
  cbn [linesFrom map List.length]. rewrite IH, Nat2Z.inj_succ.
  rewrite (seqZ_cons (i + 1) (Z.succ (Z.of_nat (List.length rest)))) by lia.
  cbn [fst]. do 2 f_equal; lia.
Qed.

Section Visits.
Context (w : World).

Lemma attempt_fetches u : respects (fetches (eq u)) (attempt w u).
Proof. intros s. split; [done|]. by repeat constructor. Qed.

Lemma delay_fetches P ms : respects (fetches P) (delay ms).
Proof. intros s. split; [done|]. by repeat constructor. Qed.

Lemma log_fetches P l :
  crawlingLines [EvLog l] = [] -> respects (fetches P) (log l).
Proof. intros H s. split; [exact H|]. by repeat constructor. Qed.

Lemma modify_fetches P f : respects (fetches P) (modify f).
Proof. intros s. split; [done|constructor]. Qed.

Lemma writeIn_fetches P dir path d update :
  respects (fetches P) (writeIn w dir path d update).
Proof.
  intros s. unfold writeIn.
  destruct (fs s !! dir ≫= update); [|apply step_refl].
  destruct (disk_error w (nwrite s)); split; cbn; try done;
    by repeat constructor.
Qed.

Hint Resolve attempt_fetches delay_fetches modify_fetches writeIn_fetches : steps.
Hint Extern 1 (respects (fetches _) (log _)) =>
  apply log_fetches; reflexivity : steps.

Lemma fetchPage_from_fetches cr u budget :
  forall rc, respects (fetches (eq u)) (fetchPage_from w cr u budget rc).
Proof. induction budget; intros rc; cbn [fetchPage_from]; steps. Qed.
Hint Resolve fetchPage_from_fetches : steps.

Lemma getChapterContent_fetches cr u :
  respects (fetches (eq u)) (getChapterContent w cr u).
Proof. unfold getChapterContent, fetchPage. steps. Qed.

Lemma onChapterCrawled_fetches P options storyInfo existing chapter :
  respects (fetches P) (onChapterCrawled_main w options storyInfo existing chapter).
Proof.
  unfold onChapterCrawled_main, saveChapter, updateStoryJson, pushCrawled,
    ensureChaptersDir.
  steps.
Qed.

Lemma onError_fetches P options storyInfo errorInfo :
  respects (fetches P) (onError_main w options storyInfo errorInfo).
Proof. unfold onError_main, ensureStoryDir. steps. Qed.

Lemma onProgress_fetches P a b c : respects (fetches P) (onProgress_main a b c).
Proof. unfold onProgress_main. steps. Qed.

(** One round of the chapter loop, after its [Crawling] line: it prints no
    such line and requests the address of its reference only. *)
Lemma crawlLoop_visits cr options storyInfo existing total todo :
  forall i s res s' t,
    crawlLoop w cr (crawlOptionsOf w options storyInfo existing) total i todo s
      = (res, s', t) ->
    exists k, (k <= List.length todo)%nat /\
      crawlingLines t = linesFrom total i (take k todo) /\
      (res = Ret tt -> k = List.length todo) /\
      requests_only (fun u => exists r, r ∈ todo /\ u = ref_url r) t.
Proof.
  induction todo as [|r0 rest IH]; intros i s res s' t H.
  - injection H as <- <- <-. exists 0%nat. repeat split; try done. constructor.
  - cbn [crawlLoop] in H. rewrite bind_run in H. cbn [log emit] in H.
    rewrite bind_run in H.
    match type of H with
    | context [try_catch ?m ?h s] =>
        assert (Hround : respects (fetches (eq (ref_url r0))) (try_catch m h));
        [|specialize (Hround s);
          destruct (try_catch m h s) as [[[[]|e] s1] t1]]
    end.
    { unfold call. cbn [crawlOptionsOf onChapterCrawled onError onProgress].
      pose proof getChapterContent_fetches.
      pose proof (onChapterCrawled_fetches (eq (ref_url r0))).
      pose proof (onError_fetches (eq (ref_url r0))).
      pose proof (onProgress_fetches (eq (ref_url r0))).
      steps. }
    + destruct Hround as [Hlines Hreq]. cbn [st_of trace_of fst snd] in *.
      destruct (crawlLoop w cr _ total (i + 1) rest s1) as [[r2 s2] t2] eqn:E.
      injection H as <- <- <-.
      apply IH in E as (k & Hk & Hl & Hret & Hr).
      exists (S k). split; [cbn; lia|]. split; [|split].
      * by rewrite crawlingLines_line, crawlingLines_app, Hlines, Hl.
      * intros Hres. cbn. by rewrite Hret.
      * cbn [app]. constructor; [done|]. apply Forall_app. split.
        -- eapply Forall_impl; [exact Hreq|]. intros [] ?; try done.
           exists r0. split; [apply elem_of_cons; auto|done].
        -- eapply Forall_impl; [exact Hr|]. intros [] ?; try done.
           destruct H as (r & Hin & ->). exists r.
           split; [apply elem_of_cons; auto|done].
    + destruct Hround as [Hlines Hreq]. cbn [st_of trace_of fst snd] in *.
      injection H as <- <- <-.
      exists 1%nat. split; [cbn; lia|]. split; [|split].
      * by rewrite crawlingLines_line, Hlines.
      * done.
      * cbn [app]. constructor; [done|].
        eapply Forall_impl; [exact Hreq|]. intros [] ?; try done.
        exists r0. split; [apply elem_of_cons; auto|done].
Qed.

Lemma net_no_lines s s' t : net_step s s' t -> crawlingLines t = [].
Proof.
  intros (F & _). induction F as [|e t He _ IH]; [done|].
  destruct e as [| | |l]; try done.
Qed.

(** A run of [crawlStory] whose listing was read: the effects of
    [getAllChapters], then those of the chapter loop over the references
    that pass the filters. *)
Lemma crawlStory_run cr u o s info chapters s0 t0 :
  getAllChapters w cr u s = (Ret (info, chapters), s0, t0) ->
  let todo := chaptersToCrawlOf o chapters in
  exists res s' tl,
    crawlLoop w cr o (Z.of_nat (List.length todo)) 0 todo
      (set_crawlv (fun _ => {| crawledChapters := []; crawledCount := 0 |}) s0)
      = (res, s', tl) /\
    trace_of (crawlStory w cr u o s) = t0 ++ tl /\
    crawlingLines t0 = [] /\
    ((exists result, res_of (crawlStory w cr u o s) = Ret result) -> res = Ret tt).
Proof.
  intros Hall todo.
  destruct (crawlLoop w cr o (Z.of_nat (List.length todo)) 0 todo
              (set_crawlv (fun _ => {| crawledChapters := []; crawledCount := 0 |})
                 s0)) as [[res s'] tl] eqn:E.
  exists res, s', tl. split; [done|].
  assert (Hnet : crawlingLines t0 = []).
  { pose proof (getAllChapters_net w cr u s) as Hn. rewrite Hall in Hn.
    by apply net_no_lines in Hn. }
  unfold crawlStory. rewrite try_run, bind_run, Hall. rewrite bind_run.
  cbn [modify]. rewrite bind_run. fold todo. rewrite E.
  destruct res as [[]|e]; cbv [mbind M_bind get_st mret M_ret throw]; cbn;
    rewrite ?app_nil_r; (split; [done|split; [done|]]); [done|].
  by intros [result Hr].
Qed.
End Visits.

(** X9.  Under the callbacks of [main], [crawlStory] visits, in turn and
    counting from 1, the references of the listing that have no number, or
    whose number is not below a non-zero start bound, not above a non-zero
    end bound and, outside force mode, not among the existing chapters: it
    prints the [Crawling] line of each of them, of all of them when it
    returns and of the first ones when an error ends it, and once the
    listing is read it requests the addresses of these references only. *)
Theorem crawlStory_visits w storyUrl options storyInfo existing s info chapters s0 t0 :
  let cr := crawlerOf options in
  let run := crawlStory w cr storyUrl (crawlOptionsOf w options storyInfo existing) s in
  getAllChapters w cr storyUrl s = (Ret (info, chapters), s0, t0) ->
  exists visited k,
    sublist visited chapters /\
    (forall r, r ∈ visited <->
       r ∈ chapters /\
       forall n, ref_number r = Some n ->
         (forall a, opt_startChapter options = Some a -> a <> 0 -> a <= n) /\
         (forall b, opt_endChapter options = Some b -> b <> 0 -> n <= b) /\
         (opt_force options = false -> n ∉ existing)) /\
    (k <= List.length visited)%nat /\
    crawlingLines (trace_of run)
      = linesFrom (Z.of_nat (List.length visited)) 0 (take k visited) /\
    ((exists result, res_of run = Ret result) ->
     crawlingLines (trace_of run) = linesOf visited) /\
    exists tl, trace_of run = t0 ++ tl /\
      requests_only (fun u => exists r, r ∈ visited /\ u = ref_url r) tl.
Proof.
  intros cr run Hall.
  set (o := crawlOptionsOf w options storyInfo existing) in *.
  destruct (crawlStory_run w cr storyUrl o s info chapters s0 t0 Hall)
    as (res & s' & tl & Hloop & Htrace & Ht0 & Hret).
  apply crawlLoop_visits in Hloop as (k & Hk & Hlines & Hall' & Hreq).
  exists (chaptersToCrawlOf o chapters), k.
  assert (E : crawlingLines (trace_of run)
              = linesFrom (Z.of_nat (List.length (chaptersToCrawlOf o chapters))) 0
                  (take k (chaptersToCrawlOf o chapters))).
  { subst run. by rewrite Htrace, crawlingLines_app, Ht0, Hlines. }
  split; [apply chaptersToCrawlOf_sublist|].
  split; [|split; [done|split; [done|split; [|by exists tl]]]].
  - intros r. rewrite chaptersToCrawlOf_spec. subst o.
    cbn [crawlOptionsOf startChapter endChapter existingChapters].
    split; intros [Hin H]; (split; [done|]); intros n Hn;
      destruct (H n Hn) as (Ha & Hb & He); (split; [done|split; [done|]]).
    + intros Hforce. apply He. by rewrite Hforce.
    + intros ex. destruct (opt_force options); [done|]. intros [= <-]. by apply He.
  - intros Hres. rewrite E, (Hall' (Hret Hres)). by rewrite firstn_all.
Qed.

Lemma crawlStory_visits_witness :
  let cr := crawlerOf defaultOptions in
  let options := with_startChapter (Some 2) defaultOptions in
  let run := crawlStory site13 cr root (crawlOptionsOf site13 options sampleInfo ∅)
               (init_St ∅) in
  let chapters := [refTo 1; {| ref_number := Some 3; ref_title := "/abc/chuong-3/";
                               ref_url := "https://truyenfull.vision/abc/chuong-3/";
                               ref_order := 1 |}] in
  crawlingLines (trace_of run) = [(1, 1, "/abc/chuong-3/")] /\
  exists visited k,
    sublist visited chapters /\
    (forall r, r ∈ visited <->
       r ∈ chapters /\
       forall n, ref_number r = Some n ->
         (forall a, opt_startChapter options = Some a -> a <> 0 -> a <= n) /\
         (forall b, opt_endChapter options = Some b -> b <> 0 -> n <= b) /\
         (opt_force options = false -> n ∉ (∅ : gset Z))) /\
    (k <= List.length visited)%nat /\
    crawlingLines (trace_of run)
      = linesFrom (Z.of_nat (List.length visited)) 0 (take k visited) /\
    ((exists result, res_of run = Ret result) ->
     crawlingLines (trace_of run) = linesOf visited) /\
    exists tl, trace_of run = trace_of (getAllChapters site13 cr root (init_St ∅)) ++ tl /\
      requests_only (fun u => exists r, r ∈ visited /\ u = ref_url r) tl.
Proof.
  intros cr options run chapters. split; [vm_compute; reflexivity|].
  refine (crawlStory_visits site13 root options sampleInfo ∅ (init_St ∅) sampleInfo
            chapters
            (st_of (getAllChapters site13 cr root (init_St ∅)))
            (trace_of (getAllChapters site13 cr root (init_St ∅))) _).
  vm_compute. reflexivity.
Defined.

(** X10.  Under the callbacks of [main], [crawlStory] visits the
    references in the order of the listing: the titles of its [Crawling]
    lines are a sub-sequence of the titles of the listing, and the lines
    count up from 1. *)
Theorem crawlStory_visits_in_listing_order
    w storyUrl options storyInfo existing s info chapters s0 t0 :
  let cr := crawlerOf options in
  let lines :=
    crawlingLines
      (trace_of (crawlStory w cr storyUrl
                   (crawlOptionsOf w options storyInfo existing) s)) in
  getAllChapters w cr storyUrl s = (Ret (info, chapters), s0, t0) ->
  sublist (map (fun l : Z * Z * string => l.2) lines) (map ref_title chapters) /\
  map (fun l : Z * Z * string => l.1.1) lines
    = seqZ 1 (Z.of_nat (List.length lines)).
Proof.
  intros cr lines Hall.
  set (o := crawlOptionsOf w options storyInfo existing) in *.
  destruct (crawlStory_run w cr storyUrl o s info chapters s0 t0 Hall)
    as (res & s' & tl & Hloop & Htrace & Ht0 & Hret).
  apply crawlLoop_visits in Hloop as (k & Hk & Hlines & _ & _).
  assert (E : lines
              = linesFrom (Z.of_nat (List.length (chaptersToCrawlOf o chapters))) 0
                  (take k (chaptersToCrawlOf o chapters))).
  { subst lines. by rewrite Htrace, crawlingLines_app, Ht0, Hlines. }
  rewrite E. split.
  - rewrite linesFrom_titles. apply fmap_sublist.
    etrans; [apply sublist_take|apply chaptersToCrawlOf_sublist].
  - rewrite linesFrom_indices. f_equal.
    assert (Hlen : forall total l i,
              List.length (linesFrom total i l) = List.length l).
    { intros total l. induction l; intros i; cbn; auto. }
    by rewrite Hlen.
Qed.

Lemma crawlStory_visits_in_listing_order_witness :
  let cr := crawlerOf defaultOptions in
  let lines :=
    crawlingLines
      (trace_of (crawlStory site123 cr root
                   (crawlOptionsOf site123 defaultOptions sampleInfo ∅)
                   (init_St ∅))) in
  let chapters := [refTo 1; refTo 2; refTo 3] in
  sublist (map (fun l : Z * Z * string => l.2) lines) (map ref_title chapters) /\
  map (fun l : Z * Z * string => l.1.1) lines
    = seqZ 1 (Z.of_nat (List.length lines)).
Proof.
  intros cr lines chapters.
  refine (crawlStory_visits_in_listing_order site123 root defaultOptions sampleInfo ∅
            (init_St ∅) sampleInfo chapters
            (st_of (getAllChapters site123 cr root (init_St ∅)))
            (trace_of (getAllChapters site123 cr root (init_St ∅))) _).
  vm_compute. reflexivity.
Defined.

(** ** The command line *)

(** A property of the options that every round of the option loop keeps,
    on arguments of a class [A], holds when the loop ends. *)
Lemma parseOptions_invariant (P : Options -> Prop) (A : string -> Prop) :
  (forall arg next o, A arg -> P o ->
     match parseArg arg next o with
     | Consumed o' | Single o' => P o'
     | ExitWith _ => True
     end) ->
  forall args o o', Forall A args -> P o -> parseOptions args o = inl o' -> P o'.
Proof.
  intros Hstep args.
  assert (H : forall n args, (List.length args <= n)%nat ->
            forall o o', Forall A args -> P o -> parseOptions args o = inl o' -> P o').
  { clear args. induction n as [|n IH]; intros args Hlen o o' HA HP Hrun.
    - destruct args; [|cbn in Hlen; lia]. by injection Hrun as <-.
    - destruct args as [|arg rest]; [by injection Hrun as <-|].
      apply Forall_cons in HA as [Harg HA].
      cbn [List.length] in Hlen. cbn [parseOptions] in Hrun.
      destruct rest as [|next rest'].
      + pose proof (Hstep arg None o Harg HP) as Hs.
        destruct (parseArg arg None o); by simplify_eq.
      + pose proof (Hstep arg (Some next) o Harg HP) as Hs.
        destruct (parseArg arg (Some next) o) as [o1|o1|c]; [| |done].
        * apply Forall_cons in HA as [_ HA].
          assert (Hl : (List.length rest' <= n)%nat) by (cbn [List.length] in *; lia).
          exact (IH rest' Hl o1 o' HA Hs Hrun).
        * assert (Hl : (List.length (next :: rest') <= n)%nat) by (cbn [List.length] in *; lia).
          exact (IH (next :: rest') Hl o1 o' HA Hs Hrun). }
  intros o o'. by apply (H (List.length args)).
Qed.



(** X11.  The options that [main] ends up with name a known format, and
    have [force] on only if [--force] is among the arguments. *)
Theorem parseOptions_format_and_force args options :
  parseOptions args defaultOptions = inl options ->
  (opt_format options = "json" \/ opt_format options = "txt") /\
  (opt_force options = true -> "--force" ∈ args).
Proof.
  intros Hrun. split.
  - apply (parseOptions_invariant
             (fun o => opt_format o = "json" \/ opt_format o = "txt")
             (fun _ => True))
      with (args := args) (o := defaultOptions); [| |by left|done].
    + intros arg next o _ Ho. unfold parseArg.
      repeat case_match; simplify_eq; cbn; try done.
      match goal with H : _ || _ = true |- _ =>
        apply orb_prop in H as [H|H]; apply String.eqb_eq in H; auto end.
    + by apply Forall_forall.
  - destruct (decide ("--force" ∈ args)) as [Hin|Hnot]; [done|].
    intros Hforce.
    assert (opt_force options = false); [|congruence].
    apply (parseOptions_invariant (fun o => opt_force o = false)
             (fun arg => arg <> "--force"))
      with (args := args) (o := defaultOptions); [| |done|done].
    + intros arg next o Harg Ho. unfold parseArg.
      repeat case_match; simplify_eq; cbn; try done;
        match goal with H : String.eqb arg "--force" = true |- _ =>
          apply String.eqb_eq in H; congruence end.
    + apply Forall_forall. intros arg Hin ->. done.
Qed.

Lemma parseOptions_format_and_force_witness :
  let options :=
    with_resume false (with_force true (with_format "txt" defaultOptions)) in
  (opt_format options = "json" \/ opt_format options = "txt") /\
  (opt_force options = true -> "--force" ∈ ["--format"; "txt"; "--force"]).
Proof.
  intros options.
  apply (parseOptions_format_and_force ["--format"; "txt"; "--force"] options).
  reflexivity.
Defined.


(** X13.  When the page of the story cannot be fetched, [main] gives up
    after four requests for it: it prints the error, writes no file and
    ends with exit code [1]. *)
Theorem main_unreachable_story w storyUrl rest options (msg : nat -> string) s :
  existsb (String.eqb "--help") (storyUrl :: rest) = false ->
  Js.startsWith storyUrl "http" = true ->
  parseOptions rest defaultOptions = inl options ->
  (forall k, (k <= 3)%nat ->
     outcomeOf (http w (nreq s + k) storyUrl) = inr (msg k)) ->
  main w (storyUrl :: rest) s =
    (Ret 1, set_nreq (fun n => (n + 4)%nat) s,
     retrySchedule (crawlerOf options) storyUrl 0 3 ++
     [EvLog (LFatal ("Failed to get story info: " +:+ "Failed to fetch "
                     +:+ storyUrl +:+ ": " +:+ msg 3%nat))]).
Proof.
  intros Hhelp Hhttp Hopts Hfail. unfold main. rewrite Hhelp, Hhttp, Hopts.
  assert (storyUrl <> "") as Hne by (intros ->; done).
  destruct (String.eqb_spec storyUrl ""); [done|]. cbn [orb negb].
  rewrite try_run, bind_run. unfold mainBody. rewrite bind_run.
  unfold getStoryInfo. rewrite try_run, bind_run. unfold fetchPage.
  change (cr_retries (crawlerOf options)) with 3%nat.
  rewrite (fetchPage_from_exhausts _ _ _ msg) by done.
  cbn. reflexivity.
Qed.

Lemma main_unreachable_story_witness :
  let w := siteWorld "1" (fun _ => []) (fun _ _ => RespStatus 503) reliable in
  main w [root] (init_St ∅) =
    (Ret 1, set_nreq (fun n => (n + 4)%nat) (init_St ∅),
     retrySchedule (crawlerOf defaultOptions) root 0 3 ++
     [EvLog (LFatal ("Failed to get story info: " +:+ "Failed to fetch "
                     +:+ root +:+ ": " +:+ "HTTP error! status: 503"))]).
Proof.
  intros w.
  apply (main_unreachable_story w root [] defaultOptions
           (fun _ => "HTTP error! status: 503") (init_St ∅));
    try reflexivity.
Defined.

(** ** More on the page fetcher *)

Lemma fetchPage_from_attempts w cr u budget : forall rc s,
  exists k, (k <= budget)%nat /\
    trace_of (fetchPage_from w cr u budget rc s) = retrySchedule cr u rc k /\
    st_of (fetchPage_from w cr u budget rc s)
      = set_nreq (fun n => (n + S k)%nat) s /\
    match res_of (fetchPage_from w cr u budget rc s) with
    | Ret body => outcomeOf (http w (nreq s + k) u) = inl body
    | Throw _ =>
        k = budget /\
        forall j, (j <= budget)%nat ->
          exists m, outcomeOf (http w (nreq s + j) u) = inr m
    end.
Proof.
  induction budget as [|b IH]; intros rc s; rewrite fetchPage_from_unfold;
    destruct (outcomeOf (http w (nreq s) u)) as [html|message] eqn:E.
  - exists 0%nat. rewrite Nat.add_0_r, set_nreq_one. by repeat split.
  - exists 0%nat. rewrite set_nreq_one. repeat split; try done.
    intros j Hj. replace j with 0%nat by lia. rewrite Nat.add_0_r. eauto.
  - exists 0%nat. rewrite Nat.add_0_r, set_nreq_one. repeat split; try done. lia.
  - destruct (IH (rc + 1) (set_nreq S s)) as (k & Hk & Ht & Hs & Hr).
    destruct (fetchPage_from w cr u b (rc + 1) (set_nreq S s)) as [[r s1] t1].
    cbn [res_of st_of trace_of fst snd] in *. subst t1 s1.
    exists (S k). split; [lia|]. split; [by rewrite retrySchedule_S|].
    split; [by rewrite set_nreq_S_add|].
    destruct r as [body|msg].
    + rewrite <- Hr. cbn. do 2 f_equal. lia.
    + destruct Hr as [-> Hall]. split; [done|]. intros j Hj.
      destruct j as [|j]; [rewrite Nat.add_0_r; eauto|].
      destruct (Hall j ltac:(lia)) as [m Hm]. exists m. rewrite <- Hm.
      cbn. do 2 f_equal. lia.
Qed.

(** X14.  Whatever the site answers, a call of [fetchPage] makes at most
    [this.retries + 1] requests, all for the same address, waits
    [this.delay * k] before its [k]-th retry, and throws only when every
    one of [this.retries + 1] attempts has failed. *)
Theorem fetchPage_attempts w cr u s :
  exists k, (k <= cr_retries cr)%nat /\
    trace_of (fetchPage w cr u s) = retrySchedule cr u 0 k /\
    st_of (fetchPage w cr u s) = set_nreq (fun n => (n + S k)%nat) s /\
    match res_of (fetchPage w cr u s) with
    | Ret body => outcomeOf (http w (nreq s + k) u) = inl body
    | Throw _ =>
        k = cr_retries cr /\
        forall j, (j <= cr_retries cr)%nat ->
          exists m, outcomeOf (http w (nreq s + j) u) = inr m
    end.
Proof. apply fetchPage_from_attempts. Qed.

(** X15.  A page that answers on attempt [j + 1], with [j] no more than
    [this.retries], is returned, after [j] waits of [this.delay * 1], ...,
    [this.delay * j]. *)
Theorem fetchPage_recovers w cr u body (j : nat) s :
  (j <= cr_retries cr)%nat ->
  (forall k, (k < j)%nat ->
     exists m, outcomeOf (http w (nreq s + k) u) = inr m) ->
  outcomeOf (http w (nreq s + j) u) = inl body ->
  fetchPage w cr u s =
    (Ret body, set_nreq (fun n => (n + S j)%nat) s,
     EvGet u ::
     flat_map (fun k => [EvDelay (cr_delay cr * Z.of_nat k); EvGet u]) (seq 1 j)).
Proof.
  intros Hj Hfail Hok. unfold fetchPage.
  rewrite (fetchPage_from_succeeds _ _ _ body j) by done.
  reflexivity.
Qed.

Lemma fetchPage_recovers_witness :
  let w := siteWorld "1" (fun _ => [])
             (fun n u => if (n <? 2)%nat then RespTimeout else RespOk u) reliable in
  let cr := TruyenFullCrawler None None None in
  fetchPage w cr root (init_St ∅) =
    (Ret root, set_nreq (fun n => (n + 3)%nat) (init_St ∅),
     EvGet root ::
     flat_map (fun k => [EvDelay (cr_delay cr * Z.of_nat k); EvGet root]) (seq 1 2)).
Proof.
  intros w cr. apply (fetchPage_recovers w cr root root 2 (init_St ∅)).
  - vm_compute. lia.
  - intros k Hk. exists "Request timeout".
    destruct k as [|[|k]]; [reflexivity|reflexivity|lia].
  - reflexivity.
Defined.

(** X16.  [getAllChapters] and [getChapterContent] only talk to the
    network: requests and waits are all they do to the world, they write no
    file, and they leave the disk and the variables of [main] and of
    [crawlStory] as they were. *)
Theorem crawler_only_fetches w cr u s :
  net_step s (st_of (getAllChapters w cr u s)) (trace_of (getAllChapters w cr u s)) /\
  net_step s (st_of (getChapterContent w cr u s))
    (trace_of (getChapterContent w cr u s)).
Proof. split; [apply getAllChapters_net|apply getChapterContent_net]. Qed.

(** ** The listing pages *)

Lemma fetchPage_first w cr u html s :
  http w (nreq s) u = RespOk html ->
  fetchPage w cr u s = (Ret html, set_nreq S s, [EvGet u]).
Proof.
  intros H. unfold fetchPage. rewrite fetchPage_from_unfold. by rewrite H.
Qed.

Lemma getStoryInfo_first w cr u html s :
  http w (nreq s) u = RespOk html ->
  exists info,
    getStoryInfo w cr u s = (Ret info, set_nreq S s, [EvGet u]) /\
    si_totalPages info = totalPagesOf w html.
Proof.
  intros H. unfold getStoryInfo. rewrite try_run, bind_run.
  rewrite (fetchPage_first _ _ _ html) by done. cbn. eauto.
Qed.

(** X17.  When the field with the number of listing pages does not read as
    a positive number, [getAllChapters] asks for no listing page and
    returns no chapter, without an error. *)
Theorem getAllChapters_without_pages w cr u html s :
  http w (nreq s) u = RespOk html ->
  (forall n, totalPagesOf w html = Some n -> n <= 0) ->
  exists info,
    getAllChapters w cr u s = (Ret (info, []), set_nreq S s, [EvGet u]) /\
    si_totalPages info = totalPagesOf w html.
Proof.
  intros Hhtml Hpages.
  destruct (getStoryInfo_first w cr u html s Hhtml) as (info & Hinfo & Htotal).
  exists info. split; [|done].
  unfold getAllChapters. rewrite try_run, bind_run, Hinfo, Htotal.
  destruct (totalPagesOf w html) as [n|] eqn:E; [|done].
  specialize (Hpages n eq_refl). unfold pagesOf.
  replace (seqZ 1 n) with (@nil Z); [done|].
  unfold seqZ. by replace (Z.to_nat n) with 0%nat by lia.
Qed.

Lemma getAllChapters_without_pages_witness :
  let w := siteWorld "many" (fun _ => ["/abc/chuong-1/"]) online reliable in
  exists info,
    getAllChapters w (TruyenFullCrawler None None None) root (init_St ∅)
      = (Ret (info, []), set_nreq S (init_St ∅), [EvGet root]) /\
    si_totalPages info = totalPagesOf w root.
Proof.
  intros w.
  apply (getAllChapters_without_pages w (TruyenFullCrawler None None None) root root
           (init_St ∅)).
  - reflexivity.
  - intros n H. vm_compute in H. discriminate H.
Defined.




(** ** The manifest on disk *)

(** X19.  A call of [updateStoryJson] that returns has replaced the
    manifest of the story by the chapters of the accumulator, each once,
    numbered chapters first and ascending; it has touched nothing else on
    the disk. *)
Theorem updateStoryJson_on_disk w storyInfo allChapters outputDir s s' t :
  updateStoryJson w storyInfo allChapters outputDir s = (Ret tt, s', t) ->
  let dir := path_join outputDir (sanitizeFileName (si_slug storyInfo)) in
  exists before after sorted,
    fs s !! dir = Some before /\ fs s' !! dir = Some after /\
    story_json after = Some (storyInfo, map metadataOf sorted) /\
    Permutation sorted allChapters /\ StronglySorted manifest_le sorted /\
    info_json after = info_json before /\
    chapters_dir after = chapters_dir before /\
    errors_log after = errors_log before /\
    (forall dir', dir' <> dir -> fs s' !! dir' = fs s !! dir').
Proof.
  intros H dir. unfold updateStoryJson, writeIn in H. fold dir in H.
  destruct (fs s !! dir) as [before|] eqn:E; [|done]. cbn in H.
  destruct (disk_error w (nwrite s)); [done|]. injection H as <- <-.
  eexists before, _, (Js.sort compareChapters allChapters). cbn.
  rewrite lookup_insert_eq. repeat split; try done.
  - apply sort_perm.
  - apply lightweightChapters_sorted.
  - intros dir' Hne. by rewrite lookup_insert_ne.
Qed.

Lemma updateStoryJson_on_disk_witness :
  let allChapters := [sampleChapter 3; sampleChapter 1] in
  let dir := path_join "./output" (sanitizeFileName (si_slug sampleInfo)) in
  exists before after sorted,
    fs stateWithInfo !! dir = Some before /\
    fs stateWithManifest !! dir = Some after /\
    story_json after = Some (sampleInfo, map metadataOf sorted) /\
    Permutation sorted allChapters /\ StronglySorted manifest_le sorted /\
    info_json after = info_json before /\
    chapters_dir after = chapters_dir before /\
    errors_log after = errors_log before /\
    (forall dir', dir' <> dir ->
       fs stateWithManifest !! dir' = fs stateWithInfo !! dir').
Proof.
  intros allChapters dir.
  refine (updateStoryJson_on_disk site13 sampleInfo allChapters "./output"
            stateWithInfo stateWithManifest
            (trace_of (updateStoryJson site13 sampleInfo allChapters "./output"
                         stateWithInfo)) _).
  vm_compute. reflexivity.
Defined.

(** ** The retry script *)

Lemma compareNumbers_sorted l :
  StronglySorted (fun a b => Retry.compareNumbers a b <= 0)
    (Js.sort Retry.compareNumbers l).
Proof.
  apply (sort_sorted Retry.compareNumbers); unfold Retry.compareNumbers; intros; lia.
Qed.

Lemma addedChapters_spec chapters newChapters m :
  m ∈ Retry.addedChapters chapters newChapters <->
  exists chapter, chapter ∈ newChapters /\ m = metadataOf chapter /\
                  number chapter ∉ map meta_number chapters.
Proof.
  unfold Retry.addedChapters. rewrite list_elem_of_fmap. split.
  - intros (chapter & -> & Hin). exists chapter.
    rewrite list_elem_of_In, List.filter_In in Hin. destruct Hin as [Hin Hb].
    apply negb_true_iff, bool_decide_eq_false in Hb.
    by rewrite list_elem_of_In.
  - intros (chapter & Hin & -> & Hnot). exists chapter. split; [done|].
    rewrite list_elem_of_In, List.filter_In. split; [by rewrite <- list_elem_of_In|].
    by apply negb_true_iff, bool_decide_eq_false.
Qed.

(** What a call of the retry script's [updateStoryJson] that returns has
    done. *)
Lemma retry_updateStoryJson_success w slug newChapters outputDir s s' t :
  Retry.updateStoryJson w slug newChapters outputDir s = (Ret tt, s', t) ->
  let dir := path_join outputDir (sanitizeFileName slug) in
  exists before storyData chapters,
    fs s !! dir = Some before /\
    story_json before = Some (storyData, chapters) /\
    fs s' =
      <[dir := {| info_json := info_json before;
                  story_json :=
                    Some (storyData,
                          Js.sort Retry.compareNumbers
                            (chapters ++ Retry.addedChapters chapters newChapters));
                  errors_log := errors_log before;
                  chapters_dir := chapters_dir before |}]> (fs s).
Proof.
  intros H dir. unfold Retry.updateStoryJson in H. fold dir in H.
  rewrite bind_run in H. cbn [get_st] in H.
  destruct (fs s !! dir) as [before|] eqn:E; [|done]. cbn [mbind option_bind] in H.
  destruct (story_json before) as [[storyData chapters]|] eqn:Ej; [|done].
  unfold writeIn in H. rewrite E in H. cbn in H.
  destruct (disk_error w (nwrite s)); [done|]. injection H as <- <-.
  by exists before, storyData, chapters.
Qed.

(** X20.  A call of the retry script's [updateStoryJson] that returns has
    read the manifest of the story and has written it back with the new
    chapters whose number it did not list, sorted by number ([null] as
    [0]): every entry it had is still there, and every new chapter has its
    number listed.  Nothing else on the disk has changed. *)
Theorem retry_updateStoryJson_merges w slug newChapters outputDir s s' t :
  Retry.updateStoryJson w slug newChapters outputDir s = (Ret tt, s', t) ->
  let dir := path_join outputDir (sanitizeFileName slug) in
  exists before after storyData chapters merged,
    fs s !! dir = Some before /\ fs s' !! dir = Some after /\
    story_json before = Some (storyData, chapters) /\
    story_json after = Some (storyData, merged) /\
    Permutation merged (chapters ++ Retry.addedChapters chapters newChapters) /\
    StronglySorted (fun a b => Retry.compareNumbers a b <= 0) merged /\
    (forall m, m ∈ chapters -> m ∈ merged) /\
    (forall chapter, chapter ∈ newChapters ->
       number chapter ∈ map meta_number merged) /\
    info_json after = info_json before /\
    chapters_dir after = chapters_dir before /\
    errors_log after = errors_log before /\
    (forall dir', dir' <> dir -> fs s' !! dir' = fs s !! dir').
Proof.
  intros H dir.
  destruct (retry_updateStoryJson_success _ _ _ _ _ _ _ H)
    as (before & storyData & chapters & Hb & Hj & Hfs). fold dir in Hb, Hfs.
  set (merged := Js.sort Retry.compareNumbers
                   (chapters ++ Retry.addedChapters chapters newChapters)) in *.
  assert (Hperm : Permutation merged
                    (chapters ++ Retry.addedChapters chapters newChapters))
    by apply sort_perm.
  eexists before, _, storyData, chapters, merged.
  rewrite Hfs, lookup_insert_eq. repeat split; try done.
  - apply compareNumbers_sorted.
  - intros m Hm. rewrite Hperm. apply elem_of_app. auto.
  - intros chapter Hin. rewrite Hperm, fmap_app. apply elem_of_app.
    destruct (decide (number chapter ∈ map meta_number chapters)) as [Hyes|Hno];
      [by left|right].
    apply list_elem_of_fmap. exists (metadataOf chapter). split; [done|].
    apply addedChapters_spec. eauto.
  - intros dir' Hne. by rewrite lookup_insert_ne.
Qed.

Lemma NoDup_added chapters newChapters :
  NoDup (map meta_number chapters) -> NoDup (map number newChapters) ->
  NoDup (map meta_number (chapters ++ Retry.addedChapters chapters newChapters)).
Proof.
  intros Hold Hnew. rewrite fmap_app. apply NoDup_app. split; [done|]. split.
  - intros n Hn Hadd. apply list_elem_of_fmap in Hadd as (m & -> & Hm).
    apply addedChapters_spec in Hm as (chapter & _ & -> & Hnot). by apply Hnot.
  - unfold Retry.addedChapters. rewrite <- list_fmap_compose.
    change (meta_number ∘ metadataOf) with number.
    induction newChapters as [|c r IH]; cbn; [constructor|].
    apply NoDup_cons in Hnew as [Hc Hr]. destruct (negb _); cbn; [|by apply IH].
    constructor; [|by apply IH].
    intros Hin. apply Hc. apply list_elem_of_fmap in Hin as (c' & -> & Hin).
    apply list_elem_of_fmap. exists c'. split; [done|].
    rewrite list_elem_of_In, List.filter_In in Hin. rewrite list_elem_of_In. tauto.
Qed.

(** X21.  The merge of the retry script keeps the numbers of the manifest
    distinct: when no two entries of the manifest and no two of the new
    chapters share a number, no two entries of the manifest written
    do. *)
Theorem retry_updateStoryJson_keeps_numbers_distinct
    w slug newChapters outputDir s s' t storyData chapters :
  Retry.updateStoryJson w slug newChapters outputDir s = (Ret tt, s', t) ->
  let dir := path_join outputDir (sanitizeFileName slug) in
  fs s !! dir ≫= story_json = Some (storyData, chapters) ->
  NoDup (map meta_number chapters) -> NoDup (map number newChapters) ->
  exists merged,
    fs s' !! dir ≫= story_json = Some (storyData, merged) /\
    NoDup (map meta_number merged).
Proof.
  intros H dir Hj Hold Hnew.
  destruct (retry_updateStoryJson_success _ _ _ _ _ _ _ H)
    as (before & storyData' & chapters' & Hb & Hj' & Hfs). fold dir in Hb, Hfs.
  rewrite Hb in Hj. cbn in Hj. rewrite Hj' in Hj. injection Hj as -> ->.
  eexists. rewrite Hfs, lookup_insert_eq. split; [reflexivity|].
  rewrite (sort_perm Retry.compareNumbers). by apply NoDup_added.
Qed.

(** X22.  For a chapter with a number other than zero the retry script's
    [saveChapter] does what the crawler's does for the JSON format: the same
    file, with the same content, under the same path. *)
Theorem retry_saveChapter_agrees w chapter slug outputDir n s :
  number chapter = Some n -> n <> 0 ->
  Retry.saveChapter w chapter slug outputDir s =
    let '(r, s', t) := saveChapter w chapter slug outputDir "json" s in
    (match r with Ret p => Ret p.2 | Throw message => Throw message end, s', t).
Proof.
  intros Hn Hnz. unfold Retry.saveChapter, saveChapter.
  rewrite (chapterFileName_numbered _ _ n), Hn by done.
  rewrite !bind_run. cbn [ensureChaptersDir modify].
  change (extOf "json") with "json". change (String.eqb "json" "json") with true.
  cbv iota. rewrite !bind_run. cbv beta zeta.
  change ("." +:+ "json") with ".json".
  match goal with
  | |- context [writeIn w ?d ?p ?x ?f ?st] => destruct (writeIn w d p x f st) as [[[[]|msg] s1] t1]
  end; reflexivity.
Qed.

Lemma retry_updateStoryJson_merges_witness :
  let newChapters := [sampleChapter 2; sampleChapter 3] in
  let run := Retry.updateStoryJson site13 "abc" newChapters "./output"
               stateWithManifest in
  let dir := path_join "./output" (sanitizeFileName "abc") in
  exists before after storyData chapters merged,
    fs stateWithManifest !! dir = Some before /\
    fs (st_of run) !! dir = Some after /\
    story_json before = Some (storyData, chapters) /\
    story_json after = Some (storyData, merged) /\
    Permutation merged (chapters ++ Retry.addedChapters chapters newChapters) /\
    StronglySorted (fun a b => Retry.compareNumbers a b <= 0) merged /\
    (forall m, m ∈ chapters -> m ∈ merged) /\
    (forall chapter, chapter ∈ newChapters ->
       number chapter ∈ map meta_number merged) /\
    info_json after = info_json before /\
    chapters_dir after = chapters_dir before /\
    errors_log after = errors_log before /\
    (forall dir', dir' <> dir ->
       fs (st_of run) !! dir' = fs stateWithManifest !! dir').
Proof.
  intros newChapters run dir.
  refine (retry_updateStoryJson_merges site13 "abc" newChapters "./output"
            stateWithManifest (st_of run) (trace_of run) _).
  vm_compute. reflexivity.
Defined.

Lemma retry_updateStoryJson_keeps_numbers_distinct_witness :
  let newChapters := [sampleChapter 2; sampleChapter 3] in
  let run := Retry.updateStoryJson site13 "abc" newChapters "./output"
               stateWithManifest in
  let dir := path_join "./output" (sanitizeFileName "abc") in
  exists merged,
    fs (st_of run) !! dir ≫= story_json = Some (sampleInfo, merged) /\
    NoDup (map meta_number merged).
Proof.
  intros newChapters run dir.
  refine (retry_updateStoryJson_keeps_numbers_distinct site13 "abc" newChapters
            "./output" stateWithManifest (st_of run) (trace_of run) sampleInfo
            (map metadataOf [sampleChapter 1; sampleChapter 3]) _ _ _ _).
  - vm_compute. reflexivity.
  - vm_compute. reflexivity.
  - cbn. repeat constructor; not_listed.
  - cbn. repeat constructor; not_listed.
Defined.

Lemma retry_saveChapter_agrees_witness :
  Retry.saveChapter site13 (sampleChapter 7) "abc" "./output" (init_St ∅) =
    let '(r, s', t) :=
      saveChapter site13 (sampleChapter 7) "abc" "./output" "json" (init_St ∅) in
    (match r with Ret p => Ret p.2 | Throw message => Throw message end, s', t).
Proof.
  apply (retry_saveChapter_agrees site13 (sampleChapter 7) "abc" "./output" 7
           (init_St ∅)); [reflexivity|lia].
Defined.

(** ** The branch for chapters that are already on disk *)

#[export] Instance never_skips_stepwise : Stepwise never_skips.
Proof.
  split.
  - intros s. split; [constructor|by left].
  - intros s1 s2 s3 t1 t2 [F1 E1] [F2 E2].
    split; [by apply Forall_app|]. destruct E1, E2; first [left; congruence|right; congruence].
Qed.

(** A bind whose continuation is only run on what the first part can
    return. *)
Lemma respects_bind_post (R : St -> St -> list Event -> Prop) `{!Stepwise R}
    {A B} (P : A -> Prop) (m : M A) (f : A -> M B) :
  respects R m ->
  (forall s a s' t, m s = (Ret a, s', t) -> P a) ->
  (forall a, P a -> respects R (f a)) ->
  respects R (m ≫= f).
Proof.
  intros Hm HP Hf s. rewrite bind_run. specialize (Hm s).
  destruct (m s) as [[[a|e] s1] t1] eqn:E; cbn in *; [|exact Hm].
  specialize (Hf a (HP _ _ _ _ E) s1). destruct (f a s1) as [[r s2] t2]; cbn in *.
  eapply step_trans; eauto.
Qed.

Section NeverSkips.
Context (w : World).

Lemma net_never_skips {A} (m : M A) :
  respects net_step m -> respects never_skips m.
Proof.
  apply respects_weaken. intros s s' t (F & _ & _ & Hm & _). split.
  - eapply Forall_impl; [exact F|]. by intros [].
  - left. by rewrite Hm.
Qed.

Lemma log_never_skips l :
  is_skip_line (EvLog l) = false -> respects never_skips (log l).
Proof. intros H s. split; [by repeat constructor|by left]. Qed.

Lemma modify_never_skips f :
  (forall s, skippedCount (mainv (f s)) = skippedCount (mainv s) \/
             skippedCount (mainv (f s)) = 0) ->
  respects never_skips (modify f).
Proof. intros H s. split; [constructor|apply H]. Qed.

Lemma writeIn_never_skips dir path d update :
  respects never_skips (writeIn w dir path d update).
Proof.
  intros s. unfold writeIn.
  destruct (fs s !! dir ≫= update); [|apply step_refl].
  destruct (disk_error w (nwrite s)); split; cbn; auto; by repeat constructor.
Qed.

Hint Resolve writeIn_never_skips : steps.
Hint Extern 1 (respects never_skips (log _)) =>
  apply log_never_skips; reflexivity : steps.
Hint Extern 1 (respects never_skips (modify _)) =>
  apply modify_never_skips; intros ?; first [left; reflexivity|right; reflexivity]
  : steps.
Hint Extern 1 (respects never_skips (getChapterContent _ _ _)) =>
  apply net_never_skips, getChapterContent_net : steps.
Hint Extern 1 (respects never_skips (getAllChapters _ _ _)) =>
  apply net_never_skips, getAllChapters_net : steps.
Hint Extern 1 (respects never_skips (getStoryInfo _ _ _)) =>
  apply net_never_skips, getStoryInfo_net : steps.
Hint Extern 1 (respects never_skips (delay _)) =>
  apply net_never_skips, delay_net : steps.

Lemma saveChapter_never_skips chapter slug outputDir format :
  respects never_skips (saveChapter w chapter slug outputDir format).
Proof. unfold saveChapter, ensureChaptersDir. steps. Qed.

Lemma updateStoryJson_never_skips storyInfo all outputDir :
  respects never_skips (updateStoryJson w storyInfo all outputDir).
Proof. unfold updateStoryJson. steps. Qed.

Lemma pushCrawled_never_skips c : respects never_skips (pushCrawled c).
Proof. unfold pushCrawled. steps. Qed.
Hint Resolve saveChapter_never_skips updateStoryJson_never_skips
  pushCrawled_never_skips : steps.

(** A chapter whose number is not among the existing ones is saved. *)
Lemma onChapterCrawled_never_skips options storyInfo existing chapter :
  negb (opt_force options) && has existing (number chapter) = false ->
  respects never_skips (onChapterCrawled_main w options storyInfo existing chapter).
Proof. intros H. unfold onChapterCrawled_main. rewrite H. steps. Qed.

Lemma onError_never_skips options storyInfo errorInfo :
  respects never_skips (onError_main w options storyInfo errorInfo).
Proof. unfold onError_main, ensureStoryDir. steps. Qed.

Lemma onProgress_never_skips a b c :
  respects never_skips (onProgress_main a b c).
Proof. unfold onProgress_main. steps. Qed.
Hint Resolve onError_never_skips onProgress_never_skips : steps.

Lemma crawlLoop_never_skips cr options storyInfo existing total todo : forall i,
  Forall (fun r => negb (opt_force options)
                   && has existing (chapterNumberOf (ref_url r)) = false) todo ->
  respects never_skips
    (crawlLoop w cr (crawlOptionsOf w options storyInfo existing) total i todo).
Proof.
  induction todo as [|r rest IH]; intros i Htodo; cbn [crawlLoop]; [steps|].
  apply Forall_cons in Htodo as [Hr Hrest].
  unfold call. cbn [crawlOptionsOf onChapterCrawled onError onProgress].
  apply respects_bind; [tc_solve|steps|intros _].
  apply respects_bind; [tc_solve| |intros _; by apply IH].
  apply respects_try; [tc_solve| |intros ?; steps].
  apply (respects_bind_post _
           (fun chapter => number chapter = chapterNumberOf (ref_url r)));
    [steps| |].
  - intros s chapter s' t H. by apply getChapterContent_order in H as [_ ?].
  - intros chapter Hn.
    apply respects_bind; [tc_solve|steps|intros _].
    apply respects_bind; [tc_solve| |intros _; steps].
    apply onChapterCrawled_never_skips. by rewrite Hn.
Qed.

(** The references of a listing carry the number of their address. *)
Lemma refsOfAnchors_numbers cr l :
  baseUrl cr = "https://truyenfull.vision" ->
  Forall (fun r => chapterNumberOf (ref_url r) = ref_number r) (refsOfAnchors cr l).
Proof.
  intros Hb. unfold refsOfAnchors. apply Forall_forall. intros r Hr.
  apply list_elem_of_omap in Hr as ([i a] & _ & Hr).
  unfold refOfAnchor in Hr. destruct (a_href a) as [href|]; [|done].
  destruct (String.eqb href ""); [done|]. injection Hr as <-. cbn.
  destruct (Js.startsWith href "http"); [done|].
  rewrite Hb. apply chapterNumberOf_baseUrl.
Qed.

Lemma pagesLoop_numbers cr u n pages : forall acc s refs s' t,
  baseUrl cr = "https://truyenfull.vision" ->
  Forall (fun r => chapterNumberOf (ref_url r) = ref_number r) acc ->
  pagesLoop w cr u n pages acc s = (Ret refs, s', t) ->
  Forall (fun r => chapterNumberOf (ref_url r) = ref_number r) refs.
Proof.
  induction pages as [|page rest IH]; intros acc s refs s' t Hb Hacc H;
    cbn [pagesLoop] in H.
  - by injection H as <- _ _.
  - rewrite bind_run in H.
    destruct (getChaptersFromPage w cr u page s) as [[[chapters|e] s1] t1] eqn:E;
      [|done].
    rewrite bind_run in H.
    destruct (when _ _ s1) as [[[[]|e] s2] t2]; [|done].
    destruct (pagesLoop w cr u n rest (acc ++ chapters) s2) as [[r3 s3] t3] eqn:E3.
    injection H as -> _ _.
    apply (IH _ _ _ _ _ Hb) in E3; [done|].
    apply Forall_app. split; [done|].
    unfold getChaptersFromPage in E. rewrite try_run, bind_run in E.
    destruct (fetchPage w cr _ s) as [[[html|e] s0] t0]; cbn in E.
    + injection E as <- _ _. by apply refsOfAnchors_numbers.
    + done.
Qed.

Lemma getAllChapters_numbers cr u s info chapters s' t :
  baseUrl cr = "https://truyenfull.vision" ->
  getAllChapters w cr u s = (Ret (info, chapters), s', t) ->
  Forall (fun r => chapterNumberOf (ref_url r) = ref_number r) chapters.
Proof.
  intros Hb H. unfold getAllChapters in H. rewrite try_run, bind_run in H.
  destruct (getStoryInfo w cr u s) as [[[info'|e] s1] t1]; [|done].
  rewrite bind_run in H.
  destruct (si_totalPages info') as [n|].
  - destruct (pagesLoop w cr u n (pagesOf (Some n)) [] s1)
      as [[[refs|e] s2] t2] eqn:E; [|done].
    cbn in H. injection H as _ <- _ _.
    rewrite (sort_perm compareRefs). by eapply pagesLoop_numbers.
  - cbn in H. injection H as _ <- _ _. constructor.
Qed.

Lemma chaptersToCrawl_not_existing options storyInfo existing chapters :
  Forall (fun r => chapterNumberOf (ref_url r) = ref_number r) chapters ->
  Forall (fun r => negb (opt_force options)
                   && has existing (chapterNumberOf (ref_url r)) = false)
    (chaptersToCrawlOf (crawlOptionsOf w options storyInfo existing) chapters).
Proof.
  intros Hnum. apply Forall_forall. intros r Hr.
  destruct (opt_force options) eqn:Hforce; [done|]. cbn [negb andb].
  unfold chaptersToCrawlOf in Hr.
  apply (resumeFilter_spec _ existing) in Hr;
    [|by cbn [crawlOptionsOf existingChapters]; rewrite Hforce].
  destruct Hr as [Hin Hnot]. apply rangeFilter_spec in Hin as [Hin _].
  rewrite Forall_forall in Hnum. rewrite (Hnum r Hin).
  unfold has. destruct (ref_number r) as [n|]; [|done].
  apply bool_decide_eq_false. auto.
Qed.

Lemma crawlStory_never_skips storyUrl options storyInfo existing :
  respects never_skips
    (crawlStory w (crawlerOf options) storyUrl
       (crawlOptionsOf w options storyInfo existing)).
Proof.
  unfold crawlStory. apply respects_try; [tc_solve| |intros ?; steps].
  apply (respects_bind_post _
           (fun x => Forall (fun r => chapterNumberOf (ref_url r) = ref_number r)
                            x.2));
    [steps| |].
  - intros s [info chapters] s' t H. cbn.
    by apply getAllChapters_numbers in H.
  - intros [info chapters] Hnum. cbn in Hnum.
    apply respects_bind; [tc_solve|steps|intros _].
    apply respects_bind; [tc_solve| |intros _; steps].
    by apply crawlLoop_never_skips, chaptersToCrawl_not_existing.
Qed.

Lemma loadChapterFiles_never_skips options files chapterFiles :
  respects never_skips (loadChapterFiles options files chapterFiles).
Proof. induction chapterFiles; cbn [loadChapterFiles]; steps. Qed.
Hint Resolve loadChapterFiles_never_skips crawlStory_never_skips : steps.

Lemma mainBody_never_skips storyUrl options :
  respects never_skips (mainBody w storyUrl options).
Proof.
  unfold mainBody, saveStoryInfo, ensureStoryDir, crawlAndReport, findExisting,
    getExistingChapters, loadExisting, summary, getExistingChapters.
  steps.
Qed.

Lemma main_respects_never_skips args : respects never_skips (main w args).
Proof.
  pose proof mainBody_never_skips. unfold main. steps.
Qed.
End NeverSkips.

(** X23.  The branch of [onChapterCrawled] for a chapter that is already
    on disk is never taken under [crawlStory]: the chapters it would catch
    were filtered out of the listing by the same numbers.  No run of
    [crawlStory] under the callbacks of [main] makes [onChapterCrawled]
    print its [Skipped (already exists)] line, and [skippedCount] is the
    same after it as before (or zero). *)
Theorem crawlStory_never_skips_existing w storyUrl options storyInfo existing s :
  let run := crawlStory w (crawlerOf options) storyUrl
               (crawlOptionsOf w options storyInfo existing) s in
  Forall (fun e => is_skip_line e = false) (trace_of run) /\
  (skippedCount (mainv (st_of run)) = skippedCount (mainv s) \/
   skippedCount (mainv (st_of run)) = 0).
Proof. apply crawlStory_never_skips. Qed.

(** X24.  In no run of [main] does [onChapterCrawled] print its
    [Skipped (already exists)] line, and the count of skipped chapters ends
    at zero. *)
Theorem main_never_skips w args disk :
  let run := main w args (init_St disk) in
  Forall (fun e => is_skip_line e = false) (trace_of run) /\
  skippedCount (mainv (st_of run)) = 0.
Proof.
  intros run. destruct (main_respects_never_skips w args (init_St disk)) as [F E].
  split; [done|]. by destruct E.
Qed.

(** ** Resuming *)

Lemma bind_returns {A B} (m : M A) (f : A -> M B) s b s' t :
  (m ≫= f) s = (Ret b, s', t) ->
  exists a s1 t1 t2,
    m s = (Ret a, s1, t1) /\ f a s1 = (Ret b, s', t2) /\ t = t1 ++ t2.
Proof.
  rewrite bind_run. destruct (m s) as [[[a|e] s1] t1]; [|done].
  destruct (f a s1) as [[r s2] t2] eqn:E. intros [= -> -> <-].
  by exists a, s1, t1, t2.
Qed.

(** Outside force mode [findExisting] returns the numbers that
    [getExistingChapters] reads off the disk. *)
Lemma findExisting_result options storyInfo s :
  opt_force options = false ->
  exists s' t,
    findExisting options storyInfo s =
      (Ret (existingOn (fs s) (si_slug storyInfo) (opt_outputDir options)
              (opt_format options)), s', t).
Proof.
  intros Hforce. destruct (findExisting_returns options storyInfo s) as [existing H].
  destruct (findExisting options storyInfo s) as [[r s'] t] eqn:E.
  cbn in H. subst r. exists s', t. f_equal. f_equal. f_equal.
  unfold findExisting in E. rewrite Hforce in E. cbn [negb] in E.
  apply bind_returns in E as (a & s1 & t1 & t2 & E1 & E2 & _).
  unfold getExistingChapters in E1. injection E1 as <- <- _.
  apply bind_returns in E2 as (? & s2 & ? & ? & _ & E2 & _).
  by injection E2 as <- _ _.
Qed.

(** X25.  Resuming works for a story whose slug is made of ASCII
    characters and needs no sanitizing: outside force mode, a chapter with
    a positive number, no more than [Number.MAX_SAFE_INTEGER], that
    [saveChapter] has saved is among the chapters that the next run finds
    on that disk, and [crawlStory], once it has read the listing, visits no
    link with that number: no [Crawling] line is for such a link, and no
    request is for an address that carries the number. *)
Theorem saved_chapter_is_not_fetched_again
    w chapter storyInfo options n s p s' t s2 :
  ascii_only (si_slug storyInfo) ->
  sanitizeFileName (si_slug storyInfo) = si_slug storyInfo ->
  opt_force options = false ->
  number chapter = Some n -> 0 < n <= MAX_SAFE_INTEGER ->
  saveChapter w chapter (si_slug storyInfo) (opt_outputDir options)
    (opt_format options) s = (Ret p, s', t) ->
  fs s2 = fs s' ->
  exists existing s3 t3,
    findExisting options storyInfo s2 = (Ret existing, s3, t3) /\
    n ∈ existing /\
    forall storyUrl s4 info chapters s5 t5,
      getAllChapters w (crawlerOf options) storyUrl s4
        = (Ret (info, chapters), s5, t5) ->
      exists visited tl,
        trace_of (crawlStory w (crawlerOf options) storyUrl
                    (crawlOptionsOf w options storyInfo existing) s4)
          = t5 ++ tl /\
        sublist visited chapters /\
        Forall (fun r => ref_number r <> Some n) visited /\
        map (fun l : Z * Z * string => l.2) (crawlingLines tl)
          = map ref_title visited /\
        requests_only (fun u => chapterNumberOf u <> Some n) tl.
Proof.
  intros _ Hslug Hforce Hn Hpos Hsave Hdisk.
  destruct (findExisting_result options storyInfo s2 Hforce) as (s3 & t3 & Hfind).
  eexists _, s3, t3. split; [exact Hfind|].
  assert (Hin : n ∈ existingOn (fs s2) (si_slug storyInfo) (opt_outputDir options)
                     (opt_format options)).
  { rewrite Hdisk, <- Hslug. by eapply saveChapter_number_on_disk. }
  split; [done|]. intros storyUrl s4 info chapters s5 t5 Hall.
  set (existing := existingOn _ _ _ _) in *.
  set (o := crawlOptionsOf w options storyInfo existing).
  destruct (crawlStory_run w (crawlerOf options) storyUrl o s4 info chapters s5 t5
              Hall) as (res & s6 & tl & Hloop & Htrace & _).
  apply crawlLoop_visits in Hloop as (k & _ & Hlines & _ & Hreq).
  pose proof (getAllChapters_numbers w (crawlerOf options) _ _ _ _ _ _ eq_refl Hall)
    as Hnum.
  assert (Hkept : forall r, r ∈ chaptersToCrawlOf o chapters ->
                    r ∈ chapters /\ ref_number r <> Some n).
  { intros r Hr. unfold chaptersToCrawlOf in Hr.
    apply (resumeFilter_spec _ existing) in Hr;
      [|by subst o; cbn [crawlOptionsOf existingChapters]; rewrite Hforce].
    destruct Hr as [Hr Hnot]. apply rangeFilter_spec in Hr as [Hr _].
    split; [done|]. intros Hu. by apply (Hnot n Hu). }
  exists (take k (chaptersToCrawlOf o chapters)), tl.
  split; [exact Htrace|]. split.
  { etrans; [apply sublist_take|apply chaptersToCrawlOf_sublist]. }
  split.
  { apply Forall_forall. intros r Hr. apply Hkept.
    eapply elem_of_sublist; [exact Hr|apply sublist_take]. }
  split; [by rewrite Hlines, linesFrom_titles|].
  eapply Forall_impl; [exact Hreq|]. intros [u| | |]; try done.
  intros (r & Hr & ->) Hu. destruct (Hkept r Hr) as [Hc Hne].
  rewrite Forall_forall in Hnum. by rewrite (Hnum r Hc) in Hu.
Qed.

Lemma saved_chapter_is_not_fetched_again_witness :
  let run := saveChapter site13 (sampleChapter 3) (si_slug sampleInfo)
               (opt_outputDir defaultOptions) (opt_format defaultOptions)
               (init_St ∅) in
  exists existing s3 t3,
    findExisting defaultOptions sampleInfo (st_of run) = (Ret existing, s3, t3) /\
    3 ∈ existing /\
    forall storyUrl s4 info chapters s5 t5,
      getAllChapters site13 (crawlerOf defaultOptions) storyUrl s4
        = (Ret (info, chapters), s5, t5) ->
      exists visited tl,
        trace_of (crawlStory site13 (crawlerOf defaultOptions) storyUrl
                    (crawlOptionsOf site13 defaultOptions sampleInfo existing) s4)
          = t5 ++ tl /\
        sublist visited chapters /\
        Forall (fun r => ref_number r <> Some 3) visited /\
        map (fun l : Z * Z * string => l.2) (crawlingLines tl)
          = map ref_title visited /\
        requests_only (fun u => chapterNumberOf u <> Some 3) tl.
Proof.
  intros run.
  refine (saved_chapter_is_not_fetched_again site13 (sampleChapter 3) sampleInfo
            defaultOptions 3 (init_St ∅)
            ("abc", "./output/abc/chapters/chapter-00003.json")
            (st_of run) (trace_of run) (st_of run) _ _ _ _ _ _ _).
  - unfold ascii_only. vm_compute. repeat (constructor; [lia|]). constructor.
  - reflexivity.
  - reflexivity.
  - reflexivity.
  - by vm_compute.
  - vm_compute. reflexivity.
  - reflexivity.
Defined.

(** ** Reading the chapters back *)

Lemma pushCrawled_run chapter s :
  pushCrawled chapter s =
    (Ret tt,
     set_mainv (fun v =>
       {| savedCount := savedCount v; skippedCount := skippedCount v;
          allCrawledChapters := allCrawledChapters v ++ [chapter] |}) s, []).
Proof. reflexivity. Qed.

(** The chapter loop over the files appends to the accumulator, and with
    the JSON format it appends the chapter of every file it can read. *)
Lemma loadChapterFiles_appends options files chapterFiles : forall s,
  exists added,
    allCrawledChapters (mainv (st_of (loadChapterFiles options files chapterFiles s)))
      = allCrawledChapters (mainv s) ++ added /\
    (opt_format options <> "json" -> added = []) /\
    (opt_format options = "json" ->
     forall name chapter, name ∈ chapterFiles ->
       get_file name files = Some (FChapter chapter) -> chapter ∈ added).
Proof.
  induction chapterFiles as [|file rest IH]; intros s; cbn [loadChapterFiles].
  - exists []. rewrite app_nil_r. repeat split; try done.
    intros _ name chapter H. by apply elem_of_nil in H.
  - rewrite bind_run.
    destruct (String.eqb_spec (opt_format options) "json") as [Hj|Hj].
    + destruct (get_file file files) as [[chapter| |]|] eqn:Hfile.
      * rewrite pushCrawled_run.
        destruct (IH (set_mainv (fun v =>
                   {| savedCount := savedCount v; skippedCount := skippedCount v;
                      allCrawledChapters := allCrawledChapters v ++ [chapter] |}) s))
          as (added & Ha & _ & Hin).
        destruct (loadChapterFiles options files rest _) as [[r s'] t].
        cbn in *. exists (chapter :: added). rewrite Ha, <- app_assoc.
        repeat split; try done.
        intros _ name c Hname Hget. apply elem_of_cons in Hname as [->|Hname].
        -- rewrite Hfile in Hget. injection Hget as ->. apply elem_of_cons. auto.
        -- apply elem_of_cons. right. by apply (Hin Hj name).
      * destruct (IH s) as (added & Ha & _ & Hin).
        unfold log, emit. destruct (loadChapterFiles options files rest s) as [[r s'] t].
        cbn in *. exists added. repeat split; try done.
        intros _ name c Hname Hget. apply elem_of_cons in Hname as [->|Hname];
          [congruence|by apply (Hin Hj name)].
      * destruct (IH s) as (added & Ha & _ & Hin).
        unfold log, emit. destruct (loadChapterFiles options files rest s) as [[r s'] t].
        cbn in *. exists added. repeat split; try done.
        intros _ name c Hname Hget. apply elem_of_cons in Hname as [->|Hname];
          [congruence|by apply (Hin Hj name)].
      * destruct (IH s) as (added & Ha & _ & Hin).
        unfold log, emit. destruct (loadChapterFiles options files rest s) as [[r s'] t].
        cbn in *. exists added. repeat split; try done.
        intros _ name c Hname Hget. apply elem_of_cons in Hname as [->|Hname];
          [congruence|by apply (Hin Hj name)].
    + destruct (IH s) as (added & Ha & Hnil & _).
      unfold mret, M_ret. destruct (loadChapterFiles options files rest s) as [[r s'] t].
      cbn in *. exists added. repeat split; try done.
Qed.

Lemma loadExisting_accumulator options storyInfo s :
  allCrawledChapters (mainv (st_of (loadExisting options storyInfo s))) =
  match readChaptersDir (fs s) (si_slug storyInfo) (opt_outputDir options) with
  | Some files =>
      allCrawledChapters (mainv (st_of
        (loadChapterFiles options files
           (Js.sort compareStrings
              (List.filter
                 (fun f => Js.endsWith f ("." +:+ extOf (opt_format options)))
                 (map fst files))) s)))
  | None => allCrawledChapters (mainv s)
  end.
Proof.
  unfold loadExisting. rewrite bind_run. cbn [get_st].
  destruct (readChaptersDir _ _ _) as [files|]; [|done].
  rewrite bind_run.
  destruct (loadChapterFiles _ _ _ s) as [[[[]|e] s1] t1]; [|done].
  rewrite bind_run. cbn [get_st]. by destruct (0 <? _).
Qed.

(** X26.  With the JSON format, reading the chapters back puts every
    chapter file of the directory that can be read into the accumulator
    of [main], after the chapters it held. *)
Theorem loadExisting_loads_chapter_files options storyInfo s files name chapter :
  opt_format options = "json" ->
  readChaptersDir (fs s) (si_slug storyInfo) (opt_outputDir options) = Some files ->
  get_file name files = Some (FChapter chapter) ->
  Js.endsWith name ".json" = true ->
  exists added,
    allCrawledChapters (mainv (st_of (loadExisting options storyInfo s)))
      = allCrawledChapters (mainv s) ++ added /\
    chapter ∈ added.
Proof.
  intros Hj Hfiles Hget Hext. rewrite loadExisting_accumulator, Hfiles.
  match goal with
  | |- context [loadChapterFiles options files ?cf s] =>
      destruct (loadChapterFiles_appends options files cf s) as (added & Ha & _ & Hin)
  end.
  exists added. split; [done|]. apply (Hin Hj name); [|done].
  rewrite (sort_perm compareStrings), list_elem_of_In, List.filter_In.
  split; [by rewrite <- list_elem_of_In; eapply get_file_listed|].
  by rewrite Hj.
Qed.

Lemma loadExisting_loads_chapter_files_witness :
  let s := st_of (saveChapter site13 (sampleChapter 7) "abc" "./output" "json"
                    (init_St ∅)) in
  exists added,
    allCrawledChapters (mainv (st_of (loadExisting defaultOptions sampleInfo s)))
      = allCrawledChapters (mainv s) ++ added /\
    sampleChapter 7 ∈ added.
Proof.
  intros s.
  refine (loadExisting_loads_chapter_files defaultOptions sampleInfo s
            [("chapter-00007.json", FChapter (sampleChapter 7))]
            "chapter-00007.json" (sampleChapter 7) _ _ _ _).
  - reflexivity.
  - vm_compute. reflexivity.
  - reflexivity.
  - reflexivity.
Defined.

(** X27.  With the text format nothing is read back: the accumulator of
    [main], from which the manifest is written, is left as it was,
    whatever the directory holds. *)
Theorem loadExisting_reads_no_text_file options storyInfo s :
  opt_format options <> "json" ->
  allCrawledChapters (mainv (st_of (loadExisting options storyInfo s)))
    = allCrawledChapters (mainv s).
Proof.
  intros Hj. rewrite loadExisting_accumulator.
  destruct (readChaptersDir _ _ _) as [files|]; [|done].
  match goal with
  | |- context [loadChapterFiles options files ?cf s] =>
      destruct (loadChapterFiles_appends options files cf s) as (added & Ha & Hnil & _)
  end.
  by rewrite Ha, (Hnil Hj), app_nil_r.
Qed.

Lemma loadExisting_reads_no_text_file_witness :
  let s := st_of (saveChapter site13 (sampleChapter 7) "abc" "./output" "txt"
                    (init_St ∅)) in
  allCrawledChapters
    (mainv (st_of (loadExisting (with_format "txt" defaultOptions) sampleInfo s)))
    = allCrawledChapters (mainv s).
Proof.
  intros s.
  apply (loadExisting_reads_no_text_file (with_format "txt" defaultOptions)
           sampleInfo s).
  discriminate.
Defined.

(** ** A crawl on a site and a disk that do not fail *)

#[export] Instance keeps_files_stepwise : Stepwise keeps_files.
Proof.
  split.
  - by intros s dir name.
  - intros s1 s2 s3 t1 t2 H1 H2 dir name H. by apply H2, H1.
Qed.

Lemma put_file_keeps name f other files :
  is_Some (get_file other files) -> is_Some (get_file other (put_file name f files)).
Proof.
  intros H. destruct (decide (other = name)) as [->|Hne].
  - rewrite get_put_file. eauto.
  - by rewrite get_put_file_other.
Qed.

Lemma keeps_after_bind {A B} (m : M A) (f : A -> M B) s a s1 t1 dir name :
  m s = (Ret a, s1, t1) -> respects keeps_files (f a) ->
  has_chapter_file (fs s1) dir name ->
  has_chapter_file (fs (st_of ((m ≫= f) s))) dir name.
Proof.
  intros Hm Hf. rewrite bind_run, Hm. specialize (Hf s1).
  destruct (f a s1) as [[r s2] t2]. cbn in *. apply Hf.
Qed.

Lemma keeps_after_try {A} (m : M A) (h : string -> M A) s dir name :
  (forall e, respects keeps_files (h e)) ->
  has_chapter_file (fs (st_of (m s))) dir name ->
  has_chapter_file (fs (st_of (try_catch m h s))) dir name.
Proof.
  intros Hh. rewrite try_run. destruct (m s) as [[[a|e] s1] t1]; [done|].
  specialize (Hh e s1). destruct (h e s1) as [[r s2] t2]. cbn in *. apply Hh.
Qed.

Section KeepsFiles.
Context (w : World).

Lemma net_keeps_files {A} (m : M A) :
  respects net_step m -> respects keeps_files m.
Proof.
  apply respects_weaken. intros s s' t (_ & Hfs & _) dir name. by rewrite Hfs.
Qed.

Lemma log_keeps_files l : respects keeps_files (log l).
Proof. by intros s dir name. Qed.

Lemma modify_keeps_files f :
  (forall s dir name,
     has_chapter_file (fs s) dir name -> has_chapter_file (fs (f s)) dir name) ->
  respects keeps_files (modify f).
Proof. intros H s dir name. apply H. Qed.

Lemma writeIn_keeps_files dir path d update :
  (forall before after name files,
     update before = Some after -> chapters_dir before = Some files ->
     is_Some (get_file name files) ->
     exists files', chapters_dir after = Some files' /\
                    is_Some (get_file name files')) ->
  respects keeps_files (writeIn w dir path d update).
Proof.
  intros Hup s. unfold writeIn.
  destruct (fs s !! dir) as [before|] eqn:Hdir; cbn; [|apply step_refl].
  destruct (update before) as [after|] eqn:Hafter; [|apply step_refl].
  destruct (disk_error w (nwrite s)); [by intros ? ?|].
  intros dir' name (d0 & files & Hd0 & Hfiles & Hget). cbn.
  destruct (decide (dir' = dir)) as [->|Hne].
  - rewrite Hdir in Hd0. injection Hd0 as <-.
    destruct (Hup _ _ _ _ Hafter Hfiles Hget) as (files' & Hf' & Hg').
    exists after, files'. by rewrite lookup_insert_eq.
  - exists d0, files. by rewrite lookup_insert_ne.
Qed.

Lemma ensureStoryDir_keeps_files dir : respects keeps_files (ensureStoryDir dir).
Proof.
  apply modify_keeps_files. intros s dir' name (d0 & files & Hd0 & Hfiles & Hget).
  unfold has_chapter_file. cbn [fs set_fs].
  destruct (fs s !! dir) eqn:E; [by exists d0, files|].
  exists d0, files. rewrite lookup_insert_ne; [done|]. intros ->. congruence.
Qed.

Lemma ensureChaptersDir_keeps_files dir :
  respects keeps_files (ensureChaptersDir dir).
Proof.
  apply modify_keeps_files. intros s dir' name (d0 & files & Hd0 & Hfiles & Hget).
  unfold has_chapter_file. cbn [fs set_fs].
  destruct (decide (dir' = dir)) as [->|Hne].
  - eexists _, files. rewrite lookup_insert_eq. split; [reflexivity|].
    cbn. rewrite Hd0. cbn. by rewrite Hfiles.
  - exists d0, files. by rewrite lookup_insert_ne.
Qed.

Hint Resolve log_keeps_files ensureStoryDir_keeps_files
  ensureChaptersDir_keeps_files : steps.
Hint Extern 1 (respects keeps_files (modify (set_mainv _))) =>
  apply modify_keeps_files; intros ? ? ? H; exact H : steps.
Hint Extern 1 (respects keeps_files (modify (set_crawlv _))) =>
  apply modify_keeps_files; intros ? ? ? H; exact H : steps.
Hint Extern 1 (respects keeps_files (getChapterContent _ _ _)) =>
  apply net_keeps_files, getChapterContent_net : steps.
Hint Extern 1 (respects keeps_files (delay _)) =>
  apply net_keeps_files, delay_net : steps.

Lemma saveChapter_keeps_files chapter slug outputDir format :
  respects keeps_files (saveChapter w chapter slug outputDir format).
Proof.
  unfold saveChapter.
  apply respects_bind; [tc_solve|steps|intros _].
  destruct (chapterFileName chapter format) as [name|msg]; [|steps].
  apply respects_bind; [tc_solve| |intros _; steps].
  destruct (String.eqb format "json");
    apply writeIn_keeps_files; intros before after other files Hup Hfiles Hget;
    cbn in Hup; rewrite Hfiles in Hup; cbn in Hup; injection Hup as <-; cbn;
    eexists; split; [reflexivity|by apply put_file_keeps
                    |reflexivity|by apply put_file_keeps].
Qed.

Lemma updateStoryJson_keeps_files storyInfo all outputDir :
  respects keeps_files (updateStoryJson w storyInfo all outputDir).
Proof.
  unfold updateStoryJson. apply writeIn_keeps_files.
  intros before after name files [= <-] Hfiles Hget. cbn. eauto.
Qed.

Lemma pushCrawled_keeps_files c : respects keeps_files (pushCrawled c).
Proof. unfold pushCrawled. steps. Qed.

Lemma onError_keeps_files options storyInfo errorInfo :
  respects keeps_files (onError_main w options storyInfo errorInfo).
Proof.
  unfold onError_main. apply respects_bind; [tc_solve|steps|intros _].
  apply writeIn_keeps_files.
  intros before after name files [= <-] Hfiles Hget. cbn. eauto.
Qed.

Lemma onProgress_keeps_files a b c : respects keeps_files (onProgress_main a b c).
Proof. unfold onProgress_main. steps. Qed.
Hint Resolve saveChapter_keeps_files updateStoryJson_keeps_files
  pushCrawled_keeps_files onError_keeps_files onProgress_keeps_files : steps.

Lemma onChapterCrawled_keeps_files options storyInfo existing chapter :
  respects keeps_files (onChapterCrawled_main w options storyInfo existing chapter).
Proof. unfold onChapterCrawled_main. steps. Qed.
Hint Resolve onChapterCrawled_keeps_files : steps.

Lemma crawlLoop_keeps_files cr options storyInfo existing total todo : forall i,
  respects keeps_files
    (crawlLoop w cr (crawlOptionsOf w options storyInfo existing) total i todo).
Proof.
  induction todo as [|r rest IH]; intros i; cbn [crawlLoop]; [steps|].
  unfold call. cbn [crawlOptionsOf onChapterCrawled onError onProgress].
  steps.
Qed.

Context (Honline : forall k u, exists body, http w k u = RespOk body).
Context (Hdisk : forall k, disk_error w k = None).

Lemma getChapterContent_online cr u s :
  exists chapter,
    getChapterContent w cr u s = (Ret chapter, set_nreq S s, [EvGet u]) /\
    number chapter = chapterNumberOf u.
Proof.
  destruct (Honline (nreq s) u) as [body Hbody].
  unfold getChapterContent. rewrite try_run, bind_run.
  rewrite (fetchPage_first _ _ _ body) by done. cbn. eauto.
Qed.

(** On a disk that takes every write, [saveChapter] leaves the file of a
    chapter with a number other than zero. *)
Lemma saveChapter_reliable chapter slug outputDir format n s :
  number chapter = Some n -> n <> 0 ->
  exists p s' t,
    saveChapter w chapter slug outputDir format s = (Ret p, s', t) /\
    has_chapter_file (fs s') (path_join outputDir (sanitizeFileName slug))
      ("chapter-" +:+ Js.padStart0 5 (Js.toString n) +:+ "." +:+ extOf format).
Proof.
  intros Hn Hnz.
  assert (Hret : exists p s' t,
            saveChapter w chapter slug outputDir format s = (Ret p, s', t)).
  { unfold saveChapter. rewrite (chapterFileName_numbered _ _ n) by done.
    rewrite bind_run. cbn [ensureChaptersDir modify]. rewrite bind_run.
    destruct (String.eqb format "json"); unfold writeIn; cbn [fs set_fs];
      rewrite lookup_insert_eq; cbn; rewrite Hdisk; cbn; eauto. }
  destruct Hret as (p & s' & t & Hsave). exists p, s', t. split; [done|].
  destruct (saveChapter_success _ _ _ _ _ _ _ _ _ Hsave) as (name & Hname & _ & Hfs).
  rewrite (chapterFileName_numbered _ _ n) in Hname by done. injection Hname as <-.
  rewrite Hfs. eexists _, _. rewrite lookup_insert_eq. split; [reflexivity|].
  split; [reflexivity|]. rewrite get_put_file. eauto.
Qed.

Lemma onChapterCrawled_saves options storyInfo existing chapter n s :
  negb (opt_force options) && has existing (number chapter) = false ->
  number chapter = Some n -> n <> 0 ->
  has_chapter_file
    (fs (st_of (onChapterCrawled_main w options storyInfo existing chapter s)))
    (path_join (opt_outputDir options) (sanitizeFileName (si_slug storyInfo)))
    ("chapter-" +:+ Js.padStart0 5 (Js.toString n) +:+ "."
     +:+ extOf (opt_format options)).
Proof.
  intros Hskip Hn Hnz. unfold onChapterCrawled_main. rewrite Hskip.
  destruct (saveChapter_reliable chapter (si_slug storyInfo) (opt_outputDir options)
              (opt_format options) n s Hn Hnz) as (p & s1 & t1 & Hsave & Hfile).
  apply keeps_after_try; [intros e; steps|].
  eapply keeps_after_bind; [exact Hsave|steps|exact Hfile].
Qed.

(** One round of the chapter loop, for a chapter that is fetched at once
    and saved. *)
Lemma crawlLoop_round cr options storyInfo existing total i r0 rest s :
  negb (opt_force options) && has existing (chapterNumberOf (ref_url r0)) = false ->
  exists s1 t1,
    crawlLoop w cr (crawlOptionsOf w options storyInfo existing) total i
      (r0 :: rest) s =
      (let '(r, s', t) :=
         crawlLoop w cr (crawlOptionsOf w options storyInfo existing) total
           (i + 1) rest s1 in
       (r, s', t1 ++ t)) /\
    keeps_files s s1 t1 /\
    forall n, chapterNumberOf (ref_url r0) = Some n -> n <> 0 ->
      has_chapter_file (fs s1)
        (path_join (opt_outputDir options) (sanitizeFileName (si_slug storyInfo)))
        ("chapter-" +:+ Js.padStart0 5 (Js.toString n) +:+ "."
         +:+ extOf (opt_format options)).
Proof.
  intros Hskip.
  destruct (getChapterContent_online cr (ref_url r0) s) as (chapter & Hget & Hnum).
  assert (Hskip' : negb (opt_force options) && has existing (number chapter) = false)
    by (by rewrite Hnum).
  pose proof (onChapterCrawled_catches w options storyInfo existing chapter
                (set_crawlv (fun v =>
                   {| crawledChapters := crawledChapters v ++ [chapter];
                      crawledCount := crawledCount v + 1 |}) (set_nreq S s)) Hskip')
    as (s1 & t1 & Hsave & _).
  pose proof (onChapterCrawled_keeps_files options storyInfo existing chapter
                (set_crawlv (fun v =>
                   {| crawledChapters := crawledChapters v ++ [chapter];
                      crawledCount := crawledCount v + 1 |}) (set_nreq S s)))
    as Hkeep.
  pose proof (fun n Hn Hnz =>
                onChapterCrawled_saves options storyInfo existing chapter n
                  (set_crawlv (fun v =>
                     {| crawledChapters := crawledChapters v ++ [chapter];
                        crawledCount := crawledCount v + 1 |}) (set_nreq S s))
                  Hskip' Hn Hnz) as Hfile.
  rewrite Hsave in Hkeep, Hfile. cbn [st_of trace_of fst snd] in Hkeep, Hfile.
  exists s1,
    (EvLog (LCrawling (i + 1) total (ref_title r0)) :: EvGet (ref_url r0) ::
     t1 ++ EvLog (LProgress (crawledCount (crawlv s1)) total (title chapter)) ::
     (if i <? total - 1 then [EvDelay (cr_delay cr)] else [])).
  split; [|split].
  - cbn [crawlLoop]. unfold call.
    cbn [crawlOptionsOf onChapterCrawled onProgress onError].
    cbv [mbind M_bind try_catch log emit modify get_st when delay mret M_ret
         onProgress_main].
    rewrite Hget. cbv beta iota zeta. rewrite Hsave. cbv beta iota zeta.
    destruct (i <? total - 1); cbv beta iota zeta;
      destruct (crawlLoop w cr _ total (i + 1) rest s1) as [[r s'] t];
      cbn [app]; rewrite <- ?app_assoc; cbn [app]; reflexivity.
  - intros dir name H. apply Hkeep. exact H.
  - intros n Hn Hnz. apply Hfile; [by rewrite Hnum|done].
Qed.

Lemma crawlLoop_saves cr options storyInfo existing total todo r n : forall i s,
  Forall (fun r => negb (opt_force options)
                   && has existing (chapterNumberOf (ref_url r)) = false) todo ->
  r ∈ todo -> chapterNumberOf (ref_url r) = Some n -> n <> 0 ->
  has_chapter_file
    (fs (st_of (crawlLoop w cr (crawlOptionsOf w options storyInfo existing)
                  total i todo s)))
    (path_join (opt_outputDir options) (sanitizeFileName (si_slug storyInfo)))
    ("chapter-" +:+ Js.padStart0 5 (Js.toString n) +:+ "."
     +:+ extOf (opt_format options)).
Proof.
  induction todo as [|r0 rest IH]; intros i s Htodo Hin Hn Hnz;
    [by apply elem_of_nil in Hin|].
  apply Forall_cons in Htodo as [Hr0 Hrest].
  destruct (crawlLoop_round cr options storyInfo existing total i r0 rest s Hr0)
    as (s1 & t1 & -> & _ & Hhead).
  pose proof (crawlLoop_keeps_files cr options storyInfo existing total rest
                (i + 1) s1) as Hafter.
  apply elem_of_cons in Hin as [->|Hin].
  - destruct (crawlLoop w cr _ total (i + 1) rest s1) as [[r5 s5] t5].
    cbn in *. by apply Hafter, Hhead.
  - specialize (IH (i + 1) s1 Hrest Hin Hn Hnz).
    by destruct (crawlLoop w cr _ total (i + 1) rest s1) as [[r5 s5] t5].
Qed.


Lemma crawlStory_saves storyUrl options storyInfo existing s info chapters s0 t0 r n :
  getAllChapters w (crawlerOf options) storyUrl s = (Ret (info, chapters), s0, t0) ->
  r ∈ chaptersToCrawlOf (crawlOptionsOf w options storyInfo existing) chapters ->
  ref_number r = Some n -> n <> 0 ->
  has_chapter_file
    (fs (st_of (crawlStory w (crawlerOf options) storyUrl
                  (crawlOptionsOf w options storyInfo existing) s)))
    (path_join (opt_outputDir options) (sanitizeFileName (si_slug storyInfo)))
    ("chapter-" +:+ Js.padStart0 5 (Js.toString n) +:+ "."
     +:+ extOf (opt_format options)).
Proof.
  intros Hall Hin Hn Hnz.
  pose proof (getAllChapters_numbers w (crawlerOf options) _ _ _ _ _ _ eq_refl Hall)
    as Hnum.
  pose proof (chaptersToCrawl_not_existing w options storyInfo existing chapters Hnum)
    as Htodo.
  assert (Hurl : chapterNumberOf (ref_url r) = Some n).
  { rewrite Forall_forall in Hnum. rewrite Hnum; [done|].
    unfold chaptersToCrawlOf, resumeFilter, rangeFilter in Hin.
    repeat case_match; rewrite ?list_elem_of_In, ?List.filter_In in Hin;
      rewrite ?list_elem_of_In; tauto. }
  unfold crawlStory. rewrite try_run, bind_run, Hall. rewrite bind_run.
  cbn [modify]. rewrite bind_run.
  match goal with
  | |- context [crawlLoop w ?cr ?o ?total 0 ?todo ?st] =>
      pose proof (crawlLoop_saves cr options storyInfo existing total todo r n 0 st
                    Htodo Hin Hurl Hnz) as Hfile;
      destruct (crawlLoop w cr o total 0 todo st) as [[[[]|e] s5] t5]
  end; exact Hfile.
Qed.
End KeepsFiles.

(** X28.  On a site that answers every request and a disk that takes every
    write, [crawlStory] under the callbacks of [main] leaves on disk the
    file of every chapter it was to visit whose number is not zero:
    [chapter-<number, five digits>.<ext>] in the chapter directory of the
    sanitized slug. *)
Theorem crawlStory_saves_every_chapter
    w storyUrl options storyInfo existing s info chapters s0 t0 r n :
  (forall k u, exists body, http w k u = RespOk body) ->
  (forall k, disk_error w k = None) ->
  getAllChapters w (crawlerOf options) storyUrl s = (Ret (info, chapters), s0, t0) ->
  r ∈ chaptersToCrawlOf (crawlOptionsOf w options storyInfo existing) chapters ->
  ref_number r = Some n -> n <> 0 ->
  has_chapter_file
    (fs (st_of (crawlStory w (crawlerOf options) storyUrl
                  (crawlOptionsOf w options storyInfo existing) s)))
    (path_join (opt_outputDir options) (sanitizeFileName (si_slug storyInfo)))
    ("chapter-" +:+ Js.padStart0 5 (Js.toString n) +:+ "."
     +:+ extOf (opt_format options)).
Proof. intros Honline Hdisk. by apply crawlStory_saves. Qed.

Lemma crawlStory_saves_every_chapter_witness :
  has_chapter_file
    (fs (st_of (crawlStory site13 (crawlerOf defaultOptions) root
                  (crawlOptionsOf site13 defaultOptions sampleInfo ∅)
                  (init_St ∅))))
    (path_join (opt_outputDir defaultOptions) (sanitizeFileName (si_slug sampleInfo)))
    ("chapter-" +:+ Js.padStart0 5 (Js.toString 3) +:+ "."
     +:+ extOf (opt_format defaultOptions)).
Proof.
  set (run := getAllChapters site13 (crawlerOf defaultOptions) root (init_St ∅)).
  refine (crawlStory_saves_every_chapter site13 root defaultOptions sampleInfo ∅
            (init_St ∅) sampleInfo
            [ {| ref_number := Some 1; ref_title := "/abc/chuong-1/";
                 ref_url := "https://truyenfull.vision/abc/chuong-1/";
                 ref_order := 0 |};
              {| ref_number := Some 3; ref_title := "/abc/chuong-3/";
                 ref_url := "https://truyenfull.vision/abc/chuong-3/";
                 ref_order := 1 |} ]
            (st_of run) (trace_of run)
            {| ref_number := Some 3; ref_title := "/abc/chuong-3/";
               ref_url := "https://truyenfull.vision/abc/chuong-3/";
               ref_order := 1 |} 3 _ _ _ _ _ _).
  - intros k u. by exists u.
  - intros k. reflexivity.
  - vm_compute. reflexivity.
  - vm_compute. apply elem_of_cons. right. apply elem_of_cons. by left.
  - reflexivity.
  - lia.
Defined.

Section Reliable.
Context (w : World).
Context (Honline : forall k u, exists body, http w k u = RespOk body).
Context (Hdisk : forall k, disk_error w k = None).




End Reliable.



